(** * ns3sionna: the time-windowed channel-state cache and the oracle session

    A shallow embedding of
    - [SionnaPropagationCache] (lib/sionna-propagation-cache.h, .cc),
    - [SionnaMobilityModel]    (lib/sionna-mobility-model.h, .cc),
    - [SionnaHelper]: its constructor, [Configure], [Start] and [Destroy]
      (helper/sionna-helper.cc),
    - [CFRTag] and its serialisation (lib/cfr-tag.h, .cc),
    - [ContextToNodeId] (lib/sionna-utils.h),
    followed by the properties of the cache that the specification states
    and by further properties of the code.

    Conventions.
    - [double] is IEEE-754 binary64: Rocq's primitive [float]; in [CFRTag],
      which moves [double]s without computing with them, a [double] is its
      64-bit pattern.
    - [ns3::Time] is a signed count of nanoseconds: [Z].  Comparisons of
      [Time] values are comparisons of these integers.
    - [uint32_t] node identifiers are [N]; the code only compares them.
    - [std::map<CacheKey, std::vector<CacheEntry>>] is a [gmap] from keys to
      lists; [push_back] appends at the end of the list.
    - A [Ptr<MobilityModel>] is a reference into a heap of mobility objects.
      A reference that is not bound in the heap plays the role of a null
      pointer.
    - [NS_ASSERT_MSG], [NS_ABORT_MSG] and [NS_FATAL_ERROR] terminate the
      run; the embedding is that of a build in which assertions are enabled.
    - The ZeroMQ REQ socket is a log of the messages sent so far together
      with the peer, a function from that log to the reply delivered by the
      next [recv] ([None]: [recv] delivers no result).  Exceptions raised
      inside the ZeroMQ binding are outside the model.
    - A byte is an integer from 0 to 255; an [int] is a [Z] with the
      wrap-around written out where the code multiplies. *)

From Stdlib Require Import ZArith Uint63 Ascii.
From Stdlib Require Import Floats.PrimFloat.
From stdpp Require Import gmap strings list.

Local Open Scope Z_scope.

(** ** Scalars and vectors *)

Definition Time := Z.
Definition NodeId := N.
Definition Ptr := nat.

(** [ns3::Vector]: three doubles; the default constructor gives the origin. *)
Record Vector := mkVector { vx : float; vy : float; vz : float }.

Definition Vector_default : Vector := mkVector 0%float 0%float 0%float.

(** ** CacheKey (sionna-propagation-cache.h, lines 69-96) *)

Record CacheKey := mkKey { m_first : N; m_second : N }.

(** The constructor [CacheKey(a, b)]: the smaller identifier comes first. *)
Definition mkCacheKey (a b : N) : CacheKey :=
  {| m_first := if (a <? b)%N then a else b;
     m_second := if (a <? b)%N then b else a |}.

(** [CacheKey::operator<], the strict order the [std::map] is sorted by. *)
Definition CacheKey_lt (k other : CacheKey) : bool :=
  if negb (m_first k =? m_first other)%N
  then (m_first k <? m_first other)%N
  else (m_second k <? m_second other)%N.

#[global] Instance CacheKey_eq_dec : EqDecision CacheKey.
Proof. solve_decision. Defined.

#[global] Instance CacheKey_countable : Countable CacheKey.
Proof.
  refine (inj_countable' (fun k => (m_first k, m_second k))
                         (fun p => mkKey p.1 p.2) _).
  intros []; reflexivity.
Defined.

(** ** CacheEntry (sionna-propagation-cache.h, lines 98-139) *)

Record CacheEntry := mkCacheEntry {
  m_delay : Time;
  m_loss : float;
  m_start_time : Time;
  m_end_time : Time;
  m_num_ofdm_subcarrier : Z;
  m_a : N;
  m_b : N;
  m_a_position : Vector;
  m_b_position : Vector;
  m_freq : list Z;
  m_cfr : list (float * float)   (* std::complex<double>: (real, imag) *)
}.

(** The default constructor sets only the two time stamps to -1.  [m_delay]
    and the two vectors are default-constructed; [m_loss],
    [m_num_ofdm_subcarrier], [m_a] and [m_b] are left uninitialised: their
    values are whatever the storage holds. *)
Record Indeterminate := mkIndeterminate {
  ind_loss : float;
  ind_num_ofdm_subcarrier : Z;
  ind_a : N;
  ind_b : N
}.

Definition CacheEntry_default (u : Indeterminate) : CacheEntry :=
  {| m_delay := 0;
     m_loss := ind_loss u;
     m_start_time := -1;
     m_end_time := -1;
     m_num_ofdm_subcarrier := ind_num_ofdm_subcarrier u;
     m_a := ind_a u;
     m_b := ind_b u;
     m_a_position := Vector_default;
     m_b_position := Vector_default;
     m_freq := [];
     m_cfr := [] |}.

(** ** Wire messages

    The generated protobuf header is not part of the tree; the shape of the
    messages is the one the code reads and writes through the accessors. *)

Inductive RandomVariableStreamMsg :=
| MsgUniform (min max : float)
| MsgConstant (value : float)
| MsgNormal (mean variance : float).

Inductive RandomWalkCondition :=
| wall_value (b : bool)
| time_value (t : Z)
| distance_value (d : float).

Inductive NodeModelMsg :=
| constant_position_model (position : Vector)
| random_walk_model (position : Vector) (cond : RandomWalkCondition)
                    (speed direction : RandomVariableStreamMsg).

Record NodeInfo := mkNodeInfo { ni_id : N; ni_model : NodeModelMsg }.

Record SimInitMessage := mkSimInitMessage {
  scene_fname : string;
  seed : Z;
  frequency : Z;
  channel_bw : Z;
  fft_size : Z;
  min_coherence_time_ms : Z;
  time_evo_model : string;
  subcarrier_spacing : Z;
  mode : Z;
  sub_mode : Z;
  nodes : list NodeInfo
}.

Record TxNode := mkTxNode { tx_id : N; tx_position : Vector }.

Record RxNode := mkRxNode {
  rx_id : N;
  rx_position : Vector;
  rx_delay : Z;
  rx_wb_loss : float;
  rx_frequencies : list Z;
  rx_csi_real : list float;
  rx_csi_imag : list float
}.

Record CSI := mkCSI {
  start_time : Z;
  end_time : Z;
  tx_node : TxNode;
  rx_nodes : list RxNode
}.

(** [ns3sionna::Wrapper]: a oneof over the message kinds.  [wrapper_not_set]
    is a wrapper none of whose alternatives is set (for instance the result
    of parsing bytes that are not a wrapper). *)
Inductive Wrapper :=
| sim_init_msg (m : SimInitMessage)
| sim_ack (no_error : bool) (error_msg : string)
| sim_close_request
| channel_state_request (tx_node rx_node : N) (time : Z)
| channel_state_response (csi : list CSI)
| wrapper_not_set.

Definition has_sim_ack (w : Wrapper) : bool :=
  match w with sim_ack _ _ => true | _ => false end.

(** ** The ZeroMQ request socket

    [sent] is the log of the messages sent so far, oldest first; [peer]
    gives the reply that [recv] delivers after that log; [closed] records
    that [close] has been called. *)

Record Socket := mkSocket {
  sent : list Wrapper;
  peer : list Wrapper -> option Wrapper;
  closed : bool
}.

(** ** Mobility (sionna-mobility-model.h, .cc) *)

Inductive RandomVariableStream :=
| UniformRandomVariable (min max : float)
| ConstantRandomVariable (constant : float)
| NormalRandomVariable (mean variance : float)
| OtherRandomVariable (type_name : string).

Inductive Model := MODEL_CONSTANT_POSITION | MODEL_RANDOM_WALK.

(** Modelled from the spec: the mobility model that [SionnaHelper::Start]
    is written against (model/sionna-mobility-model.h) is not part of the
    tree; the one under lib/ has the modes distance and time only.  The
    spec lists "a termination mode of distance/time/reflecting-boundary",
    [Start] asks [GetMode] for "Wall" and then reads [GetModeWall], and the
    examples set a boolean attribute "Wall".  So the mode has the third
    value [MODE_WALL], for which [GetMode] answers "Wall", and the model
    carries the boolean [m_modeWall] that [GetModeWall] returns. *)
Inductive Mode := MODE_DISTANCE | MODE_TIME | MODE_WALL.

Record SionnaMobilityModel := mkSionnaMobilityModel {
  m_model : Model;
  m_position : Vector;
  m_mode : Mode;
  m_modeDistance : float;
  m_modeTime : Time;
  m_modeWall : bool;
  m_speed : RandomVariableStream;
  m_direction : RandomVariableStream
}.

Definition GetModel (m : SionnaMobilityModel) : string :=
  match m_model m with
  | MODEL_RANDOM_WALK => "Random Walk"
  | MODEL_CONSTANT_POSITION => "Constant Position"
  end.

Definition GetMode (m : SionnaMobilityModel) : string :=
  match m_mode m with
  | MODE_TIME => "Time"
  | MODE_DISTANCE => "Distance"
  | MODE_WALL => "Wall"
  end.

(** Modelled from the spec: [GetModeWall], which [Start] calls on the
    mobility model and the model under lib/ does not declare, returns the
    boolean of the reflecting-boundary mode. *)
Definition GetModeWall (m : SionnaMobilityModel) : bool := m_modeWall m.

Definition GetModeDistance (m : SionnaMobilityModel) : float := m_modeDistance m.
Definition GetModeTime (m : SionnaMobilityModel) : Time := m_modeTime m.
Definition GetSpeed (m : SionnaMobilityModel) : RandomVariableStream := m_speed m.
Definition GetDirection (m : SionnaMobilityModel) : RandomVariableStream := m_direction m.

Definition DoGetPosition (m : SionnaMobilityModel) : Vector := m_position m.

Definition DoSetPosition (position : Vector) (m : SionnaMobilityModel)
  : SionnaMobilityModel :=
  {| m_model := m_model m;
     m_position := position;
     m_mode := m_mode m;
     m_modeDistance := m_modeDistance m;
     m_modeTime := m_modeTime m;
     m_modeWall := m_modeWall m;
     m_speed := m_speed m;
     m_direction := m_direction m |}.

(** A mobility object on the heap: its dynamic type is either
    [SionnaMobilityModel] or some other subclass of [MobilityModel], of
    which only the position is visible; [aggregated_node] is the identifier
    of the [Node] that [GetObject<Node>()] finds, if any. *)
Inductive MobilityKind :=
| Sionna (s : SionnaMobilityModel)
| OtherMobility (position : Vector).

Record MobilityModel := mkMobilityModel {
  kind : MobilityKind;
  aggregated_node : option NodeId
}.

Definition GetPosition (m : MobilityModel) : Vector :=
  match kind m with
  | Sionna s => DoGetPosition s
  | OtherMobility p => p
  end.

Definition SetPosition (position : Vector) (m : MobilityModel) : MobilityModel :=
  {| kind := match kind m with
             | Sionna s => Sionna (DoSetPosition position s)
             | OtherMobility _ => OtherMobility position
             end;
     aggregated_node := aggregated_node m |}.

Definition DynamicCast_SionnaMobilityModel (m : option MobilityModel)
  : option SionnaMobilityModel :=
  match m with
  | Some {| kind := Sionna s |} => Some s
  | _ => None
  end.

Definition GetObject_Node (m : option MobilityModel) : option NodeId :=
  match m with
  | Some mm => aggregated_node mm
  | None => None
  end.

(** A node of [NodeContainer::GetGlobal()]: its identifier and the mobility
    object [GetObject<MobilityModel>()] finds, if any. *)
Record Node := mkNode { GetId : NodeId; node_mobility : option Ptr }.

(** ** The two closed-form models of the ns-3 propagation module

    [FriisPropagationLossModel::CalcRxPower] and
    [ConstantSpeedPropagationDelayModel::GetDelay] belong to ns-3, not to
    this repository.  Both are pure functions of the two positions (and of
    the transmit power); they are carried as the behaviour of the two model
    objects the cache owns. *)
Record FriisPropagationLossModel := mkFriis {
  CalcRxPower : float -> Vector -> Vector -> float
}.

Record ConstantSpeedPropagationDelayModel := mkConstSpeed {
  GetDelay : Vector -> Vector -> Time
}.

(** ** SionnaHelper (sionna-helper.h) *)

Record SionnaHelper := mkSionnaHelper {
  m_zmq_url : string;
  m_environment : string;
  m_helper_mode : Z;
  m_sub_mode : Z;
  m_frequency : Z;
  m_channel_bw : Z;
  m_min_coherence_time_ms : Z;
  m_fft_size : Z;
  m_subcarrier_spacing : Z;
  m_time_evo_model : string;
  m_noiseDbm : float;
  m_zmq_socket : Socket
}.

Definition GetNoiseFloor (h : SionnaHelper) : float := m_noiseDbm h.

(** ** SionnaPropagationCache (sionna-propagation-cache.h, lines 143-152)

    [m_sionnaHelper] is a raw pointer to the helper of the run: [true] when
    it points to it, [false] when it is [nullptr]. *)
Record SionnaPropagationCache := mkSionnaPropagationCache {
  m_sionnaHelper : bool;
  m_caching : bool;
  m_cache : gmap CacheKey (list CacheEntry);
  m_cache_hits : float;
  m_cache_miss : float;
  m_optimize : bool;
  m_optimize_margin : float;
  m_friisLossModel : FriisPropagationLossModel;
  m_constSpeedDelayModel : ConstantSpeedPropagationDelayModel
}.

(** The constructor (sionna-propagation-cache.cc, lines 38-43) together
    with the default member initialiser of [m_optimize_margin]. *)
Definition SionnaPropagationCache_new (friis : FriisPropagationLossModel)
    (cs : ConstantSpeedPropagationDelayModel) : SionnaPropagationCache :=
  {| m_sionnaHelper := false;
     m_caching := true;
     m_cache := ∅;
     m_cache_hits := 0%float;
     m_cache_miss := 0%float;
     m_optimize := true;
     m_optimize_margin := 0%float;
     m_friisLossModel := friis;
     m_constSpeedDelayModel := cs |}.

Definition SetSionnaHelper (c : SionnaPropagationCache) : SionnaPropagationCache :=
  {| m_sionnaHelper := true;
     m_caching := m_caching c;
     m_cache := m_cache c;
     m_cache_hits := m_cache_hits c;
     m_cache_miss := m_cache_miss c;
     m_optimize := m_optimize c;
     m_optimize_margin := m_optimize_margin c;
     m_friisLossModel := m_friisLossModel c;
     m_constSpeedDelayModel := m_constSpeedDelayModel c |}.

Definition SetCaching (caching : bool) (c : SionnaPropagationCache)
  : SionnaPropagationCache :=
  {| m_sionnaHelper := m_sionnaHelper c;
     m_caching := caching;
     m_cache := m_cache c;
     m_cache_hits := m_cache_hits c;
     m_cache_miss := m_cache_miss c;
     m_optimize := m_optimize c;
     m_optimize_margin := m_optimize_margin c;
     m_friisLossModel := m_friisLossModel c;
     m_constSpeedDelayModel := m_constSpeedDelayModel c |}.

Definition SetOptimize (optimize : bool) (c : SionnaPropagationCache)
  : SionnaPropagationCache :=
  {| m_sionnaHelper := m_sionnaHelper c;
     m_caching := m_caching c;
     m_cache := m_cache c;
     m_cache_hits := m_cache_hits c;
     m_cache_miss := m_cache_miss c;
     m_optimize := optimize;
     m_optimize_margin := m_optimize_margin c;
     m_friisLossModel := m_friisLossModel c;
     m_constSpeedDelayModel := m_constSpeedDelayModel c |}.

(** ** The state of a run *)

Record World := mkWorld {
  Now : Time;                           (* Simulator::Now() *)
  mobility : gmap Ptr MobilityModel;    (* the mobility objects *)
  global_nodes : list Node;             (* NodeContainer::GetGlobal() *)
  rng_seed : Z;                         (* RngSeedManager::GetSeed() *)
  indeterminate : Indeterminate;        (* contents of uninitialised storage *)
  helper : SionnaHelper;
  pcache : SionnaPropagationCache
}.

Definition set_mobility (m : gmap Ptr MobilityModel) (w : World) : World :=
  mkWorld (Now w) m (global_nodes w) (rng_seed w) (indeterminate w)
          (helper w) (pcache w).

Definition set_socket (s : Socket) (w : World) : World :=
  let h := helper w in
  mkWorld (Now w) (mobility w) (global_nodes w) (rng_seed w) (indeterminate w)
          (mkSionnaHelper (m_zmq_url h) (m_environment h) (m_helper_mode h)
             (m_sub_mode h) (m_frequency h) (m_channel_bw h)
             (m_min_coherence_time_ms h) (m_fft_size h)
             (m_subcarrier_spacing h) (m_time_evo_model h) (m_noiseDbm h) s)
          (pcache w).

Definition set_pcache (c : SionnaPropagationCache) (w : World) : World :=
  mkWorld (Now w) (mobility w) (global_nodes w) (rng_seed w) (indeterminate w)
          (helper w) c.

Definition set_cache (m : gmap CacheKey (list CacheEntry)) (w : World) : World :=
  let c := pcache w in
  set_pcache (mkSionnaPropagationCache (m_sionnaHelper c) (m_caching c) m
                (m_cache_hits c) (m_cache_miss c) (m_optimize c)
                (m_optimize_margin c) (m_friisLossModel c)
                (m_constSpeedDelayModel c)) w.

Definition set_cache_hits (h : float) (w : World) : World :=
  let c := pcache w in
  set_pcache (mkSionnaPropagationCache (m_sionnaHelper c) (m_caching c)
                (m_cache c) h (m_cache_miss c) (m_optimize c)
                (m_optimize_margin c) (m_friisLossModel c)
                (m_constSpeedDelayModel c)) w.

Definition set_cache_miss (m : float) (w : World) : World :=
  let c := pcache w in
  set_pcache (mkSionnaPropagationCache (m_sionnaHelper c) (m_caching c)
                (m_cache c) (m_cache_hits c) m (m_optimize c)
                (m_optimize_margin c) (m_friisLossModel c)
                (m_constSpeedDelayModel c)) w.

Definition socket (w : World) : Socket := m_zmq_socket (helper w).
Definition cache (w : World) : gmap CacheKey (list CacheEntry) := m_cache (pcache w).

(** ** Outcomes and the monad of the simulation thread *)

Inductive FatalKind :=
| AssertFailed   (* NS_ASSERT_MSG *)
| Aborted        (* NS_ABORT_MSG *)
| FatalError     (* NS_FATAL_ERROR *)
| NullPointer.   (* a method call through a null pointer *)

Inductive Outcome (A : Type) : Type :=
| Ok (v : A) (w : World)
| Fatal (k : FatalKind) (msg : string).

Arguments Ok {A} v w.
Arguments Fatal {A} k msg.

Definition M (A : Type) : Type := World -> Outcome A.

Definition ret {A} (v : A) : M A := fun w => Ok v w.

Definition bind {A B} (c : M A) (k : A -> M B) : M B :=
  fun w => match c w with
           | Ok v w' => k v w'
           | Fatal kd msg => Fatal kd msg
           end.

Definition gets {A} (f : World -> A) : M A := fun w => Ok (f w) w.
Definition modify (f : World -> World) : M unit := fun w => Ok tt (f w).
Definition fail {A} (k : FatalKind) (msg : string) : M A := fun _ => Fatal k msg.

Notation "'let*' x ':=' c 'in' k" := (bind c (fun x => k))
  (at level 10, x name, c at level 100, k at level 200).
Notation "c ';;;' k" := (bind c (fun _ => k))
  (at level 100, k at level 200, right associativity).

Definition NS_ASSERT_MSG (cond : bool) (msg : string) : M unit :=
  if cond then ret tt else fail AssertFailed msg.

Definition NS_ABORT_MSG {A} (msg : string) : M A := fail Aborted msg.
Definition NS_FATAL_ERROR {A} (msg : string) : M A := fail FatalError msg.

(** [m_zmq_socket.send]: the message joins the log. *)
Definition zmq_send (msg : Wrapper) : M unit :=
  modify (fun w =>
    let s := socket w in
    set_socket (mkSocket (sent s ++ [msg]) (peer s) (closed s)) w).

(** [m_zmq_socket.recv]: the peer's reply to the requests sent so far. *)
Definition zmq_recv : M (option Wrapper) :=
  gets (fun w => peer (socket w) (sent (socket w))).

Definition zmq_close : M unit :=
  modify (fun w =>
    let s := socket w in
    set_socket (mkSocket (sent s) (peer s) true) w).

(** ** The cache store (sionna-propagation-cache.cc, lines 204-353) *)

(** The freshness test of lines 228 and 343. *)
Definition is_live (current_time : Time) (c_entry : CacheEntry) : bool :=
  (m_end_time c_entry >=? current_time) && (m_start_time c_entry <=? current_time).

(** The erase loop of lines 215-222. *)
Fixpoint erase_outdated (current_time : Time) (v : list CacheEntry)
  : list CacheEntry :=
  match v with
  | [] => []
  | e :: rest =>
      if m_end_time e <? current_time
      then erase_outdated current_time rest
      else e :: erase_outdated current_time rest
  end.

(** The scan of lines 225-235 and 341-348: the first fresh entry wins. *)
Fixpoint find_live (current_time : Time) (v : list CacheEntry)
  : option CacheEntry :=
  match v with
  | [] => None
  | c_entry :: rest =>
      if is_live current_time c_entry then Some c_entry
      else find_live current_time rest
  end.

(** The entry built at lines 290-319 from one receiver of one CSI record.
    The loop reads index [i] of the three repeated fields for every [i]
    below the size of [csi_imag]; reading a repeated field past its end is
    undefined in the source.  The embedding reads zero there, and nothing
    is stated about the frequencies and coefficients of an entry built
    from a record whose three fields differ in length. *)
Definition make_entry (c : CSI) (rx : RxNode) : CacheEntry :=
  let num_ofdm_subcarrier := length (rx_csi_imag rx) in
  {| m_delay := rx_delay rx;
     m_loss := rx_wb_loss rx;
     m_start_time := start_time c;
     m_end_time := end_time c;
     m_num_ofdm_subcarrier := Z.of_nat num_ofdm_subcarrier;
     m_a := tx_id (tx_node c);
     m_b := rx_id rx;
     m_a_position := tx_position (tx_node c);
     m_b_position := rx_position rx;
     m_freq := map (fun i => nth i (rx_frequencies rx) 0)
                   (seq 0 num_ofdm_subcarrier);
     m_cfr := map (fun i => (nth i (rx_csi_real rx) 0%float,
                             nth i (rx_csi_imag rx) 0%float))
                  (seq 0 num_ofdm_subcarrier) |}.

(** Lines 321-331: append to the bucket of the key, creating it if needed. *)
Definition push_back_entry (otherkey : CacheKey) (entry : CacheEntry)
    (m : gmap CacheKey (list CacheEntry)) : gmap CacheKey (list CacheEntry) :=
  match m !! otherkey with
  | Some v => <[otherkey := v ++ [entry]]> m
  | None => <[otherkey := [] ++ [entry]]> m
  end.

(** The inner loop over the receivers of one record (lines 289-332). *)
Definition ingest_rx_nodes (c : CSI) (m : gmap CacheKey (list CacheEntry))
  : gmap CacheKey (list CacheEntry) :=
  fold_left
    (fun acc rx =>
       push_back_entry (mkCacheKey (tx_id (tx_node c)) (rx_id rx))
                       (make_entry c rx) acc)
    (rx_nodes c) m.

(** The outer loop over the records of the response (lines 278-333). *)
Definition ingest (csi : list CSI) (m : gmap CacheKey (list CacheEntry))
  : gmap CacheKey (list CacheEntry) :=
  fold_left (fun acc c => ingest_rx_nodes c acc) csi m.

(** Lines 208-236, entered when caching is on: sweep the bucket of the key,
    then scan it. *)
Definition cache_lookup (key : CacheKey) (current_time : Time)
  : M (option CacheEntry) :=
  let* it := gets (fun w => cache w !! key) in
  match it with
  | Some v =>
      let v' := erase_outdated current_time v in
      modify (fun w => set_cache (<[key := v']> (cache w)) w) ;;;
      match find_live current_time v' with
      | Some c_entry =>
          modify (fun w =>
            set_cache_hits (m_cache_hits (pcache w) + 1)%float w) ;;;
          ret (Some c_entry)
      | None => ret None
      end
  | None => ret None
  end.

(** Lines 239-353: count the miss, ask the oracle, store every record of the
    reply, and look the queried pair up again. *)
Definition cache_refill (id_a id_b : NodeId) (current_time : Time)
  : M CacheEntry :=
  modify (fun w => set_cache_miss (m_cache_miss (pcache w) + 1)%float w) ;;;
  zmq_send (channel_state_request id_a id_b current_time) ;;;
  let* result := zmq_recv in
  match result with
  | None =>
      fail AssertFailed "Failed to receive reply after propagation request message."
  | Some (channel_state_response csi) =>
      modify (fun w => set_cache (ingest csi (cache w)) w) ;;;
      let* cache_it := gets (fun w => cache w !! mkCacheKey id_a id_b) in
      match cache_it ≫= find_live current_time with
      | Some c_entry => ret c_entry
      | None =>
          (* cannot be reached *)
          let* u := gets indeterminate in
          ret (CacheEntry_default u)
      end
  | Some _ =>
      fail AssertFailed
        "Reply after channel state request is not a channel state response."
  end.

Definition GetPropagationData (a b : Ptr) : M CacheEntry :=
  let* has_helper := gets (fun w => m_sionnaHelper (pcache w)) in
  NS_ASSERT_MSG has_helper
    "SionnaPropagationCache must have reference to SionnaHelper." ;;;
  let* sionna_a :=
    gets (fun w => DynamicCast_SionnaMobilityModel (mobility w !! a)) in
  let* sionna_b :=
    gets (fun w => DynamicCast_SionnaMobilityModel (mobility w !! b)) in
  NS_ASSERT_MSG (bool_decide (is_Some sionna_a) && bool_decide (is_Some sionna_b))
    "Not using SionnaMobilityModel." ;;;
  let* current_time := gets Now in
  let* node_a := gets (fun w => GetObject_Node (mobility w !! a)) in
  let* node_b := gets (fun w => GetObject_Node (mobility w !! b)) in
  match node_a, node_b with
  | Some id_a, Some id_b =>
      let* caching := gets (fun w => m_caching (pcache w)) in
      let* hit :=
        (if caching then cache_lookup (mkCacheKey id_a id_b) current_time
         else ret None) in
      match hit with
      | Some c_entry => ret c_entry
      | None => cache_refill id_a id_b current_time
      end
  | _, _ => fail AssertFailed "Nodes not found."
  end.

Arguments GetPropagationData : simpl never.

(** ** The accessors (sionna-propagation-cache.cc, lines 50-148) *)

(** [p->GetPosition()] *)
Definition mob_GetPosition (p : Ptr) : M Vector :=
  let* m := gets (fun w => mobility w !! p) in
  match m with
  | Some mm => ret (GetPosition mm)
  | None => fail NullPointer "GetPosition"
  end.

(** [p->SetPosition(v)] *)
Definition mob_SetPosition (p : Ptr) (v : Vector) : M unit :=
  let* m := gets (fun w => mobility w !! p) in
  match m with
  | Some mm =>
      modify (fun w => set_mobility (<[p := SetPosition v mm]> (mobility w)) w)
  | None => fail NullPointer "SetPosition"
  end.

(** [m_friisLossModel->CalcRxPower(txPowerDbm, a, b)] *)
Definition friis_CalcRxPower (txPowerDbm : float) (a b : Ptr) : M float :=
  let* pos_a := mob_GetPosition a in
  let* pos_b := mob_GetPosition b in
  gets (fun w => CalcRxPower (m_friisLossModel (pcache w)) txPowerDbm pos_a pos_b).

(** [m_constSpeedDelayModel->GetDelay(a, b)] *)
Definition constSpeed_GetDelay (a b : Ptr) : M Time :=
  let* pos_a := mob_GetPosition a in
  let* pos_b := mob_GetPosition b in
  gets (fun w => GetDelay (m_constSpeedDelayModel (pcache w)) pos_a pos_b).

(** [m_sionnaHelper->GetNoiseFloor()] *)
Definition helper_GetNoiseFloor : M float :=
  let* has_helper := gets (fun w => m_sionnaHelper (pcache w)) in
  if has_helper then gets (fun w => GetNoiseFloor (helper w))
  else fail NullPointer "GetNoiseFloor".

(** The test of lines 57-58 and 76-77. *)
Definition below_noise_floor (resultdBm margin noise_floor : float) : bool :=
  (resultdBm + margin <? noise_floor)%float.

Arguments below_noise_floor : simpl never.

Definition MAX_TXPOWER_DBM : float := 20%float.

(** Lines 54-65: the value the delay accessor returns at once, if any. *)
Definition delay_fast_path (a b : Ptr) : M (option Time) :=
  let* optimize := gets (fun w => m_optimize (pcache w)) in
  if optimize then
    let* resultdBm := friis_CalcRxPower MAX_TXPOWER_DBM a b in
    let* margin := gets (fun w => m_optimize_margin (pcache w)) in
    let* noise_floor := helper_GetNoiseFloor in
    if below_noise_floor resultdBm margin noise_floor then
      let* const_delay := constSpeed_GetDelay a b in
      ret (Some const_delay)
    else ret None
  else ret None.

Definition GetPropagationDelay (a b : Ptr) : M Time :=
  let* shortcut := delay_fast_path a b in
  match shortcut with
  | Some const_delay => ret const_delay
  | None =>
      let* ce := GetPropagationData a b in
      ret (m_delay ce)
  end.

(** Lines 74-84: the value the loss accessor returns at once, if any. *)
Definition loss_fast_path (a b : Ptr) (txPowerDbm : float) : M (option float) :=
  let* optimize := gets (fun w => m_optimize (pcache w)) in
  if optimize then
    let* resultdBm := friis_CalcRxPower txPowerDbm a b in
    let* margin := gets (fun w => m_optimize_margin (pcache w)) in
    let* noise_floor := helper_GetNoiseFloor in
    if below_noise_floor resultdBm margin noise_floor then
      let friis_loss := ((-1) * (resultdBm - txPowerDbm))%float in
      ret (Some friis_loss)
    else ret None
  else ret None.

(** [GetPropagationLoss(a, b, txPowerDbm)], lines 70-122. *)
Definition GetPropagationLoss_tx (a b : Ptr) (txPowerDbm : float) : M float :=
  let* shortcut := loss_fast_path a b txPowerDbm in
  match shortcut with
  | Some friis_loss => ret friis_loss
  | None =>
      let* pos_a := mob_GetPosition a in
      let* pos_b := mob_GetPosition b in
      let* ce := GetPropagationData a b in
      let* node_a := gets (fun w => GetObject_Node (mobility w !! a)) in
      match node_a with
      | Some id_a =>
          (if (id_a =? m_a ce)%N then
             mob_SetPosition a (m_a_position ce) ;;;
             mob_SetPosition b (m_b_position ce)
           else
             mob_SetPosition a (m_b_position ce) ;;;
             mob_SetPosition b (m_a_position ce)) ;;;
          ret (m_loss ce)
      | None => fail NullPointer "GetId"
      end
  end.

(** [GetPropagationLoss(a, b)], lines 124-131. *)
Definition GetPropagationLoss (a b : Ptr) : M float :=
  let* ce := GetPropagationData a b in
  ret (m_loss ce).

Definition GetPropagationFreq (a b : Ptr) : M (list Z) :=
  let* ce := GetPropagationData a b in
  ret (m_freq ce).

Definition GetPropagationCSI (a b : Ptr) : M (list (float * float)) :=
  let* ce := GetPropagationData a b in
  ret (m_cfr ce).

(** ** The startup and teardown exchanges (sionna-helper.cc, lines 129-304) *)

Definition RandomVariableStreamMessage (random_variable : RandomVariableStream)
  : M RandomVariableStreamMsg :=
  match random_variable with
  | UniformRandomVariable mn mx => ret (MsgUniform mn mx)
  | ConstantRandomVariable c => ret (MsgConstant c)
  | NormalRandomVariable mu var => ret (MsgNormal mu var)
  | OtherRandomVariable _ =>
      NS_FATAL_ERROR "RandomVariableStream must be Uniform, Constant, or Normal."
  end.

(** The termination condition of a random walk (lines 207-222). *)
Definition random_walk_condition (s : SionnaMobilityModel)
  : M RandomWalkCondition :=
  if String.eqb (GetMode s) "Wall" then
    ret (wall_value (GetModeWall s))
  else if String.eqb (GetMode s) "Time" then
    let tv := GetModeTime s in
    NS_ASSERT_MSG (tv >? 0) "Time value must be greater than 0 seconds." ;;;
    ret (time_value tv)
  else
    let dv := GetModeDistance s in
    NS_ASSERT_MSG (0 <? dv)%float
      "Distance value must be greater than 0 meters." ;;;
    ret (distance_value dv).

(** The body of the loop over the global node container (lines 185-239):
    a node without mobility model contributes nothing. *)
Definition node_info (n : Node) : M (option NodeInfo) :=
  let* mobilityModel :=
    gets (fun w => node_mobility n ≫= fun p => mobility w !! p) in
  match mobilityModel with
  | None => ret None
  | Some mm =>
      match DynamicCast_SionnaMobilityModel (Some mm) with
      | None => fail AssertFailed "Not using SionnaMobilityModel."
      | Some s =>
          let position := GetPosition mm in
          if String.eqb (GetModel s) "Random Walk" then
            let* cond := random_walk_condition s in
            let* speed := RandomVariableStreamMessage (GetSpeed s) in
            let* direction := RandomVariableStreamMessage (GetDirection s) in
            ret (Some (mkNodeInfo (GetId n)
                         (random_walk_model position cond speed direction)))
          else
            ret (Some (mkNodeInfo (GetId n) (constant_position_model position)))
      end
  end.

Fixpoint node_infos (c : list Node) : M (list NodeInfo) :=
  match c with
  | [] => ret []
  | n :: rest =>
      let* i := node_info n in
      let* tl := node_infos rest in
      ret (match i with Some x => x :: tl | None => tl end)
  end.

(** The information message of lines 167-240. *)
Definition simulation_info : M SimInitMessage :=
  let* h := gets helper in
  let* sd := gets rng_seed in
  let* c := gets global_nodes in
  let* infos := node_infos c in
  ret {| scene_fname := m_environment h;
         seed := sd;
         frequency := m_frequency h;
         channel_bw := m_channel_bw h;
         fft_size := m_fft_size h;
         min_coherence_time_ms := m_min_coherence_time_ms h;
         time_evo_model := m_time_evo_model h;
         subcarrier_spacing := m_subcarrier_spacing h;
         mode := m_helper_mode h;
         sub_mode := m_sub_mode h;
         nodes := infos |}.

Definition Start : M unit :=
  let* info := simulation_info in
  zmq_send (sim_init_msg info) ;;;
  let* result := zmq_recv in
  match result with
  | None =>
      fail AssertFailed
        "Failed to receive reply after simulation information message."
  | Some (sim_ack no_error error_msg) =>
      if no_error then ret tt
      else NS_ABORT_MSG
             ("ns3sionna: connection ... FAILED with error: " +:+ error_msg)
  | Some _ => NS_ABORT_MSG "ns3sionna: connection ... FAILED"
  end.

Definition Destroy : M unit :=
  zmq_send sim_close_request ;;;
  let* result := zmq_recv in
  match result with
  | None =>
      fail AssertFailed "Failed to receive reply after close request message."
  | Some reply_wrapper =>
      NS_ASSERT_MSG (has_sim_ack reply_wrapper)
        "Reply after close request is not an ack." ;;;
      zmq_close
  end.

(** ** Derived notions used to state the properties *)

(** The content of a bucket; a key without bucket has no entries. *)
Definition bucket (k : CacheKey) (m : gmap CacheKey (list CacheEntry))
  : list CacheEntry := default [] (m !! k).

(** The records of a response in the order the two loops visit them, each
    with the key it is filed under. *)
Definition records_of (c : CSI) : list (CacheKey * CacheEntry) :=
  map (fun rx => (mkCacheKey (tx_id (tx_node c)) (rx_id rx), make_entry c rx))
      (rx_nodes c).

Definition records (csi : list CSI) : list (CacheKey * CacheEntry) :=
  flat_map records_of csi.

(** The entries of a list of records that are filed under [k]. *)
Definition filed_under (k : CacheKey) (l : list (CacheKey * CacheEntry))
  : list CacheEntry :=
  (filter (fun kv => kv.1 = k) l).*2.

Definition push_all (l : list (CacheKey * CacheEntry))
    (m : gmap CacheKey (list CacheEntry)) : gmap CacheKey (list CacheEntry) :=
  fold_left (fun acc kv => push_back_entry kv.1 kv.2 acc) l m.

(** The three assertions of lines 191-200 pass exactly when the helper is
    set, both endpoints are [SionnaMobilityModel]s and both are aggregated
    to a node; [endpoints] then gives the two node identifiers. *)
Definition endpoints (w : World) (a b : Ptr) : option (NodeId * NodeId) :=
  if m_sionnaHelper (pcache w) then
    match DynamicCast_SionnaMobilityModel (mobility w !! a),
          DynamicCast_SionnaMobilityModel (mobility w !! b),
          GetObject_Node (mobility w !! a),
          GetObject_Node (mobility w !! b) with
    | Some _, Some _, Some id_a, Some id_b => Some (id_a, id_b)
    | _, _, _, _ => None
    end
  else None.

(** The world after the sweep of the bucket of [key]. *)
Definition swept (key : CacheKey) (w : World) : World :=
  match cache w !! key with
  | Some v => set_cache (<[key := erase_outdated (Now w) v]> (cache w)) w
  | None => w
  end.

(** The request a miss sends, and the world once it is sent. *)
Definition request (id_a id_b : NodeId) (w : World) : Wrapper :=
  channel_state_request id_a id_b (Now w).

Definition requested (id_a id_b : NodeId) (w : World) : World :=
  let w1 := set_cache_miss (m_cache_miss (pcache w) + 1)%float w in
  set_socket (mkSocket (sent (socket w1) ++ [request id_a id_b w])
                       (peer (socket w1)) (closed (socket w1))) w1.

(** The reply the peer gives to that request. *)
Definition reply_to (id_a id_b : NodeId) (w : World) : option Wrapper :=
  peer (socket w) (sent (socket w) ++ [request id_a id_b w]).

(** What the final scan of lines 336-352 returns. *)
Definition rescan (id_a id_b : NodeId) (w : World) : CacheEntry :=
  match cache w !! mkCacheKey id_a id_b ≫= find_live (Now w) with
  | Some c_entry => c_entry
  | None => CacheEntry_default (indeterminate w)
  end.

Definition refilled (id_a id_b : NodeId) (csi : list CSI) (w : World) : World :=
  let w1 := requested id_a id_b w in
  set_cache (ingest csi (cache w1)) w1.

(** The world a miss refills from: the bucket of the queried pair has been
    swept when caching is on, and nothing has happened when it is off. *)
Definition lookup_world (id_a id_b : NodeId) (w : World) : World :=
  if m_caching (pcache w) then swept (mkCacheKey id_a id_b) w else w.

(** ** A small scenario

    Three nodes on a line, at 0 m, 10 m and 200 m.  The stand-in for the
    Friis model loses one dB per metre along the x axis; the oracle answers
    every channel-state request with two windows, [0, 100] and [101, 200],
    for the pairs (0, 1) and (0, 2), and acknowledges everything else. *)
Module Scenario.

Definition friis : FriisPropagationLossModel :=
  mkFriis (fun tx pa pb => (tx - abs (vx pa - vx pb))%float).

Definition const_speed : ConstantSpeedPropagationDelayModel :=
  mkConstSpeed (fun _ _ => 33).

Definition station (x : float) (id : NodeId) : MobilityModel :=
  mkMobilityModel
    (Sionna (mkSionnaMobilityModel MODEL_CONSTANT_POSITION
               (mkVector x 0%float 0%float) MODE_DISTANCE 1%float 1000000000 false
               (ConstantRandomVariable 1%float) (ConstantRandomVariable 0%float)))
    (Some id).

Definition rx1 : RxNode :=
  mkRxNode 1%N (mkVector 10.5%float 0%float 0%float) 35 60%float [] [] [].
Definition rx2 : RxNode :=
  mkRxNode 2%N (mkVector 200%float 0%float 0%float) 667 110%float [] [] [].
Definition tx0 : TxNode := mkTxNode 0%N (mkVector 0.5%float 0%float 0%float).

Definition window1 : CSI := mkCSI 0 100 tx0 [rx1; rx2].
Definition window2 : CSI := mkCSI 101 200 tx0 [rx1; rx2].

Definition oracle (log : list Wrapper) : option Wrapper :=
  match last log with
  | Some (channel_state_request _ _ _) =>
      Some (channel_state_response [window1; window2])
  | Some (sim_init_msg _) => Some (sim_ack true "")
  | Some sim_close_request => Some (sim_ack true "")
  | _ => None
  end.

Definition the_helper (p : list Wrapper -> option Wrapper) : SionnaHelper :=
  mkSionnaHelper "tcp://localhost:5555" "simple_room/simple_room.xml"
    3 1 5210 240 100000 3072 78125 "position" (-95)%float
    (mkSocket [] p false).

Definition world (p : list Wrapper -> option Wrapper)
    (c : SionnaPropagationCache) (t : Time) : World :=
  mkWorld t
    (<[0%nat := station 0%float 0%N]>
       (<[1%nat := station 10%float 1%N]>
          (<[2%nat := station 200%float 2%N]> ∅)))
    [mkNode 0%N (Some 0%nat); mkNode 1%N (Some 1%nat); mkNode 2%N (Some 2%nat)]
    1
    (mkIndeterminate nan 7 5%N 6%N)
    (the_helper p)
    c.

(** A cache configured as the examples do: helper set, fast path off. *)
Definition fresh_cache : SionnaPropagationCache :=
  SetOptimize false (SetSionnaHelper (SionnaPropagationCache_new friis const_speed)).

Definition start : World := world oracle fresh_cache 50.

End Scenario.

(** The scenario after the first query of the pair (0, 1) at 50 ns has been
    answered, with the clock advanced to 60 ns and to 150 ns. *)
Module Warm.

Definition at_time (t : Time) (w : World) : World :=
  mkWorld t (mobility w) (global_nodes w) (rng_seed w) (indeterminate w)
          (helper w) (pcache w).

Definition first_answer : World :=
  refilled 0%N 1%N [Scenario.window1; Scenario.window2] Scenario.start.

Definition at_60 : World := at_time 60 first_answer.
Definition at_150 : World := at_time 150 first_answer.

End Warm.

(** The number of entries the store holds, over all buckets. *)
Definition stored_entries (m : gmap CacheKey (list CacheEntry)) : nat :=
  map_fold (fun _ v n => (length v + n)%nat) 0%nat m.

(** The warm scenario at 60 ns after [SetCaching(false)]. *)
Module Uncached.

Definition at_60 : World :=
  set_pcache (SetCaching false (pcache Warm.at_60)) Warm.at_60.

End Uncached.

(** A computation preserves an observation of the world when every
    successful run leaves the observation as it found it. *)
Definition preserves {A X : Type} (obs : World -> X) (c : M A) : Prop :=
  ∀ w v w', c w = Ok v w' → obs w' = obs w.

(** The fast-path test of lines 54-58 and 74-77 for a given transmit power:
    the optimisation is on, both positions and the helper are there, and
    the Friis received power plus the margin is below the noise floor. *)
Definition shortcut_taken (txPowerDbm : float) (a b : Ptr) (w : World) : bool :=
  m_optimize (pcache w) &&
  match mobility w !! a, mobility w !! b with
  | Some ma, Some mb =>
      m_sionnaHelper (pcache w) &&
      below_noise_floor
        (CalcRxPower (m_friisLossModel (pcache w)) txPowerDbm
           (GetPosition ma) (GetPosition mb))
        (m_optimize_margin (pcache w)) (GetNoiseFloor (helper w))
  | _, _ => false
  end.

(** The position of an endpoint, if the reference is bound. *)
Definition position_of (p : Ptr) (w : World) : option Vector :=
  GetPosition <$> mobility w !! p.

(** The public operations that change the configuration of the cache
    (sionna-propagation-cache.h, lines 61-64); the class registers no
    attribute. *)
Inductive Setter :=
| CallSetSionnaHelper
| CallSetCaching (caching : bool)
| CallSetOptimize (optimize : bool).

Definition apply_setter (s : Setter) (c : SionnaPropagationCache)
  : SionnaPropagationCache :=
  match s with
  | CallSetSionnaHelper => SetSionnaHelper c
  | CallSetCaching caching => SetCaching caching c
  | CallSetOptimize optimize => SetOptimize optimize c
  end.

Definition configure (l : list Setter) (c : SionnaPropagationCache)
  : SionnaPropagationCache :=
  fold_left (fun acc s => apply_setter s acc) l c.

(** The scenario with the cache as constructed (fast path on), helper set. *)
Module Optimized.

Definition start : World :=
  Scenario.world Scenario.oracle
    (SetSionnaHelper
       (SionnaPropagationCache_new Scenario.friis Scenario.const_speed))
    50.

End Optimized.

(** The outcome of an accessor that projects a field out of the entry a
    query returns. *)
Definition project {A : Type} (f : CacheEntry -> A) (o : Outcome CacheEntry)
  : Outcome A :=
  match o with
  | Ok ce w => Ok (f ce) w
  | Fatal k msg => Fatal k msg
  end.

(** The scenario with an oracle that answers every request with a response
    that holds no record, and one whose acknowledgments carry an error. *)
Module Faulty.

Definition silent_oracle (log : list Wrapper) : option Wrapper :=
  Some (channel_state_response []).

Definition silent : World :=
  Scenario.world silent_oracle Scenario.fresh_cache 50.

Definition failing_oracle (log : list Wrapper) : option Wrapper :=
  Some (sim_ack false "scene not found").

Definition failing : World :=
  Scenario.world failing_oracle Scenario.fresh_cache 50.

End Faulty.

(** The reply the peer gives once [msg] has been sent. *)
Definition reply_after (msg : Wrapper) (w : World) : option Wrapper :=
  peer (socket w) (sent (socket w) ++ [msg]).

(** Every entry of the store sits in the bucket of the key of its own
    recorded pair. *)
Definition filed_by_key (m : gmap CacheKey (list CacheEntry)) : Prop :=
  ∀ k e, e ∈ bucket k m → mkCacheKey (m_a e) (m_b e) = k.

(** Everything in the world that is configuration rather than state of the
    store, of the request log or of the mobility objects. *)
Definition settings (w : World) :=
  (Now w, global_nodes w, rng_seed w, indeterminate w,
   (m_zmq_url (helper w), m_environment (helper w), m_helper_mode (helper w),
    m_sub_mode (helper w), m_frequency (helper w), m_channel_bw (helper w),
    m_min_coherence_time_ms (helper w), m_fft_size (helper w),
    m_subcarrier_spacing (helper w), m_time_evo_model (helper w),
    m_noiseDbm (helper w)),
   (peer (socket w), closed (socket w)),
   (m_sionnaHelper (pcache w), m_caching (pcache w), m_optimize (pcache w),
    m_optimize_margin (pcache w), m_friisLossModel (pcache w),
    m_constSpeedDelayModel (pcache w))).

(** [SionnaPropagationCache::GetStats] (sionna-propagation-cache.cc, lines
    174-179): the hit ratio, computed on the two [double] counters. *)
Definition GetStats (c : SionnaPropagationCache) : float :=
  let ratio := (m_cache_hits c / (m_cache_hits c + m_cache_miss c))%float in
  ratio.

(** The scenario with node 1 walking until it meets a wall and node 2
    walking for a second at a time, and the scenario with a walk that
    cannot be described. *)
Module Walkers.

Definition walker (mode : Mode) (distance : float) (id : NodeId)
  : MobilityModel :=
  mkMobilityModel
    (Sionna (mkSionnaMobilityModel MODEL_RANDOM_WALK
               (mkVector 4%float 2%float 1%float) mode distance 1000000000 true
               (ConstantRandomVariable 1%float)
               (UniformRandomVariable 0%float 6.25%float)))
    (Some id).

Definition start : World :=
  set_mobility
    (<[1%nat := walker MODE_WALL 1%float 1%N]>
       (<[2%nat := walker MODE_TIME 1%float 2%N]> (mobility Scenario.start)))
    Scenario.start.

(** The same with node 0 left without mobility model. *)
Definition two_walkers : World :=
  set_mobility (delete 0%nat (mobility start)) start.

(** Node 1 walks in distance mode, with the distance zero. *)
Definition stuck : World :=
  set_mobility
    (<[1%nat := walker MODE_DISTANCE 0%float 1%N]> (mobility Scenario.start))
    Scenario.start.

End Walkers.

(** The scenario with two endpoints that are not [SionnaMobilityModel]s,
    200 m apart, and the cache as constructed (fast path on), helper set. *)
Module Foreign.

Definition start : World :=
  mkWorld 50
    (<[0%nat := mkMobilityModel (OtherMobility (mkVector 0 0 0)) (Some 0%N)]>
       (<[2%nat := mkMobilityModel (OtherMobility (mkVector 200 0 0)) (Some 2%N)]>
          ∅))
    [mkNode 0%N (Some 0%nat); mkNode 2%N (Some 2%nat)]
    1
    (mkIndeterminate nan 7 5%N 6%N)
    (Scenario.the_helper Scenario.oracle)
    (SetSionnaHelper
       (SionnaPropagationCache_new Scenario.friis Scenario.const_speed)).

End Foreign.

(** The positions lines 96-104 write: first the one for [a], then the one
    for [b]. *)
Definition written_positions (id_a : NodeId) (ce : CacheEntry) : Vector * Vector :=
  if (id_a =? m_a ce)%N then (m_a_position ce, m_b_position ce)
  else (m_b_position ce, m_a_position ce).

(** ** Configuring the helper (sionna-helper.cc, lines 21-126)

    [int] values are integers; the product of two [int]s is reduced to 32
    bits in two's complement (a signed overflow is undefined in the source).
    [std::log10] belongs to the C library and is a parameter. *)

Definition int_mul (x y : Z) : Z := (x * y + 2 ^ 31) mod 2 ^ 32 - 2 ^ 31.

(** The conversion of an [int] to [double]. *)
Definition int_to_double (z : Z) : float :=
  if z <? 0 then (- PrimFloat.of_uint63 (Uint63.of_Z (- z)))%float
  else PrimFloat.of_uint63 (Uint63.of_Z z).

Definition MODE_P2P : Z := 1.
Definition MODE_P2MP : Z := 2.
Definition MODE_P2MP_LAH : Z := 3.
Definition GUARD_MULTIPLIER : Z := 3.

(** The [double] nearest to 1.3803e-23, and the one nearest to 1e-3. *)
Definition BOLTZMANN : float := 0x1.0afd253c25b32p-76%float.
Definition milliwatt : float := 0x1.0624dd2f1a9fcp-10%float.

Definition set_helper (h : SionnaHelper) (w : World) : World :=
  mkWorld (Now w) (mobility w) (global_nodes w) (rng_seed w) (indeterminate w)
          h (pcache w).

Definition SetFrequency (frequency : Z) (h : SionnaHelper) : SionnaHelper :=
  mkSionnaHelper (m_zmq_url h) (m_environment h) (m_helper_mode h)
    (m_sub_mode h) frequency (m_channel_bw h) (m_min_coherence_time_ms h)
    (m_fft_size h) (m_subcarrier_spacing h) (m_time_evo_model h)
    (m_noiseDbm h) (m_zmq_socket h).

Definition GetFrequency (h : SionnaHelper) : Z := m_frequency h.

Definition SetFFTSize (fft_size : Z) (h : SionnaHelper) : SionnaHelper :=
  mkSionnaHelper (m_zmq_url h) (m_environment h) (m_helper_mode h)
    (m_sub_mode h) (m_frequency h) (m_channel_bw h) (m_min_coherence_time_ms h)
    fft_size (m_subcarrier_spacing h) (m_time_evo_model h)
    (m_noiseDbm h) (m_zmq_socket h).

Definition SetSubcarrierSpacing (subcarrier_spacing : Z) (h : SionnaHelper)
  : SionnaHelper :=
  mkSionnaHelper (m_zmq_url h) (m_environment h) (m_helper_mode h)
    (m_sub_mode h) (m_frequency h) (m_channel_bw h) (m_min_coherence_time_ms h)
    (m_fft_size h) subcarrier_spacing (m_time_evo_model h)
    (m_noiseDbm h) (m_zmq_socket h).

Definition SetMode (mode : Z) (h : SionnaHelper) : SionnaHelper :=
  mkSionnaHelper (m_zmq_url h) (m_environment h) mode
    (m_sub_mode h) (m_frequency h) (m_channel_bw h) (m_min_coherence_time_ms h)
    (m_fft_size h) (m_subcarrier_spacing h) (m_time_evo_model h)
    (m_noiseDbm h) (m_zmq_socket h).

Definition SetSubMode (sub_mode : Z) (h : SionnaHelper) : SionnaHelper :=
  mkSionnaHelper (m_zmq_url h) (m_environment h) (m_helper_mode h)
    sub_mode (m_frequency h) (m_channel_bw h) (m_min_coherence_time_ms h)
    (m_fft_size h) (m_subcarrier_spacing h) (m_time_evo_model h)
    (m_noiseDbm h) (m_zmq_socket h).

Definition set_min_coherence_time_ms (t : Z) (h : SionnaHelper) : SionnaHelper :=
  mkSionnaHelper (m_zmq_url h) (m_environment h) (m_helper_mode h)
    (m_sub_mode h) (m_frequency h) (m_channel_bw h) t
    (m_fft_size h) (m_subcarrier_spacing h) (m_time_evo_model h)
    (m_noiseDbm h) (m_zmq_socket h).

Section NoiseFloor.
Variable log10 : float -> float.

(** [SetChannelBandwidth] (lines 55-71): the bandwidth and the noise floor
    derived from it. *)
Definition SetChannelBandwidth (channel_bw : Z) (h : SionnaHelper)
  : SionnaHelper :=
  let Nt := (BOLTZMANN * 293 * int_to_double channel_bw)%float in
  let m_noiseFigure := 5%float in
  let noiseFloor := (m_noiseFigure * Nt)%float in
  let noise := noiseFloor in
  mkSionnaHelper (m_zmq_url h) (m_environment h) (m_helper_mode h)
    (m_sub_mode h) (m_frequency h) channel_bw (m_min_coherence_time_ms h)
    (m_fft_size h) (m_subcarrier_spacing h) (m_time_evo_model h)
    (10 * log10 (noise / milliwatt))%float (m_zmq_socket h).

(** The constructor (lines 21-37).  The bandwidth and the noise floor are
    assigned by [SetChannelBandwidth]; what the two fields hold before is
    never read. *)
Definition SionnaHelper_new (environment zmq_url : string)
    (oracle : list Wrapper -> option Wrapper) : SionnaHelper :=
  let h := mkSionnaHelper zmq_url environment MODE_P2MP_LAH 1 5210 0 100000
             0 0 "position" 0%float (mkSocket [] oracle false) in
  let h := SetChannelBandwidth (int_mul 80 3) h in
  let h := SetFFTSize (int_mul 1024 3) h in
  SetSubcarrierSpacing 78125 h.

(** [Configure] with four arguments (lines 104-120). *)
Definition Configure (frequency channel_bw fft_size ofdm_subcarrier_spacing : Z)
  : M unit :=
  NS_ASSERT_MSG (frequency >=? 0) "Center frequency must be positive" ;;;
  NS_ASSERT_MSG ((channel_bw >=? 0) && (channel_bw <=? 10000))
    "Channel bandwidth must be between 0 and 10000 MHz" ;;;
  NS_ASSERT_MSG (fft_size >=? 0) "FFT size must be positive" ;;;
  NS_ASSERT_MSG (ofdm_subcarrier_spacing >=? 0)
    "OFDM subcarrier spacing must be positive" ;;;
  modify (fun w => set_helper (SetFrequency frequency (helper w)) w) ;;;
  modify (fun w =>
    set_helper
      (SetChannelBandwidth (int_mul channel_bw GUARD_MULTIPLIER) (helper w)) w) ;;;
  modify (fun w =>
    set_helper (SetFFTSize (int_mul fft_size GUARD_MULTIPLIER) (helper w)) w) ;;;
  modify (fun w =>
    set_helper (SetSubcarrierSpacing ofdm_subcarrier_spacing (helper w)) w).

(** [Configure] with five arguments (lines 97-102). *)
Definition Configure_coherence
    (frequency channel_bw fft_size ofdm_subcarrier_spacing
     min_coherence_time_ms : Z) : M unit :=
  modify (fun w =>
    set_helper (set_min_coherence_time_ms min_coherence_time_ms (helper w)) w) ;;;
  Configure frequency channel_bw fft_size ofdm_subcarrier_spacing.

End NoiseFloor.

(** ** What the information message says about a node *)

(** The mobility object of a node of the global container, if any. *)
Definition node_model (w : World) (n : Node) : option MobilityModel :=
  node_mobility n ≫= fun p => mobility w !! p.

Definition rvs_supported (r : RandomVariableStream) : bool :=
  match r with OtherRandomVariable _ => false | _ => true end.

(** A mobility model the information message can describe. *)
Definition describable (s : SionnaMobilityModel) : bool :=
  match m_model s with
  | MODEL_CONSTANT_POSITION => true
  | MODEL_RANDOM_WALK =>
      match m_mode s with
      | MODE_TIME => m_modeTime s >? 0
      | MODE_DISTANCE => (0 <? m_modeDistance s)%float
      | MODE_WALL => true
      end && rvs_supported (m_speed s) && rvs_supported (m_direction s)
  end.

Definition node_ok (w : World) (n : Node) : bool :=
  match node_model w n with
  | None => true
  | Some mm =>
      match kind mm with
      | Sionna s => describable s
      | OtherMobility _ => false
      end
  end.

Definition rvs_describes (r : RandomVariableStream) (m : RandomVariableStreamMsg)
  : Prop :=
  match r, m with
  | UniformRandomVariable mn mx, MsgUniform mn' mx' => mn' = mn ∧ mx' = mx
  | ConstantRandomVariable c, MsgConstant c' => c' = c
  | NormalRandomVariable mu var, MsgNormal mu' var' => mu' = mu ∧ var' = var
  | _, _ => False
  end.

(** The descriptor [m] says what the model [s] is. *)
Definition describes (s : SionnaMobilityModel) (m : NodeModelMsg) : Prop :=
  match m with
  | constant_position_model p =>
      m_model s = MODEL_CONSTANT_POSITION ∧ p = m_position s
  | random_walk_model p cond sp dir =>
      m_model s = MODEL_RANDOM_WALK ∧ p = m_position s ∧
      rvs_describes (m_speed s) sp ∧ rvs_describes (m_direction s) dir ∧
      match cond with
      | wall_value b => m_mode s = MODE_WALL ∧ b = m_modeWall s
      | time_value t => m_mode s = MODE_TIME ∧ t = m_modeTime s ∧ 0 < t
      | distance_value d =>
          m_mode s = MODE_DISTANCE ∧ d = m_modeDistance s ∧
          (0 <? d)%float = true
      end
  end.

(** The entry [ni] of the roster is the entry of the node [n]. *)
Definition roster_entry (w : World) (n : Node) (ni : NodeInfo) : Prop :=
  ni_id ni = GetId n ∧
  ∃ mm s, node_model w n = Some mm ∧ kind mm = Sionna s ∧
          describes s (ni_model ni).

(** A computation reads only an observation of the world when it changes
    nothing and its outcome is the same in any two worlds that agree on the
    observation. *)
Definition reads_only {X A : Type} (obs : World -> X) (c : M A) : Prop :=
  ∀ w1 w2, obs w1 = obs w2 →
    match c w1, c w2 with
    | Ok v1 w1', Ok v2 w2' => v1 = v2 ∧ w1' = w1 ∧ w2' = w2
    | Fatal k1 m1, Fatal k2 m2 => k1 = k2 ∧ m1 = m2
    | _, _ => False
    end.

(** The helper's parameters [Configure] does not assign, with its socket. *)
Definition untouched_by_Configure (h : SionnaHelper) :=
  (m_zmq_url h, m_environment h, m_helper_mode h, m_sub_mode h,
   m_min_coherence_time_ms h, m_time_evo_model h, m_zmq_socket h).

(** A stand-in for [std::log10] in examples. *)
Definition log10_stand_in (x : float) : float := (x - 1)%float.

(** ** The memory representation of a [double]

    [CFRTag] stores and moves [double]s and never computes with them;
    [TagBuffer] copies the eight bytes of a [double] as they lie in memory.
    A [double] of the tag is therefore carried as its object
    representation: the 64-bit pattern (sign, exponent and fraction from
    the top) read as an unsigned integer.  Every value keeps its exact
    bits this way, the sign and the payload of a NaN included. *)
Definition is_double (v : Z) : Prop := 0 <= v < 2 ^ 64.

(** Little-endian bytes of an integer, and back. *)
Fixpoint le_bytes (n : nat) (z : Z) : list Z :=
  match n with
  | O => []
  | S n => z mod 256 :: le_bytes n (z / 256)
  end.

Fixpoint le_value (bs : list Z) : Z :=
  match bs with
  | [] => 0
  | b :: bs => b + 256 * le_value bs
  end.

(** ** ns-3's [TagBuffer]

    The buffer handed to [Tag::Serialize] and [Tag::Deserialize]: a region
    of bytes with a cursor.  [tb_before] are the bytes from the start of the
    region to the cursor, [tb_after] the bytes from the cursor to its end.
    Every access is of one byte through [WriteU8] or [ReadU8], which assert
    that the cursor has not reached the end ([None]).  [WriteU32] writes the
    least significant byte first; [WriteDouble] copies the eight bytes of
    the value as it lies in memory (on a little-endian host), and
    [ReadDouble] copies them back. *)
Record TagBuffer := mkTagBuffer {
  tb_before : list Z;
  tb_after : list Z
}.

Definition WriteU8 (v : Z) (i : TagBuffer) : option TagBuffer :=
  match tb_after i with
  | [] => None
  | _ :: rest => Some (mkTagBuffer (tb_before i ++ [v]) rest)
  end.

Definition ReadU8 (i : TagBuffer) : option (Z * TagBuffer) :=
  match tb_after i with
  | [] => None
  | v :: rest => Some (v, mkTagBuffer (tb_before i ++ [v]) rest)
  end.

Fixpoint write_bytes (bs : list Z) (i : TagBuffer) : option TagBuffer :=
  match bs with
  | [] => Some i
  | b :: bs => WriteU8 b i ≫= write_bytes bs
  end.

Fixpoint read_bytes (n : nat) (i : TagBuffer) : option (list Z * TagBuffer) :=
  match n with
  | O => Some ([], i)
  | S n =>
      '(b, i) ← ReadU8 i;
      '(bs, i) ← read_bytes n i;
      Some (b :: bs, i)
  end.

Definition WriteU32 (data : Z) (i : TagBuffer) : option TagBuffer :=
  write_bytes (le_bytes 4 data) i.

Definition ReadU32 (i : TagBuffer) : option (Z * TagBuffer) :=
  '(bs, i) ← read_bytes 4 i; Some (le_value bs, i).

Definition WriteDouble (v : Z) (i : TagBuffer) : option TagBuffer :=
  write_bytes (le_bytes 8 v) i.

Definition ReadDouble (i : TagBuffer) : option (Z * TagBuffer) :=
  '(bs, i) ← read_bytes 8 i; Some (le_value bs, i).

(** ** CFRTag (cfr-tag.h, cfr-tag.cc)

    A [std::complex<double>] is the pair of its real and imaginary part,
    each a [double] in its object representation. *)
Record CFRTag := mkCFRTag {
  m_complexes : list (Z * Z);
  m_pathloss : Z
}.

(** Every [double] of the tag is one: a pattern of 64 bits. *)
Definition CFRTag_wf (t : CFRTag) : Prop :=
  Forall (fun c => is_double (fst c) ∧ is_double (snd c)) (m_complexes t) ∧
  is_double (m_pathloss t).

Definition SetComplexes (complexes : list (Z * Z)) (t : CFRTag) : CFRTag :=
  mkCFRTag complexes (m_pathloss t).
Definition GetComplexes (t : CFRTag) : list (Z * Z) := m_complexes t.
Definition SetPathloss (pathloss : Z) (t : CFRTag) : CFRTag :=
  mkCFRTag (m_complexes t) pathloss.
Definition GetPathloss (t : CFRTag) : Z := m_pathloss t.

(** Conversion to [uint32_t]. *)
Definition to_uint32 (z : Z) : Z := z mod 2 ^ 32.

(** The loop of lines 86-89. *)
Fixpoint write_complexes (cs : list (Z * Z)) (i : TagBuffer)
  : option TagBuffer :=
  match cs with
  | [] => Some i
  | c :: cs =>
      i ← WriteDouble (fst c) i;
      i ← WriteDouble (snd c) i;
      write_complexes cs i
  end.

(** [CFRTag::Serialize] (lines 80-93). *)
Definition Serialize (t : CFRTag) (i : TagBuffer) : option TagBuffer :=
  i ← WriteU32 (to_uint32 (Z.of_nat (length (m_complexes t)))) i;
  i ← write_complexes (m_complexes t) i;
  WriteDouble (m_pathloss t) i.

(** The loop of lines 103-107, from index [j] for [n] more rounds. *)
Fixpoint read_complexes (n j : nat) (cs : list (Z * Z)) (i : TagBuffer)
  : option (list (Z * Z) * TagBuffer) :=
  match n with
  | O => Some (cs, i)
  | S n =>
      '(real, i) ← ReadDouble i;
      '(imag, i) ← ReadDouble i;
      read_complexes n (S j) (<[j := (real, imag)]> cs) i
  end.

(** [CFRTag::Deserialize] (lines 95-109).  [resize] keeps the first [size]
    elements and pads with value-initialised complex numbers, whose two
    parts are the [double] zero: all bits clear. *)
Definition Deserialize (t : CFRTag) (i : TagBuffer) : option (CFRTag * TagBuffer) :=
  '(size, i) ← ReadU32 i;
  let cs := resize (Z.to_nat size) (0, 0) (m_complexes t) in
  '(cs, i) ← read_complexes (Z.to_nat size) 0 cs i;
  '(pathloss, i) ← ReadDouble i;
  Some (mkCFRTag cs pathloss, i).

(** [CFRTag::GetSerializedSize] (lines 111-116), in [uint32_t] arithmetic. *)
Definition GetSerializedSize (t : CFRTag) : Z :=
  to_uint32
    (to_uint32 (4 + to_uint32 (to_uint32 (Z.of_nat (length (m_complexes t))) * 16))
     + 8).

(** The bytes of a tag, as [Serialize] lays them out. *)
Definition complex_bytes (c : Z * Z) : list Z :=
  le_bytes 8 (fst c) ++ le_bytes 8 (snd c).

Definition CFRTag_bytes (t : CFRTag) : list Z :=
  le_bytes 4 (to_uint32 (Z.of_nat (length (m_complexes t)))) ++
  (m_complexes t ≫= complex_bytes) ++
  le_bytes 8 (m_pathloss t).

(** The complex numbers that [n] rounds of the reading loop find in [bs]. *)
Fixpoint decode_complexes (n : nat) (bs : list Z) : list (Z * Z) :=
  match n with
  | O => []
  | S n =>
      (le_value (take 8 bs), le_value (take 8 (drop 8 bs)))
      :: decode_complexes n (drop 16 bs)
  end.

(** A tag and two buffers for the examples.  The tag holds 1.5 - 2 i and
    0 + NaN i, the NaN with its sign bit set and the payload 1, and the
    path loss 80.25; the stale tag holds three times 3 + 3 i and the path
    loss 1. *)
Definition example_tag : CFRTag :=
  mkCFRTag [(0x3FF8000000000000, 0xC000000000000000);
            (0, 0xFFF8000000000001)]
           0x4054100000000000.

Definition stale_tag : CFRTag :=
  mkCFRTag (replicate 3 (0x4008000000000000, 0x4008000000000000))
           0x3FF0000000000000.

Definition example_buffer (room : nat) : TagBuffer :=
  mkTagBuffer [7; 7] (replicate room 255).

(** The buffer with its cursor moved back by [n] bytes. *)
Definition rewind (n : nat) (i : TagBuffer) : TagBuffer :=
  let k := (length (tb_before i) - n)%nat in
  mkTagBuffer (take k (tb_before i)) (drop k (tb_before i) ++ tb_after i).

(** The world after one more message has been sent, and after the socket
    has been closed. *)
Definition after_send (msg : Wrapper) (w : World) : World :=
  set_socket
    (mkSocket (sent (socket w) ++ [msg]) (peer (socket w)) (closed (socket w))) w.

Definition after_close (w : World) : World :=
  set_socket (mkSocket (sent (socket w)) (peer (socket w)) true) w.

(** What a session exchange has no business with: the cache with its store
    and counters, the mobility objects, the clock, the nodes, and every
    parameter of the helper. *)
Definition beside_the_socket (w : World) :=
  (pcache w, mobility w, Now w, global_nodes w, rng_seed w, indeterminate w,
   (m_zmq_url (helper w), m_environment (helper w), m_helper_mode (helper w),
    m_sub_mode (helper w), m_frequency (helper w), m_channel_bw (helper w),
    m_min_coherence_time_ms (helper w), m_fft_size (helper w),
    m_subcarrier_spacing (helper w), m_time_evo_model (helper w),
    m_noiseDbm (helper w)),
   peer (socket w)).

(** ** Trace contexts (sionna-utils.h, lines 41-46)

    A [std::string] is the list of its characters.  The three library
    functions that [ContextToNodeId] calls are given by what the C++
    standard says of them; they throw, which nothing in the code catches. *)
Inductive Thrown := std_out_of_range | std_invalid_argument.

Definition npos : Z := 2 ^ 64 - 1.
Definition INT_MAX : Z := 2 ^ 31 - 1.
Definition INT_MIN : Z := - 2 ^ 31.

(** [s.substr (pos, count)]: the characters from [pos], at most [count] of
    them; [pos] beyond the end is an error. *)
Definition substr (pos count : Z) (s : list ascii) : Thrown + list ascii :=
  if Z.of_nat (length s) <? pos then inl std_out_of_range
  else
    let rcount := Z.min count (Z.of_nat (length s) - pos) in
    inr (take (Z.to_nat rcount) (drop (Z.to_nat pos) s)).

(** [s.find (str)]: the index of the first occurrence of [str] in [s], or
    [npos].  [i] is the index of the first character of [s]. *)
Fixpoint find_from (str s : list ascii) (i : Z) : Z :=
  if bool_decide (str `prefix_of` s) then i
  else
    match s with
    | [] => npos
    | _ :: s' => find_from str s' (i + 1)
    end.

Definition find (str s : list ascii) : Z := find_from str s 0.

Definition char_code (c : ascii) : Z := Z.of_N (N_of_ascii c).

Definition isspace (c : ascii) : bool :=
  (char_code c =? 32) || ((9 <=? char_code c) && (char_code c <=? 13)).

Definition isdigit (c : ascii) : bool :=
  (48 <=? char_code c) && (char_code c <=? 57).

Fixpoint skip_spaces (s : list ascii) : list ascii :=
  match s with
  | c :: s' => if isspace c then skip_spaces s' else s
  | [] => []
  end.

Fixpoint read_digits (acc : Z) (s : list ascii) : Z :=
  match s with
  | c :: s' => if isdigit c then read_digits (10 * acc + (char_code c - 48)) s' else acc
  | [] => acc
  end.

(** [std::stoi (s)]: leading white space, an optional sign, then as many
    decimal digits as there are; no digit at all, or a value that is not an
    [int], is an error.  What follows the digits is ignored. *)
Definition stoi (s : list ascii) : Thrown + Z :=
  let s := skip_spaces s in
  let signed :=
    match s with
    | c :: s' =>
        if char_code c =? 45 then (true, s')
        else if char_code c =? 43 then (false, s')
        else (false, s)
    | [] => (false, s)
    end in
  match snd signed with
  | c :: _ =>
      if isdigit c then
        let v := read_digits 0 (snd signed) in
        let v := if fst signed then - v else v in
        if (INT_MIN <=? v) && (v <=? INT_MAX) then inr v
        else inl std_out_of_range
      else inl std_invalid_argument
  | [] => inl std_invalid_argument
  end.

Definition Device : list ascii := String.list_ascii_of_string "/Device".

(** [ContextToNodeId] (lines 41-46).  [pos] is a [uint32_t], the result of
    [std::stoi] is converted to one. *)
Definition ContextToNodeId (context : list ascii) : Thrown + Z :=
  match substr 10 npos context with
  | inl e => inl e
  | inr sub =>
      let pos := to_uint32 (find Device sub) in
      match substr 0 pos sub with
      | inl e => inl e
      | inr number =>
          match stoi number with
          | inl e => inl e
          | inr v => inr (to_uint32 v)
          end
      end
  end.

(** The number that a string of decimal digits denotes. *)
Definition decimal (digits : list ascii) : Z :=
  foldl (fun acc c => 10 * acc + (char_code c - 48)) 0 digits.

(** The string does not begin with a decimal digit. *)
Definition no_digit_ahead (s : list ascii) : Prop :=
  match s with
  | c :: _ => isdigit c = false
  | [] => True
  end.

(** * Properties *)

(** Unfolds the projections and updates of the world. *)
Ltac world_simpl :=
  unfold socket, cache, set_cache, set_cache_hits, set_cache_miss,
    set_pcache, set_socket, set_mobility in *;
  cbn in *.

(** ** Keys *)

Lemma mkCacheKey_sym (x y : N) : mkCacheKey x y = mkCacheKey y x.
Proof.
  unfold mkCacheKey.
  destruct (N.ltb_spec x y), (N.ltb_spec y x); try reflexivity; try lia.
  assert (x = y) by lia. subst. reflexivity.
Qed.

Lemma mkCacheKey_min_max (x y : N) :
  m_first (mkCacheKey x y) = N.min x y ∧ m_second (mkCacheKey x y) = N.max x y.
Proof.
  unfold mkCacheKey. destruct (N.ltb_spec x y); simpl; lia.
Qed.

(** Two keys that [operator<] cannot tell apart are the same key, so the
    buckets of the [std::map] are the buckets of the [gmap]. *)
Lemma CacheKey_lt_equiv (k o : CacheKey) :
  CacheKey_lt k o = false ∧ CacheKey_lt o k = false ↔ k = o.
Proof.
  destruct k as [k1 k2], o as [o1 o2]. unfold CacheKey_lt. simpl. split.
  - intros [H1 H2].
    destruct (N.eqb_spec k1 o1), (N.eqb_spec o1 k1); simpl in *;
      try apply N.ltb_ge in H1; try apply N.ltb_ge in H2;
      f_equal; lia.
  - intros [= -> ->]. rewrite N.eqb_refl. simpl. rewrite N.ltb_irrefl. done.
Qed.

(** ** Sweeping and scanning a bucket *)

Lemma is_live_spec (now : Time) (e : CacheEntry) :
  is_live now e = true ↔ m_start_time e <= now <= m_end_time e.
Proof. unfold is_live. rewrite andb_true_iff, Z.geb_le, Z.leb_le. lia. Qed.

Lemma is_live_false (now : Time) (e : CacheEntry) :
  is_live now e = false ↔ ¬ (m_start_time e <= now <= m_end_time e).
Proof. rewrite <- is_live_spec. destruct (is_live now e); naive_solver. Qed.

Lemma elem_of_erase_outdated (now : Time) (v : list CacheEntry) (e : CacheEntry) :
  e ∈ erase_outdated now v ↔ e ∈ v ∧ now <= m_end_time e.
Proof.
  induction v as [|x v IH]; simpl.
  - split; [intros H | intros [H _]]; by apply elem_of_nil in H.
  - destruct (Z.ltb_spec (m_end_time x) now);
      rewrite ?elem_of_cons, IH; intuition (subst; try lia; auto).
Qed.

Lemma erase_outdated_filter (now : Time) (v : list CacheEntry) :
  erase_outdated now v = filter (fun e => now <= m_end_time e) v.
Proof.
  induction v as [|x v IH]; simpl; [done|].
  destruct (Z.ltb_spec (m_end_time x) now).
  - rewrite filter_cons_False by lia. done.
  - rewrite filter_cons_True by lia. by rewrite IH.
Qed.

Lemma find_live_erase_outdated (now : Time) (v : list CacheEntry) :
  find_live now (erase_outdated now v) = find_live now v.
Proof.
  induction v as [|x v IH]; simpl; [done|].
  destruct (Z.ltb_spec (m_end_time x) now) as [Hlt|Hge]; simpl.
  - assert (is_live now x = false) as -> by (apply is_live_false; lia). done.
  - by rewrite IH.
Qed.

Lemma find_live_Some (now : Time) (v : list CacheEntry) (e : CacheEntry) :
  find_live now v = Some e → e ∈ v ∧ m_start_time e <= now <= m_end_time e.
Proof.
  induction v as [|x v IH]; simpl; [done|].
  destruct (is_live now x) eqn:Hx.
  - intros [= <-]. split; [left | by apply is_live_spec].
  - intros H. destruct (IH H). split; [by right | done].
Qed.

Lemma find_live_None (now : Time) (v : list CacheEntry) :
  find_live now v = None ↔
  ∀ e, e ∈ v → ¬ (m_start_time e <= now <= m_end_time e).
Proof.
  induction v as [|x v IH]; simpl.
  - split; [|done]. intros _ e He. by apply elem_of_nil in He.
  - destruct (is_live now x) eqn:Hx.
    + split; [done|]. intros H. exfalso.
      apply (H x); [left | by apply is_live_spec].
    + rewrite IH. apply is_live_false in Hx. split.
      * intros H e [->|He]%elem_of_cons; auto.
      * intros H e He. apply H. by right.
Qed.

Lemma find_live_is_Some (now : Time) (v : list CacheEntry) (e : CacheEntry) :
  e ∈ v → m_start_time e <= now <= m_end_time e → is_Some (find_live now v).
Proof.
  intros He Hl. destruct (find_live now v) eqn:Hf; [done|].
  exfalso. eapply find_live_None; eauto.
Qed.

Lemma find_live_app_l (now : Time) (v v' : list CacheEntry) (e : CacheEntry) :
  find_live now v = Some e → find_live now (v ++ v') = Some e.
Proof.
  induction v as [|x v IH]; simpl; [done|].
  destruct (is_live now x); auto.
Qed.

(** ** Ingestion *)

Lemma ingest_rx_nodes_push_all (c : CSI) (m : gmap CacheKey (list CacheEntry)) :
  ingest_rx_nodes c m = push_all (records_of c) m.
Proof.
  unfold ingest_rx_nodes, push_all, records_of.
  generalize (rx_nodes c) m. intros l. induction l as [|rx l IH]; intros m'; simpl; auto.
Qed.

Lemma push_all_app (l l' : list (CacheKey * CacheEntry))
    (m : gmap CacheKey (list CacheEntry)) :
  push_all (l ++ l') m = push_all l' (push_all l m).
Proof. unfold push_all. apply fold_left_app. Qed.

Lemma ingest_push_all (csi : list CSI) (m : gmap CacheKey (list CacheEntry)) :
  ingest csi m = push_all (records csi) m.
Proof.
  unfold ingest, records. revert m.
  induction csi as [|c csi IH]; intros m; simpl; [done|].
  rewrite push_all_app, <- ingest_rx_nodes_push_all. apply IH.
Qed.

Lemma bucket_push_back_entry (k k' : CacheKey) (e : CacheEntry)
    (m : gmap CacheKey (list CacheEntry)) :
  bucket k (push_back_entry k' e m) =
  bucket k m ++ (if decide (k' = k) then [e] else []).
Proof.
  unfold bucket, push_back_entry.
  destruct (m !! k') as [v|] eqn:Hk'; destruct (decide (k' = k)) as [->|Hne].
  - rewrite lookup_insert_eq, Hk'. done.
  - rewrite lookup_insert_ne by done. by rewrite app_nil_r.
  - rewrite lookup_insert_eq, Hk'. done.
  - rewrite lookup_insert_ne by done. by rewrite app_nil_r.
Qed.

Lemma bucket_push_all (k : CacheKey) (l : list (CacheKey * CacheEntry))
    (m : gmap CacheKey (list CacheEntry)) :
  bucket k (push_all l m) = bucket k m ++ filed_under k l.
Proof.
  revert m. induction l as [|[k' e] l IH]; intros m; simpl.
  - unfold filed_under. simpl. by rewrite app_nil_r.
  - unfold push_all in *. simpl. rewrite IH, bucket_push_back_entry.
    rewrite <- app_assoc. f_equal. unfold filed_under.
    destruct (decide (k' = k)) as [->|Hne].
    + rewrite filter_cons_True by done. done.
    + rewrite filter_cons_False by done. done.
Qed.

(** Ingestion only appends: every bucket keeps its entries, in order, and
    receives the records filed under its key, in the order of the reply. *)
Lemma bucket_ingest (k : CacheKey) (csi : list CSI)
    (m : gmap CacheKey (list CacheEntry)) :
  bucket k (ingest csi m) = bucket k m ++ filed_under k (records csi).
Proof. rewrite ingest_push_all. apply bucket_push_all. Qed.

Lemma elem_of_records (csi : list CSI) (c : CSI) (rx : RxNode) :
  c ∈ csi → rx ∈ rx_nodes c →
  (mkCacheKey (tx_id (tx_node c)) (rx_id rx), make_entry c rx) ∈ records csi.
Proof.
  intros Hc Hrx. unfold records. apply list_elem_of_In, in_flat_map.
  exists c. split; [by apply list_elem_of_In|].
  unfold records_of. apply list_elem_of_In.
  apply (list_elem_of_fmap_2 (fun rx => (mkCacheKey (tx_id (tx_node c)) (rx_id rx), make_entry c rx))).
  done.
Qed.

Lemma elem_of_filed_under (k : CacheKey) (e : CacheEntry)
    (l : list (CacheKey * CacheEntry)) :
  e ∈ filed_under k l ↔ (k, e) ∈ l.
Proof.
  unfold filed_under. rewrite list_elem_of_fmap. split.
  - intros [[k' e'] [-> [Hk Hin]%list_elem_of_filter]]. simpl in *. by subst.
  - intros Hin. exists (k, e). split; [done|]. by apply list_elem_of_filter.
Qed.

Lemma lookup_push_all_Some (k : CacheKey) (l : list (CacheKey * CacheEntry))
    (m : gmap CacheKey (list CacheEntry)) :
  is_Some (m !! k) ∨ filed_under k l ≠ [] → 
  push_all l m !! k = Some (bucket k m ++ filed_under k l).
Proof.
  revert m. induction l as [|[k' e] l IH]; intros m H.
  - simpl. unfold filed_under in *. simpl in *. rewrite app_nil_r.
    destruct H as [[v Hv]|H]; [|done]. unfold bucket. by rewrite Hv.
  - unfold push_all in *. simpl. rewrite IH.
    + rewrite bucket_push_back_entry, <- app_assoc. f_equal.
      unfold filed_under. destruct (decide (k' = k)) as [->|Hne].
      * by rewrite filter_cons_True.
      * by rewrite filter_cons_False.
    + unfold push_back_entry. destruct (decide (k' = k)) as [->|Hne].
      * left. destruct (m !! k); rewrite lookup_insert_eq; eauto.
      * destruct H as [H|H].
        -- left. destruct (m !! k'); by rewrite lookup_insert_ne.
        -- right. unfold filed_under in *.
           by rewrite filter_cons_False in H.
Qed.

Lemma lookup_push_all_None (k : CacheKey) (l : list (CacheKey * CacheEntry))
    (m : gmap CacheKey (list CacheEntry)) :
  m !! k = None → filed_under k l = [] → push_all l m !! k = None.
Proof.
  revert m. induction l as [|[k' e] l IH]; intros m Hm Hl; [done|].
  unfold push_all in *. simpl. unfold filed_under in Hl.
  destruct (decide (k' = k)) as [->|Hne].
  - by rewrite filter_cons_True in Hl.
  - rewrite filter_cons_False in Hl by done. apply IH; [|done].
    unfold push_back_entry. destruct (m !! k'); by rewrite lookup_insert_ne.
Qed.

(** ** Running [GetPropagationData] *)

Lemma endpoints_sym (w : World) (a b : Ptr) (x y : NodeId) :
  endpoints w a b = Some (x, y) → endpoints w b a = Some (y, x).
Proof.
  unfold endpoints. destruct (m_sionnaHelper (pcache w)); [|done].
  destruct (DynamicCast_SionnaMobilityModel (mobility w !! a)),
           (DynamicCast_SionnaMobilityModel (mobility w !! b)),
           (GetObject_Node (mobility w !! a)),
           (GetObject_Node (mobility w !! b)); congruence.
Qed.

Lemma GetPropagationData_ready (w : World) (a b : Ptr) (id_a id_b : NodeId) :
  endpoints w a b = Some (id_a, id_b) →
  GetPropagationData a b w =
  (let* hit :=
     (if m_caching (pcache w)
      then cache_lookup (mkCacheKey id_a id_b) (Now w) else ret None) in
   match hit with
   | Some c_entry => ret c_entry
   | None => cache_refill id_a id_b (Now w)
   end) w.
Proof.
  unfold endpoints, GetPropagationData, bind, gets, NS_ASSERT_MSG, ret.
  cbv beta.
  destruct (m_sionnaHelper (pcache w)); [|done].
  destruct (DynamicCast_SionnaMobilityModel (mobility w !! a)); [|done].
  destruct (DynamicCast_SionnaMobilityModel (mobility w !! b)); [|done].
  cbn.
  destruct (GetObject_Node (mobility w !! a)); [|done].
  destruct (GetObject_Node (mobility w !! b)); [|done].
  intros [= -> ->]. reflexivity.
Qed.

Lemma GetPropagationData_not_ready (w : World) (a b : Ptr) :
  endpoints w a b = None →
  ∃ msg, GetPropagationData a b w = Fatal AssertFailed msg.
Proof.
  unfold endpoints, GetPropagationData, bind, gets, NS_ASSERT_MSG, ret, fail.
  cbv beta.
  destruct (m_sionnaHelper (pcache w)); [|eauto].
  destruct (DynamicCast_SionnaMobilityModel (mobility w !! a));
    destruct (DynamicCast_SionnaMobilityModel (mobility w !! b));
    cbn; eauto.
  destruct (GetObject_Node (mobility w !! a));
    destruct (GetObject_Node (mobility w !! b)); cbn; eauto. done.
Qed.

Lemma cache_lookup_eq (key : CacheKey) (w : World) :
  cache_lookup key (Now w) w =
  match bucket key (cache (swept key w)) with
  | v => match find_live (Now w) v with
         | Some c_entry =>
             Ok (Some c_entry)
                (set_cache_hits (m_cache_hits (pcache w) + 1)%float
                   (swept key w))
         | None => Ok None (swept key w)
         end
  end.
Proof.
  unfold cache_lookup, swept, bucket, bind, gets, modify, ret. simpl.
  destruct (cache w !! key) as [v|] eqn:Hk; simpl.
  - unfold cache at 2. simpl. rewrite lookup_insert_eq. simpl.
    destruct (find_live (Now w) (erase_outdated (Now w) v)); reflexivity.
  - rewrite Hk. reflexivity.
Qed.

Lemma bucket_swept (key k : CacheKey) (w : World) :
  bucket k (cache (swept key w)) =
  if decide (key = k) then erase_outdated (Now w) (bucket k (cache w))
  else bucket k (cache w).
Proof.
  unfold swept, bucket. destruct (decide (key = k)) as [->|Hne].
  - destruct (cache w !! k) as [v|] eqn:Hk.
    + unfold cache at 1. simpl. by rewrite lookup_insert_eq.
    + by rewrite Hk.
  - destruct (cache w !! key) as [v|] eqn:Hk; [|done].
    unfold cache at 1. simpl. by rewrite lookup_insert_ne.
Qed.

Lemma cache_refill_response (id_a id_b : NodeId) (csi : list CSI) (w : World) :
  reply_to id_a id_b w = Some (channel_state_response csi) →
  cache_refill id_a id_b (Now w) w =
  Ok (rescan id_a id_b (refilled id_a id_b csi w)) (refilled id_a id_b csi w).
Proof.
  unfold reply_to, request, cache_refill, bind, modify, zmq_send, zmq_recv,
    gets, ret, rescan, refilled, requested, request.
  world_simpl. intros ->.
  destruct (_ ≫= find_live (Now w)); reflexivity.
Qed.

Lemma cache_refill_no_response (id_a id_b : NodeId) (w : World) :
  (∀ csi, reply_to id_a id_b w ≠ Some (channel_state_response csi)) →
  ∃ msg, cache_refill id_a id_b (Now w) w = Fatal AssertFailed msg.
Proof.
  unfold reply_to, request, cache_refill, bind, modify, zmq_send, zmq_recv,
    gets, ret, fail.
  world_simpl. intros H.
  destruct (peer _ _) as [[]|]; eauto. by destruct (H csi).
Qed.

(** The observable effects of a sweep and of a request. *)
Lemma swept_frame (key : CacheKey) (w : World) :
  Now (swept key w) = Now w ∧ mobility (swept key w) = mobility w ∧
  socket (swept key w) = socket w ∧ indeterminate (swept key w) = indeterminate w ∧
  m_cache_hits (pcache (swept key w)) = m_cache_hits (pcache w) ∧
  m_cache_miss (pcache (swept key w)) = m_cache_miss (pcache w) ∧
  m_caching (pcache (swept key w)) = m_caching (pcache w).
Proof. unfold swept. destruct (cache w !! key); world_simpl; done. Qed.

Lemma reply_to_swept (key : CacheKey) (id_a id_b : NodeId) (w : World) :
  reply_to id_a id_b (swept key w) = reply_to id_a id_b w.
Proof.
  unfold reply_to, request.
  destruct (swept_frame key w) as (-> & _ & -> & _). done.
Qed.

Lemma GetPropagationData_hit (w : World) (a b : Ptr) (id_a id_b : NodeId)
    (e : CacheEntry) :
  endpoints w a b = Some (id_a, id_b) →
  m_caching (pcache w) = true →
  find_live (Now w) (bucket (mkCacheKey id_a id_b) (cache w)) = Some e →
  GetPropagationData a b w =
  Ok e (set_cache_hits (m_cache_hits (pcache w) + 1)%float
          (swept (mkCacheKey id_a id_b) w)).
Proof.
  intros Hr Hc Hf. rewrite (GetPropagationData_ready _ _ _ _ _ Hr), Hc.
  unfold bind. rewrite cache_lookup_eq, bucket_swept.
  rewrite decide_True by done. rewrite find_live_erase_outdated, Hf. done.
Qed.

Lemma GetPropagationData_miss (w : World) (a b : Ptr) (id_a id_b : NodeId) :
  endpoints w a b = Some (id_a, id_b) →
  (m_caching (pcache w) = true →
   find_live (Now w) (bucket (mkCacheKey id_a id_b) (cache w)) = None) →
  GetPropagationData a b w =
  cache_refill id_a id_b (Now w) (lookup_world id_a id_b w).
Proof.
  intros Hr Hf. rewrite (GetPropagationData_ready _ _ _ _ _ Hr).
  unfold bind, lookup_world. destruct (m_caching (pcache w)); [|done].
  rewrite cache_lookup_eq, bucket_swept.
  rewrite decide_True by done. rewrite find_live_erase_outdated, Hf; done.
Qed.

Lemma lookup_world_frame (id_a id_b : NodeId) (w : World) :
  Now (lookup_world id_a id_b w) = Now w ∧
  mobility (lookup_world id_a id_b w) = mobility w ∧
  socket (lookup_world id_a id_b w) = socket w ∧
  indeterminate (lookup_world id_a id_b w) = indeterminate w ∧
  m_cache_hits (pcache (lookup_world id_a id_b w)) = m_cache_hits (pcache w) ∧
  m_cache_miss (pcache (lookup_world id_a id_b w)) = m_cache_miss (pcache w) ∧
  m_caching (pcache (lookup_world id_a id_b w)) = m_caching (pcache w).
Proof.
  unfold lookup_world. destruct (m_caching (pcache w)) eqn:E.
  - destruct (swept_frame (mkCacheKey id_a id_b) w)
      as (? & ? & ? & ? & ? & ? & H7).
    rewrite E in H7. done.
  - done.
Qed.

Lemma reply_to_lookup_world (id_a id_b x y : NodeId) (w : World) :
  reply_to x y (lookup_world id_a id_b w) = reply_to x y w.
Proof.
  unfold lookup_world. destruct (m_caching (pcache w)); [|done].
  apply reply_to_swept.
Qed.

Lemma refilled_frame (id_a id_b : NodeId) (csi : list CSI) (w : World) :
  Now (refilled id_a id_b csi w) = Now w ∧
  mobility (refilled id_a id_b csi w) = mobility w ∧
  indeterminate (refilled id_a id_b csi w) = indeterminate w ∧
  sent (socket (refilled id_a id_b csi w)) =
    sent (socket w) ++ [request id_a id_b w] ∧
  m_cache_hits (pcache (refilled id_a id_b csi w)) = m_cache_hits (pcache w) ∧
  m_cache_miss (pcache (refilled id_a id_b csi w)) =
    (m_cache_miss (pcache w) + 1)%float ∧
  cache (refilled id_a id_b csi w) = ingest csi (cache w).
Proof. unfold refilled, requested. world_simpl. done. Qed.

Lemma GetPropagationData_miss_response (w : World) (a b : Ptr)
    (id_a id_b : NodeId) (csi : list CSI) :
  endpoints w a b = Some (id_a, id_b) →
  (m_caching (pcache w) = true →
   find_live (Now w) (bucket (mkCacheKey id_a id_b) (cache w)) = None) →
  reply_to id_a id_b w = Some (channel_state_response csi) →
  let w' := refilled id_a id_b csi (lookup_world id_a id_b w) in
  GetPropagationData a b w = Ok (rescan id_a id_b w') w'.
Proof.
  intros Hr Hf Hrep. simpl.
  rewrite (GetPropagationData_miss _ _ _ _ _ Hr Hf).
  destruct (lookup_world_frame id_a id_b w) as (Hn & _).
  rewrite <- Hn. apply cache_refill_response.
  by rewrite reply_to_lookup_world.
Qed.

Lemma GetPropagationData_miss_no_response (w : World) (a b : Ptr)
    (id_a id_b : NodeId) :
  endpoints w a b = Some (id_a, id_b) →
  (m_caching (pcache w) = true →
   find_live (Now w) (bucket (mkCacheKey id_a id_b) (cache w)) = None) →
  (∀ csi, reply_to id_a id_b w ≠ Some (channel_state_response csi)) →
  ∃ msg, GetPropagationData a b w = Fatal AssertFailed msg.
Proof.
  intros Hr Hf Hrep.
  rewrite (GetPropagationData_miss _ _ _ _ _ Hr Hf).
  destruct (lookup_world_frame id_a id_b w) as (Hn & _).
  rewrite <- Hn. apply cache_refill_no_response.
  intros csi. by rewrite reply_to_lookup_world.
Qed.

(** The entry the final scan returns is fresh, or is the default-constructed
    entry of line 351. *)
Lemma rescan_served (id_a id_b : NodeId) (w : World) :
  m_start_time (rescan id_a id_b w) <= Now w <= m_end_time (rescan id_a id_b w) ∨
  rescan id_a id_b w = CacheEntry_default (indeterminate w).
Proof.
  unfold rescan.
  destruct (_ ≫= find_live (Now w)) as [e1|] eqn:Hs; [left|by right].
  destruct (cache _ !! _) as [v|]; [|done]. simpl in Hs.
  by apply find_live_Some in Hs as [_ Hs].
Qed.

(** Every entry a query returns is fresh at the time of the query, or is
    the default-constructed entry. *)
Lemma GetPropagationData_served (w : World) (a b : Ptr) (e : CacheEntry)
    (w' : World) :
  GetPropagationData a b w = Ok e w' →
  m_start_time e <= Now w <= m_end_time e ∨
  e = CacheEntry_default (indeterminate w).
Proof.
  intros H. destruct (endpoints w a b) as [[id_a id_b]|] eqn:Hr.
  2:{ destruct (GetPropagationData_not_ready _ _ _ Hr) as [msg Hm]. congruence. }
  destruct (decide (m_caching (pcache w) = true ∧
      is_Some (find_live (Now w) (bucket (mkCacheKey id_a id_b) (cache w)))))
    as [[Hc [e0 Hf]]|Hmiss].
  - rewrite (GetPropagationData_hit _ _ _ _ _ e0 Hr Hc Hf) in H.
    injection H as <- <-. left. by apply find_live_Some in Hf as [_ Hf].
  - assert (m_caching (pcache w) = true →
      find_live (Now w) (bucket (mkCacheKey id_a id_b) (cache w)) = None) as Hf.
    { intros Hc. destruct (find_live _ _) eqn:E; [|done].
      destruct Hmiss. eauto. }
    destruct (reply_to id_a id_b w) as [r|] eqn:Hrep.
    2:{ destruct (GetPropagationData_miss_no_response _ _ _ _ _ Hr Hf) as [msg Hm];
        [intros ?; congruence | congruence]. }
    destruct r.
    all: try (destruct (GetPropagationData_miss_no_response _ _ _ _ _ Hr Hf)
                as [msg Hm]; [intros ?; congruence | congruence]).
    rewrite (GetPropagationData_miss_response _ _ _ _ _ _ Hr Hf Hrep) in H.
    injection H as <- <-.
    destruct (lookup_world_frame id_a id_b w) as (Hn & _ & _ & Hi & _).
    destruct (refilled_frame id_a id_b csi (lookup_world id_a id_b w))
      as (Hn' & _ & Hi' & _).
    rewrite <- Hn, <- Hn', <- Hi, <- Hi'. apply rescan_served.
Qed.

(** ** Validity windows *)

(** C2.  With caching enabled and a query at simulated time [now] for a pair
    whose bucket holds [v]:
    - an entry is served only if [start <= now <= end] (the only other
      value a query can return is the default-constructed entry);
    - the bucket is swept before it is scanned: the scan runs over
      [erase_outdated now v], which holds exactly the entries of [v] whose
      end is not before [now], and that swept bucket is what the store keeps;
    - if some stored entry has [start <= now <= end] the query is a hit: it
      returns such an entry, sends nothing and counts one hit;
    - if no stored entry has [start <= now <= end] the query is a miss: it
      counts one miss and sends one channel-state request, and it succeeds
      exactly when the peer answers with a channel-state response. *)
Theorem lookup_respects_validity_window (w : World) (a b : Ptr)
    (id_a id_b : NodeId) :
  endpoints w a b = Some (id_a, id_b) →
  m_caching (pcache w) = true →
  let key := mkCacheKey id_a id_b in
  let now := Now w in
  let v := bucket key (cache w) in
  (∀ e w', GetPropagationData a b w = Ok e w' →
     m_start_time e <= now <= m_end_time e ∨
     e = CacheEntry_default (indeterminate w)) ∧
  (∀ x, x ∈ erase_outdated now v ↔ x ∈ v ∧ ¬ m_end_time x < now) ∧
  ((∃ e, e ∈ v ∧ m_start_time e <= now <= m_end_time e) →
   ∃ e w', GetPropagationData a b w = Ok e w' ∧
     find_live now (erase_outdated now v) = Some e ∧
     e ∈ v ∧ m_start_time e <= now <= m_end_time e ∧
     bucket key (cache w') = erase_outdated now v ∧
     socket w' = socket w ∧
     m_cache_miss (pcache w') = m_cache_miss (pcache w) ∧
     m_cache_hits (pcache w') = (m_cache_hits (pcache w) + 1)%float) ∧
  ((∀ e, e ∈ v → ¬ (m_start_time e <= now <= m_end_time e)) →
   match reply_to id_a id_b w with
   | Some (channel_state_response csi) =>
       ∃ e w', GetPropagationData a b w = Ok e w' ∧
         sent (socket w') =
           sent (socket w) ++ [channel_state_request id_a id_b now] ∧
         m_cache_miss (pcache w') = (m_cache_miss (pcache w) + 1)%float ∧
         m_cache_hits (pcache w') = m_cache_hits (pcache w) ∧
         bucket key (cache w') =
           erase_outdated now v ++ filed_under key (records csi)
   | _ => ∃ msg, GetPropagationData a b w = Fatal AssertFailed msg
   end).
Proof.
  intros Hr Hc key now v. split; [|split; [|split]].
  - intros e w'. apply GetPropagationData_served.
  - intros x. rewrite elem_of_erase_outdated. intuition lia.
  - intros (e0 & He0 & Hl0).
    destruct (find_live_is_Some now v e0 He0 Hl0) as [e Hf].
    exists e, (set_cache_hits (m_cache_hits (pcache w) + 1)%float (swept key w)).
    destruct (find_live_Some _ _ _ Hf) as [Hin Hlive].
    destruct (swept_frame key w) as (_ & _ & Hs & _ & Hh & Hm & _).
    split; [by apply GetPropagationData_hit|].
    split; [by rewrite find_live_erase_outdated|].
    do 2 (split; [done|]).
    split.
    { change (cache (set_cache_hits (m_cache_hits (pcache w) + 1)%float (swept key w)))
        with (cache (swept key w)).
      rewrite bucket_swept. by rewrite decide_True. }
    split; [exact Hs|]. split; [exact Hm|]. reflexivity.
  - intros Hnone. apply find_live_None in Hnone.
    destruct (reply_to id_a id_b w) as [r|] eqn:Hrep.
    2:{ apply (GetPropagationData_miss_no_response _ _ _ _ _ Hr (fun _ => Hnone)).
        intros ?; congruence. }
    destruct r.
    all: try (apply (GetPropagationData_miss_no_response _ _ _ _ _ Hr (fun _ => Hnone));
              intros ?; congruence).
    eexists _, _.
    split; [exact (GetPropagationData_miss_response _ _ _ _ _ _ Hr (fun _ => Hnone) Hrep)|].
    destruct (lookup_world_frame id_a id_b w) as (Hn & _ & Hs & _ & Hh & Hm & _).
    destruct (refilled_frame id_a id_b csi (lookup_world id_a id_b w))
      as (_ & _ & _ & Hs' & Hh' & Hm' & Hc').
    rewrite Hs', Hh', Hm', Hc', Hs, Hh, Hm. unfold request. rewrite Hn.
    do 3 (split; [done|]).
    rewrite bucket_ingest. unfold lookup_world. rewrite Hc.
    rewrite bucket_swept. by rewrite decide_True.
Qed.

Lemma lookup_respects_validity_window_witness :
  (∃ e w',
     bucket (mkCacheKey 0 1) (cache Warm.at_150) =
       [make_entry Scenario.window1 Scenario.rx1; e] ∧
     GetPropagationData 0%nat 1%nat Warm.at_150 = Ok e w' ∧
     (m_start_time e, m_end_time e) = (101, 200) ∧
     m_start_time e <= Now Warm.at_150 <= m_end_time e ∧
     ¬ (make_entry Scenario.window1 Scenario.rx1
          ∈ erase_outdated 150 (bucket (mkCacheKey 0 1) (cache Warm.at_150))) ∧
     bucket (mkCacheKey 0 1) (cache w') = [e] ∧
     socket w' = socket Warm.at_150 ∧
     m_cache_hits (pcache w') = (m_cache_hits (pcache Warm.at_150) + 1)%float) ∧
  (∃ e w', GetPropagationData 0%nat 1%nat Scenario.start = Ok e w' ∧
     sent (socket w') = [channel_state_request 0 1 50] ∧
     m_cache_miss (pcache w') = 1%float).
Proof.
  split.
  - destruct (lookup_respects_validity_window Warm.at_150 0%nat 1%nat 0%N 1%N
                eq_refl eq_refl) as (Hserved & Hsweep & Hhit & _).
    destruct Hhit as (e & w' & H & Hf & _ & Hlive & Hb & Hs & _ & Hh).
    { exists (make_entry Scenario.window2 Scenario.rx1). split.
      - vm_compute. right. left.
      - vm_compute. split; discriminate. }
    assert (e = make_entry Scenario.window2 Scenario.rx1) as He.
    { vm_compute in Hf. injection Hf as <-. reflexivity. }
    exists e, w'. split; [rewrite He; reflexivity|]. split; [exact H|].
    split; [rewrite He; reflexivity|]. split.
    { destruct (Hserved e w' H) as [Hw|Hdef]; [exact Hw|].
      rewrite He in Hdef. vm_compute in Hdef. discriminate Hdef. }
    split.
    { intros Hin. apply Hsweep in Hin as [_ Hend]. apply Hend.
      vm_compute. reflexivity. }
    split; [rewrite Hb, He; reflexivity|]. split; [exact Hs|exact Hh].
  - destruct (lookup_respects_validity_window Scenario.start 0%nat 1%nat 0%N 1%N
                eq_refl eq_refl) as (_ & _ & _ & Hmiss).
    assert (reply_to 0%N 1%N Scenario.start =
            Some (channel_state_response [Scenario.window1; Scenario.window2]))
      as Hrep by reflexivity.
    rewrite Hrep in Hmiss.
    destruct Hmiss as (e & w' & H & Hs & Hm & _).
    { intros e He. exfalso. vm_compute in He. by apply elem_of_nil in He. }
    exists e, w'. split; [exact H|]. split; [exact Hs | exact Hm].
Defined.

(** ** Reciprocity *)

Lemma lookup_ingest_Some (k : CacheKey) (csi : list CSI)
    (m : gmap CacheKey (list CacheEntry)) (v : list CacheEntry) :
  m !! k = Some v →
  ingest csi m !! k = Some (v ++ filed_under k (records csi)).
Proof.
  intros Hk. rewrite ingest_push_all, lookup_push_all_Some by eauto.
  unfold bucket. by rewrite Hk.
Qed.

(** While a fresh entry is stored for a pair, every successful query for
    the pair returns the first fresh entry of the bucket: with caching off
    the records of the reply are appended behind it. *)
Lemma GetPropagationData_first_live (w : World) (a b : Ptr) (x y : NodeId)
    (e0 e : CacheEntry) (w' : World) :
  endpoints w a b = Some (x, y) →
  find_live (Now w) (bucket (mkCacheKey x y) (cache w)) = Some e0 →
  GetPropagationData a b w = Ok e w' → e = e0.
Proof.
  intros Hr Hf H. destruct (m_caching (pcache w)) eqn:Hc.
  - rewrite (GetPropagationData_hit _ _ _ _ _ e0 Hr Hc Hf) in H. congruence.
  - assert (m_caching (pcache w) = true →
      find_live (Now w) (bucket (mkCacheKey x y) (cache w)) = None) as Hn
      by congruence.
    destruct (reply_to x y w) as [r|] eqn:Hrep.
    2:{ destruct (GetPropagationData_miss_no_response _ _ _ _ _ Hr Hn) as [msg Hm];
        [intros ?; congruence | congruence]. }
    destruct r.
    all: try (destruct (GetPropagationData_miss_no_response _ _ _ _ _ Hr Hn)
                as [msg Hm]; [intros ?; congruence | congruence]).
    rewrite (GetPropagationData_miss_response _ _ _ _ _ _ Hr Hn Hrep) in H.
    injection H as <- _. unfold rescan.
    destruct (refilled_frame x y csi (lookup_world x y w)) as (-> & _ & _ & _ & _ & _ & ->).
    unfold lookup_world. rewrite Hc.
    unfold bucket in Hf. destruct (cache w !! mkCacheKey x y) as [v|] eqn:Hk;
      [|done]. simpl in Hf.
    rewrite (lookup_ingest_Some _ _ _ _ Hk). simpl.
    by rewrite (find_live_app_l _ _ _ _ Hf).
Qed.

(** C3.  The key built from (x, y) is the key built from (y, x), with the
    smaller identifier first; an insertion for either orientation goes to
    the same bucket; and while one fresh entry is stored for the pair, the
    queries for (a, b) and for (b, a) return the same entry, hence the same
    delay and the same loss. *)
Theorem reciprocal_queries_share_one_bucket :
  (∀ x y : N, x ≠ y →
     mkCacheKey x y = mkCacheKey y x ∧
     m_first (mkCacheKey x y) = N.min x y ∧
     m_second (mkCacheKey x y) = N.max x y) ∧
  (∀ (x y : N) (e : CacheEntry) (m : gmap CacheKey (list CacheEntry)),
     push_back_entry (mkCacheKey x y) e m = push_back_entry (mkCacheKey y x) e m ∧
     bucket (mkCacheKey x y) m = bucket (mkCacheKey y x) m) ∧
  (∀ (w : World) (a b : Ptr) (x y : NodeId) (e1 : CacheEntry),
     endpoints w a b = Some (x, y) →
     e1 ∈ bucket (mkCacheKey x y) (cache w) →
     m_start_time e1 <= Now w <= m_end_time e1 →
     ∃ e0, e0 ∈ bucket (mkCacheKey x y) (cache w) ∧
       m_start_time e0 <= Now w <= m_end_time e0 ∧
       (∀ e w', GetPropagationData a b w = Ok e w' → e = e0) ∧
       (∀ e w', GetPropagationData b a w = Ok e w' → e = e0) ∧
       (m_caching (pcache w) = true →
        ∃ w1 w2,
          GetPropagationData a b w = Ok e0 w1 ∧
          GetPropagationData b a w = Ok e0 w2 ∧
          GetPropagationLoss a b w = Ok (m_loss e0) w1 ∧
          GetPropagationLoss b a w = Ok (m_loss e0) w2 ∧
          (m_optimize (pcache w) = false →
           GetPropagationDelay a b w = Ok (m_delay e0) w1 ∧
           GetPropagationDelay b a w = Ok (m_delay e0) w2))).
Proof.
  split; [|split].
  - intros x y _. split; [apply mkCacheKey_sym | apply mkCacheKey_min_max].
  - intros x y e m. by rewrite (mkCacheKey_sym x y).
  - intros w a b x y e1 Hr Hin Hlive.
    destruct (find_live_is_Some _ _ _ Hin Hlive) as [e0 Hf].
    pose proof (endpoints_sym _ _ _ _ _ Hr) as Hr'.
    exists e0. destruct (find_live_Some _ _ _ Hf) as [Hin0 Hlive0].
    do 2 (split; [done|]).
    split; [intros e w'; by apply (GetPropagationData_first_live w a b x y)|].
    split.
    { intros e w'. apply (GetPropagationData_first_live w b a y x); [done|].
      by rewrite (mkCacheKey_sym y x). }
    intros Hc.
    pose proof (GetPropagationData_hit _ _ _ _ _ e0 Hr Hc Hf) as H1.
    assert (find_live (Now w) (bucket (mkCacheKey y x) (cache w)) = Some e0)
      as Hf' by by rewrite (mkCacheKey_sym y x).
    pose proof (GetPropagationData_hit _ _ _ _ _ e0 Hr' Hc Hf') as H2.
    eexists _, _. split; [exact H1|]. split; [exact H2|].
    unfold GetPropagationLoss, GetPropagationDelay, delay_fast_path, bind,
      gets, ret.
    rewrite H1, H2. do 2 (split; [reflexivity|]).
    intros ->. cbv beta iota. rewrite H1, H2. split; reflexivity.
Qed.

Lemma reciprocal_queries_share_one_bucket_witness :
  ∃ e0 w1 w2,
    GetPropagationData 0%nat 1%nat Warm.at_60 = Ok e0 w1 ∧
    GetPropagationData 1%nat 0%nat Warm.at_60 = Ok e0 w2 ∧
    m_loss e0 = 60%float ∧ m_delay e0 = 35.
Proof.
  destruct reciprocal_queries_share_one_bucket as (_ & _ & H).
  destruct (H Warm.at_60 0%nat 1%nat 0%N 1%N
              (make_entry Scenario.window1 Scenario.rx1))
    as (e0 & Hin & Hlive & Hab & Hba & Hc).
  - reflexivity.
  - vm_compute. left.
  - vm_compute. split; discriminate.
  - destruct (Hc eq_refl) as (w1 & w2 & H1 & H2 & _).
    exists e0, w1, w2. split; [exact H1|]. split; [exact H2|].
    assert (e0 = make_entry Scenario.window1 Scenario.rx1) as ->.
    { symmetry. eapply Hab. vm_compute. reflexivity. }
    split; reflexivity.
Defined.

(** ** Look-ahead fan-out *)

(** Inversion of a successful query: it was a hit on the swept bucket, or a
    miss answered by a channel-state response. *)
Lemma GetPropagationData_inv (w : World) (a b : Ptr) (e : CacheEntry)
    (w' : World) :
  GetPropagationData a b w = Ok e w' →
  ∃ id_a id_b,
    endpoints w a b = Some (id_a, id_b) ∧
    ((m_caching (pcache w) = true ∧
      find_live (Now w) (bucket (mkCacheKey id_a id_b) (cache w)) = Some e ∧
      w' = set_cache_hits (m_cache_hits (pcache w) + 1)%float
             (swept (mkCacheKey id_a id_b) w)) ∨
     ((m_caching (pcache w) = true →
       find_live (Now w) (bucket (mkCacheKey id_a id_b) (cache w)) = None) ∧
      ∃ csi,
        reply_to id_a id_b w = Some (channel_state_response csi) ∧
        w' = refilled id_a id_b csi (lookup_world id_a id_b w) ∧
        e = rescan id_a id_b w')).
Proof.
  intros H. destruct (endpoints w a b) as [[id_a id_b]|] eqn:Hr.
  2:{ destruct (GetPropagationData_not_ready _ _ _ Hr) as [msg Hm]. congruence. }
  exists id_a, id_b. split; [done|].
  destruct (decide (m_caching (pcache w) = true ∧
      is_Some (find_live (Now w) (bucket (mkCacheKey id_a id_b) (cache w)))))
    as [[Hc [e0 Hf]]|Hmiss].
  - left. rewrite (GetPropagationData_hit _ _ _ _ _ e0 Hr Hc Hf) in H.
    injection H as <- <-. done.
  - right.
    assert (m_caching (pcache w) = true →
      find_live (Now w) (bucket (mkCacheKey id_a id_b) (cache w)) = None) as Hf.
    { intros Hc. destruct (find_live _ _) eqn:E; [|done].
      destruct Hmiss. eauto. }
    split; [done|].
    destruct (reply_to id_a id_b w) as [r|] eqn:Hrep.
    2:{ destruct (GetPropagationData_miss_no_response _ _ _ _ _ Hr Hf) as [msg Hm];
        [intros ?; congruence | congruence]. }
    destruct r.
    all: try (destruct (GetPropagationData_miss_no_response _ _ _ _ _ Hr Hf)
                as [msg Hm]; [intros ?; congruence | congruence]).
    rewrite (GetPropagationData_miss_response _ _ _ _ _ _ Hr Hf Hrep) in H.
    injection H as <- <-. eauto.
Qed.

Lemma bucket_lookup_world (id_a id_b : NodeId) (k : CacheKey) (w : World)
    (x : CacheEntry) :
  Now w <= m_end_time x →
  x ∈ bucket k (cache w) → x ∈ bucket k (cache (lookup_world id_a id_b w)).
Proof.
  intros Hx Hin. unfold lookup_world.
  destruct (m_caching (pcache w)); [|done].
  rewrite bucket_swept. case_decide; [|done].
  by apply elem_of_erase_outdated.
Qed.

(** A query never removes an entry whose window has not ended. *)
Lemma GetPropagationData_keeps_current (w : World) (a b : Ptr)
    (e : CacheEntry) (w' : World) (k : CacheKey) (x : CacheEntry) :
  GetPropagationData a b w = Ok e w' →
  Now w <= m_end_time x →
  x ∈ bucket k (cache w) → x ∈ bucket k (cache w').
Proof.
  intros H Hx Hin.
  destruct (GetPropagationData_inv _ _ _ _ _ H)
    as (id_a & id_b & Hr & [(Hc & Hf & ->)|(Hf & csi & Hrep & -> & _)]).
  - change (cache (set_cache_hits (m_cache_hits (pcache w) + 1)%float
                     (swept (mkCacheKey id_a id_b) w)))
      with (cache (swept (mkCacheKey id_a id_b) w)).
    rewrite bucket_swept. case_decide; [|done].
    by apply elem_of_erase_outdated.
  - destruct (refilled_frame id_a id_b csi (lookup_world id_a id_b w))
      as (_ & _ & _ & _ & _ & _ & ->).
    rewrite bucket_ingest. apply elem_of_app. left.
    by apply bucket_lookup_world.
Qed.

(** C4.  Every record of a response is filed in the bucket of the key of
    its own (tx, rx) pair, whichever window and receiver it is for; a miss
    stores all of them; later queries keep the record in its bucket as long
    as its window has not ended; and a query for the pair of the record, in
    either orientation, at a time inside its window is a hit: it returns a
    fresh entry, sends nothing and counts no miss. *)
Theorem response_fans_out_into_buckets (csi : list CSI) (c : CSI) (rx : RxNode) :
  c ∈ csi → rx ∈ rx_nodes c →
  let tx := tx_id (tx_node c) in
  let key := mkCacheKey tx (rx_id rx) in
  let entry := make_entry c rx in
  (∀ m, entry ∈ bucket key (ingest csi m)) ∧
  (∀ w a b id_a id_b,
     endpoints w a b = Some (id_a, id_b) →
     (m_caching (pcache w) = true →
      find_live (Now w) (bucket (mkCacheKey id_a id_b) (cache w)) = None) →
     reply_to id_a id_b w = Some (channel_state_response csi) →
     ∃ e w', GetPropagationData a b w = Ok e w' ∧
       cache w' = ingest csi (cache (lookup_world id_a id_b w)) ∧
       entry ∈ bucket key (cache w')) ∧
  (∀ w a b e w',
     GetPropagationData a b w = Ok e w' →
     Now w <= end_time c →
     entry ∈ bucket key (cache w) → entry ∈ bucket key (cache w')) ∧
  (∀ w a b,
     m_caching (pcache w) = true →
     endpoints w a b = Some (tx, rx_id rx) ∨
     endpoints w a b = Some (rx_id rx, tx) →
     entry ∈ bucket key (cache w) →
     start_time c <= Now w <= end_time c →
     ∃ e w', GetPropagationData a b w = Ok e w' ∧
       m_start_time e <= Now w <= m_end_time e ∧
       socket w' = socket w ∧
       m_cache_miss (pcache w') = m_cache_miss (pcache w) ∧
       m_cache_hits (pcache w') = (m_cache_hits (pcache w) + 1)%float).
Proof.
  intros Hc Hrx tx key entry.
  assert (∀ m, entry ∈ bucket key (ingest csi m)) as Hfiled.
  { intros m. rewrite bucket_ingest. apply elem_of_app. right.
    apply elem_of_filed_under. by apply elem_of_records. }
  split; [exact Hfiled|]. split; [|split].
  - intros w a b id_a id_b Hr Hf Hrep. eexists _, _.
    split; [exact (GetPropagationData_miss_response _ _ _ _ _ _ Hr Hf Hrep)|].
    destruct (refilled_frame id_a id_b csi (lookup_world id_a id_b w))
      as (_ & _ & _ & _ & _ & _ & ->).
    split; [done | apply Hfiled].
  - intros w a b e w' H Hnow. by apply (GetPropagationData_keeps_current w a b e w').
  - intros w a b Hcache Hr Hin Hnow.
    assert (∃ id_a id_b, endpoints w a b = Some (id_a, id_b) ∧
                         mkCacheKey id_a id_b = key) as (id_a & id_b & Hr' & Hk).
    { destruct Hr as [Hr|Hr]; eexists _, _; (split; [exact Hr|]);
        [done | apply mkCacheKey_sym]. }
    destruct (find_live_is_Some (Now w) _ entry Hin Hnow) as [e Hf].
    rewrite <- Hk in Hf.
    exists e, (set_cache_hits (m_cache_hits (pcache w) + 1)%float
                 (swept (mkCacheKey id_a id_b) w)).
    split; [by apply GetPropagationData_hit|].
    destruct (find_live_Some _ _ _ Hf) as [_ Hlive].
    destruct (swept_frame (mkCacheKey id_a id_b) w) as (_ & _ & Hs & _ & Hh & Hm & _).
    split; [done|]. split; [exact Hs|]. split; [exact Hm|]. reflexivity.
Qed.

Lemma response_fans_out_into_buckets_witness :
  ∃ e w', GetPropagationData 2%nat 0%nat Warm.at_150 = Ok e w' ∧
    m_start_time e <= 150 <= m_end_time e ∧
    socket w' = socket Warm.at_150 ∧
    m_cache_miss (pcache w') = 1%float ∧
    m_cache_hits (pcache w') = 1%float.
Proof.
  destruct (response_fans_out_into_buckets
              [Scenario.window1; Scenario.window2] Scenario.window2 Scenario.rx2)
    as (_ & _ & _ & Hhit).
  - right. left.
  - right. left.
  - apply (Hhit Warm.at_150 2%nat 0%nat).
    + reflexivity.
    + right. reflexivity.
    + vm_compute. right. left.
    + vm_compute. split; discriminate.
Defined.

(** ** Caching switched off *)

Lemma stored_entries_insert (k : CacheKey) (v : list CacheEntry)
    (m : gmap CacheKey (list CacheEntry)) :
  stored_entries (<[k := v]> m) =
  (length v + stored_entries (delete k m))%nat.
Proof.
  unfold stored_entries. rewrite <- insert_delete_eq.
  rewrite map_fold_insert_L; [done | intros; lia | apply lookup_delete_eq].
Qed.

Lemma stored_entries_lookup (k : CacheKey) (m : gmap CacheKey (list CacheEntry)) :
  stored_entries m = (length (bucket k m) + stored_entries (delete k m))%nat.
Proof.
  unfold stored_entries, bucket. destruct (m !! k) as [v|] eqn:Hk; simpl.
  - rewrite (map_fold_delete_L _ _ k v m); [done | intros; lia | done].
  - by rewrite delete_id.
Qed.

Lemma stored_entries_push_back_entry (k : CacheKey) (e : CacheEntry)
    (m : gmap CacheKey (list CacheEntry)) :
  stored_entries (push_back_entry k e m) = S (stored_entries m).
Proof.
  rewrite (stored_entries_lookup k m). unfold push_back_entry, bucket.
  destruct (m !! k) as [v|]; rewrite stored_entries_insert; simpl;
    rewrite ?length_app; simpl; lia.
Qed.

Lemma stored_entries_push_all (l : list (CacheKey * CacheEntry))
    (m : gmap CacheKey (list CacheEntry)) :
  stored_entries (push_all l m) = (stored_entries m + length l)%nat.
Proof.
  revert m. induction l as [|[k e] l IH]; intros m; simpl; [lia|].
  unfold push_all in *. simpl. rewrite IH, stored_entries_push_back_entry. lia.
Qed.

(** C10.  With caching off a query whose endpoints pass the assertions does
    not look at the store first and sweeps nothing: it counts one miss and
    sends one request whatever the store holds.  When the peer answers with
    a channel-state response, every record of the response is appended to
    the store as it was, the answer is the result of scanning that store,
    and the store has grown by the number of records. *)
Theorem caching_off_still_fills_the_store (w : World) (a b : Ptr)
    (id_a id_b : NodeId) :
  endpoints w a b = Some (id_a, id_b) →
  m_caching (pcache w) = false →
  match reply_to id_a id_b w with
  | Some (channel_state_response csi) =>
      ∃ e w', GetPropagationData a b w = Ok e w' ∧
        sent (socket w') =
          sent (socket w) ++ [channel_state_request id_a id_b (Now w)] ∧
        m_cache_miss (pcache w') = (m_cache_miss (pcache w) + 1)%float ∧
        m_cache_hits (pcache w') = m_cache_hits (pcache w) ∧
        cache w' = ingest csi (cache w) ∧
        (∀ k, bucket k (cache w') =
              bucket k (cache w) ++ filed_under k (records csi)) ∧
        stored_entries (cache w') =
          (stored_entries (cache w) + length (records csi))%nat ∧
        e = rescan id_a id_b w' ∧
        m_caching (pcache w') = false
  | _ => ∃ msg, GetPropagationData a b w = Fatal AssertFailed msg
  end.
Proof.
  intros Hr Hc.
  assert (m_caching (pcache w) = true →
    find_live (Now w) (bucket (mkCacheKey id_a id_b) (cache w)) = None) as Hf
    by congruence.
  destruct (reply_to id_a id_b w) as [r|] eqn:Hrep.
  2:{ apply (GetPropagationData_miss_no_response _ _ _ _ _ Hr Hf).
      intros ?; congruence. }
  destruct r.
  all: try (apply (GetPropagationData_miss_no_response _ _ _ _ _ Hr Hf);
            intros ?; congruence).
  eexists _, _.
  split; [exact (GetPropagationData_miss_response _ _ _ _ _ _ Hr Hf Hrep)|].
  assert (lookup_world id_a id_b w = w) as ->
    by (unfold lookup_world; by rewrite Hc).
  destruct (refilled_frame id_a id_b csi w)
    as (_ & _ & _ & Hs & Hh & Hm & Hcache).
  rewrite Hs, Hh, Hm, Hcache.
  do 4 (split; [done|]).
  split; [intros k; apply bucket_ingest|].
  split; [by rewrite ingest_push_all, stored_entries_push_all|].
  split; [done|]. exact Hc.
Qed.

Lemma caching_off_still_fills_the_store_witness :
  find_live 60 (bucket (mkCacheKey 0 1) (cache Uncached.at_60)) =
    Some (make_entry Scenario.window1 Scenario.rx1) ∧
  ∃ e w', GetPropagationData 0%nat 1%nat Uncached.at_60 = Ok e w' ∧
    m_cache_miss (pcache w') = 2%float ∧
    stored_entries (cache Uncached.at_60) = 4%nat ∧
    stored_entries (cache w') = 8%nat.
Proof.
  split; [reflexivity|].
  pose proof (caching_off_still_fills_the_store Uncached.at_60 0%nat 1%nat
                0%N 1%N eq_refl eq_refl) as H.
  assert (reply_to 0%N 1%N Uncached.at_60 =
          Some (channel_state_response [Scenario.window1; Scenario.window2]))
    as Hrep by reflexivity.
  rewrite Hrep in H.
  destruct H as (e & w' & H & _ & Hm & _ & _ & _ & Hn & _).
  exists e, w'. split; [exact H|]. split; [exact Hm|].
  split; [reflexivity | exact Hn].
Defined.

(** ** Frame properties *)

Section Preserves.
Context {X : Type} (obs : World -> X).

Lemma preserves_ret {A} (v : A) : preserves obs (ret v).
Proof. intros w v' w' [= _ <-]. done. Qed.

Lemma preserves_gets {A} (f : World -> A) : preserves obs (gets f).
Proof. intros w v' w' [= _ <-]. done. Qed.

Lemma preserves_fail {A} (k : FatalKind) (msg : string) :
  preserves obs (fail (A := A) k msg).
Proof. intros w v' w' [=]. Qed.

Lemma preserves_modify (f : World -> World) :
  (∀ w, obs (f w) = obs w) → preserves obs (modify f).
Proof. intros Hf w v' w' [= _ <-]. apply Hf. Qed.

Lemma preserves_bind {A B} (c : M A) (k : A -> M B) :
  preserves obs c → (∀ v, preserves obs (k v)) → preserves obs (bind c k).
Proof.
  intros Hc Hk w v w'. unfold bind.
  destruct (c w) as [v1 w1|] eqn:E; [|done].
  intros H. rewrite (Hk _ _ _ _ H). eapply Hc, E.
Qed.

Lemma preserves_assert (cond : bool) (msg : string) :
  preserves obs (NS_ASSERT_MSG cond msg).
Proof.
  unfold NS_ASSERT_MSG. destruct cond;
    [apply preserves_ret | apply preserves_fail].
Qed.
End Preserves.

Ltac preserves_step :=
  first
    [ apply preserves_ret | apply preserves_gets | apply preserves_fail
    | apply preserves_assert
    | apply preserves_modify; intros ?; reflexivity
    | apply preserves_bind; [|intros ?]
    | match goal with
      | |- preserves _ (match ?x with _ => _ end) => destruct x
      end ].

Lemma GetPropagationData_preserves_mobility (a b : Ptr) :
  preserves mobility (GetPropagationData a b).
Proof.
  unfold GetPropagationData, cache_lookup, cache_refill, zmq_send, zmq_recv.
  repeat preserves_step.
Qed.

Lemma mob_GetPosition_preserves {X} (obs : World -> X) (p : Ptr) :
  preserves obs (mob_GetPosition p).
Proof. unfold mob_GetPosition. repeat preserves_step. Qed.

Lemma friis_CalcRxPower_preserves {X} (obs : World -> X) (tx : float) (a b : Ptr) :
  preserves obs (friis_CalcRxPower tx a b).
Proof.
  unfold friis_CalcRxPower.
  repeat first [apply mob_GetPosition_preserves | preserves_step].
Qed.

Lemma constSpeed_GetDelay_preserves {X} (obs : World -> X) (a b : Ptr) :
  preserves obs (constSpeed_GetDelay a b).
Proof.
  unfold constSpeed_GetDelay.
  repeat first [apply mob_GetPosition_preserves | preserves_step].
Qed.

Lemma helper_GetNoiseFloor_preserves {X} (obs : World -> X) :
  preserves obs helper_GetNoiseFloor.
Proof. unfold helper_GetNoiseFloor. repeat preserves_step. Qed.

Lemma GetPropagationDelay_preserves_mobility (a b : Ptr) :
  preserves mobility (GetPropagationDelay a b).
Proof.
  unfold GetPropagationDelay, delay_fast_path.
  repeat first
    [ apply GetPropagationData_preserves_mobility
    | apply friis_CalcRxPower_preserves
    | apply constSpeed_GetDelay_preserves
    | apply helper_GetNoiseFloor_preserves
    | preserves_step ].
Qed.

Lemma endpoints_bound (w : World) (a b : Ptr) (id_a id_b : NodeId) :
  endpoints w a b = Some (id_a, id_b) →
  m_sionnaHelper (pcache w) = true ∧
  GetObject_Node (mobility w !! a) = Some id_a ∧
  GetObject_Node (mobility w !! b) = Some id_b ∧
  ∃ ma mb, mobility w !! a = Some ma ∧ mobility w !! b = Some mb.
Proof.
  unfold endpoints. destruct (m_sionnaHelper (pcache w)); [|done].
  destruct (mobility w !! a) as [ma|], (mobility w !! b) as [mb|]; simpl;
    try done.
  - destruct ma as [[] [ida|]]; destruct mb as [[] [idb|]]; simpl; try done.
    intros [= -> ->]. eauto 10.
  - destruct ma as [[] ?]; done.
Qed.

(** The fast path of the loss accessor, by cases on the test. *)
Lemma loss_fast_path_taken (w : World) (a b : Ptr) (tx : float) :
  shortcut_taken tx a b w = true →
  ∃ ma mb, mobility w !! a = Some ma ∧ mobility w !! b = Some mb ∧
    loss_fast_path a b tx w =
    Ok (Some ((-1) * (CalcRxPower (m_friisLossModel (pcache w)) tx
                        (GetPosition ma) (GetPosition mb) - tx))%float) w.
Proof.
  unfold shortcut_taken, loss_fast_path, friis_CalcRxPower, mob_GetPosition,
    helper_GetNoiseFloor, bind, gets, ret. cbv beta.
  destruct (m_optimize (pcache w)); [|done]. simpl.
  destruct (mobility w !! a) as [ma|]; [|done].
  destruct (mobility w !! b) as [mb|]; [|done].
  destruct (m_sionnaHelper (pcache w)); [|done]. cbn.
  intros ->. eauto.
Qed.

Lemma loss_fast_path_not_taken (w : World) (a b : Ptr) (tx : float)
    (id_a id_b : NodeId) :
  endpoints w a b = Some (id_a, id_b) →
  shortcut_taken tx a b w = false →
  loss_fast_path a b tx w = Ok None w.
Proof.
  intros (Hh & _ & _ & ma & mb & Ha & Hb)%endpoints_bound.
  unfold shortcut_taken, loss_fast_path, friis_CalcRxPower, mob_GetPosition,
    helper_GetNoiseFloor, bind, gets, ret. cbv beta.
  destruct (m_optimize (pcache w)); [|done]. cbn.
  rewrite Ha. cbn. rewrite Hb. cbn. rewrite Hh. cbn. intros ->. done.
Qed.

Lemma delay_fast_path_taken (w : World) (a b : Ptr) :
  shortcut_taken MAX_TXPOWER_DBM a b w = true →
  ∃ ma mb, mobility w !! a = Some ma ∧ mobility w !! b = Some mb ∧
    delay_fast_path a b w =
    Ok (Some (GetDelay (m_constSpeedDelayModel (pcache w))
                (GetPosition ma) (GetPosition mb))) w.
Proof.
  unfold shortcut_taken, delay_fast_path, friis_CalcRxPower,
    constSpeed_GetDelay, mob_GetPosition, helper_GetNoiseFloor, bind, gets, ret.
  cbv beta.
  destruct (m_optimize (pcache w)); [|done]. simpl.
  destruct (mobility w !! a) as [ma|] eqn:Ha; [|done].
  destruct (mobility w !! b) as [mb|] eqn:Hb; [|done].
  destruct (m_sionnaHelper (pcache w)); [|done]. cbn.
  intros ->. rewrite Ha, Hb. eauto.
Qed.

(** ** Position write-back *)

Lemma GetPosition_SetPosition (v : Vector) (m : MobilityModel) :
  GetPosition (SetPosition v m) = v.
Proof. destruct m as [[s|p] n]; reflexivity. Qed.

Lemma mkCacheKey_inj (x y x' y' : N) :
  mkCacheKey x y = mkCacheKey x' y' →
  (x = x' ∧ y = y') ∨ (x = y' ∧ y = x').
Proof.
  unfold mkCacheKey.
  destruct (N.ltb_spec x y), (N.ltb_spec x' y'); intros [= -> ->]; auto.
Qed.

Lemma filed_by_key_empty : filed_by_key ∅.
Proof. intros k e He. unfold bucket in He. rewrite lookup_empty in He. by apply elem_of_nil in He. Qed.

Lemma filed_by_key_ingest (csi : list CSI) (m : gmap CacheKey (list CacheEntry)) :
  filed_by_key m → filed_by_key (ingest csi m).
Proof.
  intros Hm k e. rewrite bucket_ingest, elem_of_app.
  intros [He|He]; [by apply Hm|].
  apply elem_of_filed_under in He. unfold records in He.
  apply list_elem_of_In, in_flat_map in He as (c & _ & He).
  unfold records_of in He. apply list_elem_of_In, list_elem_of_fmap in He
    as (rx & [= -> ->] & _).
  reflexivity.
Qed.

(** A query keeps the store filed by key, and the entry it returns, unless
    it is the default-constructed one, is recorded for the queried pair. *)
Lemma GetPropagationData_filed_by_key (w : World) (a b : Ptr)
    (id_a id_b : NodeId) (ce : CacheEntry) (w' : World) :
  filed_by_key (cache w) →
  endpoints w a b = Some (id_a, id_b) →
  GetPropagationData a b w = Ok ce w' →
  filed_by_key (cache w') ∧
  (mkCacheKey (m_a ce) (m_b ce) = mkCacheKey id_a id_b ∨
   ce = CacheEntry_default (indeterminate w)).
Proof.
  intros Hm Hr H.
  assert (∀ key, filed_by_key (cache (swept key w))) as Hswept.
  { intros key k e. rewrite bucket_swept. case_decide; [|by apply Hm].
    intros [He _]%elem_of_erase_outdated. by apply Hm. }
  destruct (GetPropagationData_inv _ _ _ _ _ H)
    as (x & y & Hr' & [(Hc & Hf & ->)|(Hf & csi & Hrep & -> & ->)]);
    rewrite Hr in Hr'; injection Hr' as <- <-.
  - split; [apply Hswept|]. left. apply Hm. by apply find_live_Some in Hf as [Hf _].
  - assert (filed_by_key (cache (refilled id_a id_b csi (lookup_world id_a id_b w))))
      as Hfiled.
    { destruct (refilled_frame id_a id_b csi (lookup_world id_a id_b w))
        as (_ & _ & _ & _ & _ & _ & ->).
      apply filed_by_key_ingest. unfold lookup_world.
      destruct (m_caching (pcache w)); [apply Hswept | done]. }
    split; [done|]. unfold rescan.
    destruct (lookup_world_frame id_a id_b w) as (_ & _ & _ & Hi & _).
    destruct (refilled_frame id_a id_b csi (lookup_world id_a id_b w))
      as (_ & _ & Hi' & _).
    rewrite Hi', Hi.
    destruct (cache _ !! mkCacheKey id_a id_b) as [v|] eqn:Hk; simpl; [|by right].
    destruct (find_live _ v) as [e|] eqn:Hv; [left | by right].
    apply Hfiled. unfold bucket. rewrite Hk. simpl.
    by apply find_live_Some in Hv as [Hv _].
Qed.

(** C7.  When the fast path is not taken and the query for (a, b) returns
    the entry [ce], the three-argument loss accessor returns the loss of
    [ce] and leaves the two (distinct) endpoints where [ce] says: if the tx
    identifier recorded in [ce] is the identifier of the node of [a], then
    [a] is at the tx position of [ce] and [b] at its rx position; otherwise
    [a] is at the rx position and [b] at the tx position.  No other
    mobility object is touched.  When [ce] is recorded for the queried pair
    of (distinct) nodes, this puts each endpoint at the position the oracle
    reported for its own node. *)
Theorem loss_with_tx_power_writes_back_positions (w : World) (a b : Ptr)
    (txPowerDbm : float) (id_a id_b : NodeId) (ce : CacheEntry) (w1 : World) :
  a ≠ b →
  endpoints w a b = Some (id_a, id_b) →
  shortcut_taken txPowerDbm a b w = false →
  GetPropagationData a b w = Ok ce w1 →
  ∃ w', GetPropagationLoss_tx a b txPowerDbm w = Ok (m_loss ce) w' ∧
    (id_a = m_a ce →
     position_of a w' = Some (m_a_position ce) ∧
     position_of b w' = Some (m_b_position ce)) ∧
    (id_a ≠ m_a ce →
     position_of a w' = Some (m_b_position ce) ∧
     position_of b w' = Some (m_a_position ce)) ∧
    (∀ p, p ≠ a → p ≠ b → mobility w' !! p = mobility w !! p) ∧
    pcache w' = pcache w1 ∧ helper w' = helper w1 ∧
    (id_a ≠ id_b →
     mkCacheKey (m_a ce) (m_b ce) = mkCacheKey id_a id_b →
     ∀ p id, (p = a ∧ id = id_a) ∨ (p = b ∧ id = id_b) →
       (id = m_a ce → position_of p w' = Some (m_a_position ce)) ∧
       (id = m_b ce → position_of p w' = Some (m_b_position ce))).
Proof.
  intros Hab Hr Hs H.
  pose proof (GetPropagationData_preserves_mobility a b _ _ _ H) as Hmob.
  destruct (endpoints_bound _ _ _ _ _ Hr) as (_ & Hna & _ & ma & mb & Ha & Hb).
  unfold GetPropagationLoss_tx, bind.
  rewrite (loss_fast_path_not_taken _ _ _ _ _ _ Hr Hs).
  unfold mob_GetPosition, bind, gets, ret. cbv beta. rewrite Ha. cbn.
  rewrite Hb. cbn. rewrite H. rewrite Hmob, Hna.
  rewrite <- Hmob in Ha, Hb.
  destruct (N.eqb_spec id_a (m_a ce)) as [Heq|Hne].
  - rewrite Ha. unfold modify. cbn. rewrite lookup_insert_ne by done.
    rewrite Hb. eexists. split; [reflexivity|].
    unfold position_of. cbn.
    assert (GetPosition <$>
              <[b:=SetPosition (m_b_position ce) mb]>
                (<[a:=SetPosition (m_a_position ce) ma]> (mobility w1)) !! a =
              Some (m_a_position ce) ∧
            GetPosition <$>
              <[b:=SetPosition (m_b_position ce) mb]>
                (<[a:=SetPosition (m_a_position ce) ma]> (mobility w1)) !! b =
              Some (m_b_position ce)) as [Hpa Hpb].
    { rewrite lookup_insert_ne, !lookup_insert_eq by done. cbn.
      by rewrite !GetPosition_SetPosition. }
    split; [done|]. split; [done|]. split.
    { intros p Hpa' Hpb'. rewrite !lookup_insert_ne by done. by rewrite Hmob. }
    do 2 (split; [done|]).
    intros Hids Hkey p id [[-> ->]|[-> ->]].
    + split; [done|]. intros Hb'.
      apply mkCacheKey_inj in Hkey as [[? ?]|[? ?]]; congruence.
    + split; [|done]. intros Ha'. congruence.
  - rewrite Ha. unfold modify. cbn. rewrite lookup_insert_ne by done.
    rewrite Hb. eexists. split; [reflexivity|].
    unfold position_of. cbn.
    assert (GetPosition <$>
              <[b:=SetPosition (m_a_position ce) mb]>
                (<[a:=SetPosition (m_b_position ce) ma]> (mobility w1)) !! a =
              Some (m_b_position ce) ∧
            GetPosition <$>
              <[b:=SetPosition (m_a_position ce) mb]>
                (<[a:=SetPosition (m_b_position ce) ma]> (mobility w1)) !! b =
              Some (m_a_position ce)) as [Hpa Hpb].
    { rewrite lookup_insert_ne, !lookup_insert_eq by done. cbn.
      by rewrite !GetPosition_SetPosition. }
    split; [done|]. split; [done|]. split.
    { intros p Hpa' Hpb'. rewrite !lookup_insert_ne by done. by rewrite Hmob. }
    do 2 (split; [done|]).
    intros Hids Hkey p id [[-> ->]|[-> ->]].
    + split; [done|]. done.
    + split; [done|]. intros Hb'.
      apply mkCacheKey_inj in Hkey as [[? ?]|[? ?]]; congruence.
Qed.

Lemma loss_with_tx_power_writes_back_positions_witness :
  ∃ w', GetPropagationLoss_tx 1%nat 0%nat 20 Warm.at_60 = Ok 60%float w' ∧
    position_of 1%nat Warm.at_60 = Some (mkVector 10 0 0) ∧
    position_of 0%nat Warm.at_60 = Some (mkVector 0 0 0) ∧
    position_of 1%nat w' = Some (mkVector 10.5 0 0) ∧
    position_of 0%nat w' = Some (mkVector 0.5 0 0).
Proof.
  destruct (loss_with_tx_power_writes_back_positions Warm.at_60 1%nat 0%nat 20
              1%N 0%N (make_entry Scenario.window1 Scenario.rx1)
              (set_cache_hits 1%float (swept (mkCacheKey 1 0) Warm.at_60)))
    as (w' & H & _ & Hswap & _).
  - discriminate.
  - reflexivity.
  - reflexivity.
  - vm_compute. reflexivity.
  - exists w'. split; [exact H|]. do 2 (split; [reflexivity|]).
    apply Hswap. discriminate.
Defined.

(** C9.  The delay accessor, the two-argument loss accessor, the CSI
    accessor and the frequency accessor leave every mobility object as it
    was, whatever entry serves them; the three-argument loss accessor does
    move endpoints: in the warm scenario the query for (1, 0), served by an
    entry recorded as (0, 1), moves both. *)
Theorem only_loss_with_tx_power_moves_endpoints :
  (∀ w a b r w',
     GetPropagationDelay a b w = Ok r w' → mobility w' = mobility w) ∧
  (∀ w a b r w',
     GetPropagationLoss a b w = Ok r w' → mobility w' = mobility w) ∧
  (∀ w a b r w',
     GetPropagationCSI a b w = Ok r w' → mobility w' = mobility w) ∧
  (∀ w a b r w',
     GetPropagationFreq a b w = Ok r w' → mobility w' = mobility w) ∧
  (∃ r w', GetPropagationLoss_tx 1%nat 0%nat 20 Warm.at_60 = Ok r w' ∧
     position_of 1%nat w' ≠ position_of 1%nat Warm.at_60 ∧
     position_of 0%nat w' ≠ position_of 0%nat Warm.at_60).
Proof.
  split; [|split; [|split; [|split]]].
  - intros w a b r w'. apply GetPropagationDelay_preserves_mobility.
  - intros w a b r w'. revert w r w'.
    change (preserves mobility (GetPropagationLoss a b)).
    unfold GetPropagationLoss.
    repeat first [apply GetPropagationData_preserves_mobility | preserves_step].
  - intros w a b r w'. revert w r w'.
    change (preserves mobility (GetPropagationCSI a b)).
    unfold GetPropagationCSI.
    repeat first [apply GetPropagationData_preserves_mobility | preserves_step].
  - intros w a b r w'. revert w r w'.
    change (preserves mobility (GetPropagationFreq a b)).
    unfold GetPropagationFreq.
    repeat first [apply GetPropagationData_preserves_mobility | preserves_step].
  - eexists _, _. split; [vm_compute; reflexivity|].
    split; vm_compute; discriminate.
Qed.

Lemma only_loss_with_tx_power_moves_endpoints_witness :
  ∃ r w', GetPropagationCSI 1%nat 0%nat Warm.at_60 = Ok r w' ∧
    m_a (make_entry Scenario.window1 Scenario.rx1) = 0%N ∧
    mobility w' = mobility Warm.at_60.
Proof.
  destruct only_loss_with_tx_power_moves_endpoints as (_ & _ & H & _).
  assert (∃ r w', GetPropagationCSI 1%nat 0%nat Warm.at_60 = Ok r w')
    as (r & w' & Hrun) by (vm_compute; eauto).
  exists r, w'. split; [exact Hrun|]. split; [reflexivity|].
  exact (H _ _ _ _ _ Hrun).
Defined.

(** ** The fast path *)

Lemma configure_margin (l : list Setter) (c : SionnaPropagationCache) :
  m_optimize_margin (configure l c) = m_optimize_margin c.
Proof.
  revert c. induction l as [|s l IH]; intros c; [done|].
  unfold configure in *. simpl. rewrite IH. by destruct s.
Qed.

(** C5, as the specification states it, fails on its last part: the margin
    cannot be configured.  Whatever sequence of setters is applied to a
    freshly constructed cache, the margin is 0. *)
Lemma margin_is_not_configurable :
  ¬ ∃ (friis : FriisPropagationLossModel)
      (cs : ConstantSpeedPropagationDelayModel) (l : list Setter),
      m_optimize_margin (configure l (SionnaPropagationCache_new friis cs))
      ≠ 0%float.
Proof. intros (friis & cs & l & H). apply H. by rewrite configure_margin. Qed.

(** C5, amended.  When the optimisation is on and the Friis received power
    at the requested transmit power plus the margin is below the noise
    floor, the three-argument loss accessor returns the Friis pathloss,
    computed as [(-1) * (resultdBm - txPowerDbm)], and leaves the whole
    world as it was: no bucket, no counter and no message changes.  The
    margin is the constant 0 given at construction; no setter changes it. *)
Theorem loss_fast_path_skips_cache_and_oracle (w : World) (a b : Ptr)
    (txPowerDbm : float) (ma mb : MobilityModel) :
  m_optimize (pcache w) = true →
  m_sionnaHelper (pcache w) = true →
  mobility w !! a = Some ma →
  mobility w !! b = Some mb →
  let resultdBm :=
    CalcRxPower (m_friisLossModel (pcache w)) txPowerDbm
      (GetPosition ma) (GetPosition mb) in
  (resultdBm + m_optimize_margin (pcache w) <? GetNoiseFloor (helper w))%float
    = true →
  GetPropagationLoss_tx a b txPowerDbm w =
    Ok ((-1) * (resultdBm - txPowerDbm))%float w ∧
  (∀ friis cs,
     m_optimize_margin (SionnaPropagationCache_new friis cs) = 0%float) ∧
  (∀ s c, m_optimize_margin (apply_setter s c) = m_optimize_margin c).
Proof.
  intros Ho Hh Ha Hb resultdBm Hlt. split; [|split; [done | by intros []]].
  assert (shortcut_taken txPowerDbm a b w = true) as Hs.
  { unfold shortcut_taken. rewrite Ho, Ha, Hb, Hh. exact Hlt. }
  destruct (loss_fast_path_taken _ _ _ _ Hs) as (ma' & mb' & Ha' & Hb' & H).
  rewrite Ha in Ha'. rewrite Hb in Hb'. injection Ha' as <-. injection Hb' as <-.
  unfold GetPropagationLoss_tx, bind. rewrite H. reflexivity.
Qed.

Lemma loss_fast_path_skips_cache_and_oracle_witness :
  GetPropagationLoss_tx 0%nat 2%nat 20 Optimized.start =
    Ok 200%float Optimized.start.
Proof.
  exact (proj1 (loss_fast_path_skips_cache_and_oracle Optimized.start
                  0%nat 2%nat 20 (Scenario.station 0 0%N)
                  (Scenario.station 200 2%N)
                  eq_refl eq_refl eq_refl eq_refl eq_refl)).
Defined.

(** C6, as the specification states it, fails for the CSI and the frequency
    accessors.  In the scenario the optimisation is on and the link between
    nodes 0 and 2 is below the noise floor at 20 dBm, yet both accessors
    count a miss and send a channel-state request. *)
Lemma csi_and_freq_accessors_have_no_fast_path :
  m_optimize (pcache Optimized.start) = true ∧
  shortcut_taken MAX_TXPOWER_DBM 0%nat 2%nat Optimized.start = true ∧
  (∃ r w', GetPropagationCSI 0%nat 2%nat Optimized.start = Ok r w' ∧
     sent (socket Optimized.start) = [] ∧
     sent (socket w') = [channel_state_request 0 2 50] ∧
     m_cache_miss (pcache w') = 1%float ∧
     stored_entries (cache w') = 4%nat) ∧
  (∃ r w', GetPropagationFreq 0%nat 2%nat Optimized.start = Ok r w' ∧
     sent (socket w') = [channel_state_request 0 2 50] ∧
     m_cache_miss (pcache w') = 1%float ∧
     stored_entries (cache w') = 4%nat).
Proof.
  split; [reflexivity|]. split; [reflexivity|].
  split; vm_compute; eexists _, _; repeat split; reflexivity.
Qed.

Lemma projecting_accessors (w : World) (a b : Ptr) :
  GetPropagationLoss a b w = project m_loss (GetPropagationData a b w) ∧
  GetPropagationCSI a b w = project m_cfr (GetPropagationData a b w) ∧
  GetPropagationFreq a b w = project m_freq (GetPropagationData a b w).
Proof.
  unfold GetPropagationLoss, GetPropagationCSI, GetPropagationFreq, bind, ret,
    project.
  by destruct (GetPropagationData a b w).
Qed.

(** C6, amended.  Two accessors have a fast path.  When the optimisation is
    on and the link is below the noise floor, the delay accessor (which
    tests at the fixed 20 dBm) returns the constant-speed delay and the
    three-argument loss accessor returns the Friis loss, and both leave the
    world as it was.  The two-argument loss accessor, the CSI accessor and
    the frequency accessor have none: whatever the optimisation flag and
    the link, a query of theirs that finds no fresh entry counts a miss and
    sends a request, and succeeds exactly when the peer answers with a
    channel-state response. *)
Theorem fast_path_only_in_delay_and_loss_with_tx_power (w : World) (a b : Ptr)
    (txPowerDbm : float) :
  (shortcut_taken MAX_TXPOWER_DBM a b w = true →
   ∃ ma mb, mobility w !! a = Some ma ∧ mobility w !! b = Some mb ∧
     GetPropagationDelay a b w =
     Ok (GetDelay (m_constSpeedDelayModel (pcache w))
           (GetPosition ma) (GetPosition mb)) w) ∧
  (shortcut_taken txPowerDbm a b w = true →
   ∃ ma mb, mobility w !! a = Some ma ∧ mobility w !! b = Some mb ∧
     GetPropagationLoss_tx a b txPowerDbm w =
     Ok ((-1) * (CalcRxPower (m_friisLossModel (pcache w)) txPowerDbm
                   (GetPosition ma) (GetPosition mb) - txPowerDbm))%float w) ∧
  (∀ id_a id_b,
     endpoints w a b = Some (id_a, id_b) →
     (m_caching (pcache w) = true →
      find_live (Now w) (bucket (mkCacheKey id_a id_b) (cache w)) = None) →
     match reply_to id_a id_b w with
     | Some (channel_state_response csi) =>
         let w' := refilled id_a id_b csi (lookup_world id_a id_b w) in
         let ce := rescan id_a id_b w' in
         GetPropagationLoss a b w = Ok (m_loss ce) w' ∧
         GetPropagationCSI a b w = Ok (m_cfr ce) w' ∧
         GetPropagationFreq a b w = Ok (m_freq ce) w' ∧
         sent (socket w') =
           sent (socket w) ++ [channel_state_request id_a id_b (Now w)] ∧
         m_cache_miss (pcache w') = (m_cache_miss (pcache w) + 1)%float
     | _ =>
         ∃ msg,
           GetPropagationLoss a b w = Fatal AssertFailed msg ∧
           GetPropagationCSI a b w = Fatal AssertFailed msg ∧
           GetPropagationFreq a b w = Fatal AssertFailed msg
     end).
Proof.
  split; [|split].
  - intros Hs. destruct (delay_fast_path_taken _ _ _ Hs) as (ma & mb & Ha & Hb & H).
    exists ma, mb. do 2 (split; [done|]).
    unfold GetPropagationDelay, bind. by rewrite H.
  - intros Hs. destruct (loss_fast_path_taken _ _ _ _ Hs) as (ma & mb & Ha & Hb & H).
    exists ma, mb. do 2 (split; [done|]).
    unfold GetPropagationLoss_tx, bind. by rewrite H.
  - intros id_a id_b Hr Hf.
    destruct (projecting_accessors w a b) as (-> & -> & ->).
    destruct (reply_to id_a id_b w) as [r|] eqn:Hrep.
    2:{ destruct (GetPropagationData_miss_no_response _ _ _ _ _ Hr Hf) as [msg ->];
        [intros ?; congruence | by exists msg]. }
    destruct r.
    all: try (destruct (GetPropagationData_miss_no_response _ _ _ _ _ Hr Hf)
                as [msg ->]; [intros ?; congruence | by exists msg]).
    rewrite (GetPropagationData_miss_response _ _ _ _ _ _ Hr Hf Hrep).
    cbv zeta. unfold project.
    do 3 (split; [done|]).
    destruct (lookup_world_frame id_a id_b w) as (Hn & _ & Hs & _ & _ & Hm & _).
    destruct (refilled_frame id_a id_b csi (lookup_world id_a id_b w))
      as (_ & _ & _ & Hs' & _ & Hm' & _).
    rewrite Hs', Hm', Hs, Hm. unfold request. by rewrite Hn.
Qed.

Lemma fast_path_only_in_delay_and_loss_with_tx_power_witness :
  ∃ ma mb,
    mobility Optimized.start !! 0%nat = Some ma ∧
    mobility Optimized.start !! 2%nat = Some mb ∧
    GetPropagationDelay 0%nat 2%nat Optimized.start = Ok 33 Optimized.start.
Proof.
  exact (proj1 (fast_path_only_in_delay_and_loss_with_tx_power Optimized.start
                  0%nat 2%nat 20) eq_refl).
Defined.

(** ** A refill that brings no fresh entry *)

(** C1 is not what the code does.  When the reply to a miss leaves the
    bucket of the queried pair without an entry that is fresh at the time
    of the query, the query does not terminate the run: it returns the
    default-constructed entry, whose window is [-1, -1] and whose loss and
    node identifiers are uninitialised, and the miss stays counted. *)
Theorem refill_without_fresh_entry_returns_default (w : World) (a b : Ptr)
    (id_a id_b : NodeId) (csi : list CSI) :
  endpoints w a b = Some (id_a, id_b) →
  (m_caching (pcache w) = true →
   find_live (Now w) (bucket (mkCacheKey id_a id_b) (cache w)) = None) →
  reply_to id_a id_b w = Some (channel_state_response csi) →
  let w' := refilled id_a id_b csi (lookup_world id_a id_b w) in
  (∀ e, e ∈ bucket (mkCacheKey id_a id_b) (cache w') →
        ¬ (m_start_time e <= Now w <= m_end_time e)) →
  GetPropagationData a b w = Ok (CacheEntry_default (indeterminate w)) w' ∧
  m_start_time (CacheEntry_default (indeterminate w)) = -1 ∧
  m_end_time (CacheEntry_default (indeterminate w)) = -1 ∧
  m_loss (CacheEntry_default (indeterminate w)) = ind_loss (indeterminate w).
Proof.
  intros Hr Hf Hrep w' Hnone. split; [|done].
  rewrite (GetPropagationData_miss_response _ _ _ _ _ _ Hr Hf Hrep).
  fold w'. f_equal. unfold rescan.
  destruct (lookup_world_frame id_a id_b w) as (Hn & _ & _ & Hi & _).
  destruct (refilled_frame id_a id_b csi (lookup_world id_a id_b w))
    as (Hn' & _ & Hi' & _).
  fold w' in Hn', Hi'. rewrite Hn', Hi', Hn, Hi.
  apply find_live_None in Hnone. unfold bucket in Hnone.
  destruct (cache w' !! mkCacheKey id_a id_b) as [v|]; simpl in *;
    [by rewrite Hnone | done].
Qed.

Lemma refill_without_fresh_entry_returns_default_witness :
  ∃ w', GetPropagationData 0%nat 1%nat Faulty.silent =
          Ok (CacheEntry_default (mkIndeterminate nan 7 5%N 6%N)) w' ∧
        cache w' = ∅ ∧ m_cache_miss (pcache w') = 1%float.
Proof.
  eexists. split; [|split].
  - apply (refill_without_fresh_entry_returns_default Faulty.silent 0%nat 1%nat
             0%N 1%N []).
    + reflexivity.
    + reflexivity.
    + reflexivity.
    + intros e He. vm_compute in He. by apply elem_of_nil in He.
  - reflexivity.
  - reflexivity.
Defined.

(** ** The startup and teardown exchanges *)

Lemma RandomVariableStreamMessage_preserves {X} (obs : World -> X)
    (r : RandomVariableStream) :
  preserves obs (RandomVariableStreamMessage r).
Proof. unfold RandomVariableStreamMessage, NS_FATAL_ERROR. repeat preserves_step. Qed.

Lemma node_info_preserves {X} (obs : World -> X) (n : Node) :
  preserves obs (node_info n).
Proof.
  unfold node_info, random_walk_condition.
  repeat first [apply RandomVariableStreamMessage_preserves | preserves_step].
Qed.

Lemma node_infos_preserves {X} (obs : World -> X) (c : list Node) :
  preserves obs (node_infos c).
Proof.
  induction c as [|n c IH]; simpl;
    repeat first [apply node_info_preserves | apply IH | preserves_step].
Qed.

(** Building the information message reads the world and changes nothing. *)
Lemma simulation_info_pure (w : World) (info : SimInitMessage) (w1 : World) :
  simulation_info w = Ok info w1 → w1 = w.
Proof.
  revert w info w1. change (preserves (fun w => w) simulation_info).
  unfold simulation_info.
  repeat first [apply node_infos_preserves | preserves_step].
Qed.

(** C8 at the failing input: the peer acknowledges the close request with
    an error status.  [Destroy] does not stop the run as [Start] does on
    such an acknowledgment: it never reads the status, closes the socket
    and returns. *)
Lemma destroy_accepts_error_acknowledgment :
  reply_after sim_close_request Faulty.failing =
    Some (sim_ack false "scene not found") ∧
  ∃ w', Destroy Faulty.failing = Ok tt w' ∧
    closed (socket w') = true ∧
    sent (socket w') = [sim_close_request].
Proof.
  split; [reflexivity|]. eexists. split; [reflexivity|]. split; reflexivity.
Qed.

(** C8, what the two exchanges do with the reply.  [Start] does what the
    claim says: it sends the information message and then stops the run
    with [NS_ABORT_MSG] when the reply is not an acknowledgment or is an
    acknowledgment with an error status, fails its assertion when no reply
    is received, and returns otherwise.  [Destroy] does not: it sends the
    close request and fails its assertion when no reply is received or the
    reply is not an acknowledgment, but an acknowledgment with an error
    status passes: the status is never read, the socket is closed and
    [Destroy] returns.  The check that [Start] makes is missing there. *)
Theorem startup_and_teardown_replies (w : World) (info : SimInitMessage)
    (w1 : World) :
  simulation_info w = Ok info w1 →
  match reply_after (sim_init_msg info) w with
  | Some (sim_ack true _) =>
      ∃ w', Start w = Ok tt w' ∧
        sent (socket w') = sent (socket w) ++ [sim_init_msg info]
  | Some (sim_ack false error_msg) =>
      Start w =
      Fatal Aborted
        ("ns3sionna: connection ... FAILED with error: " +:+ error_msg)
  | Some _ => Start w = Fatal Aborted "ns3sionna: connection ... FAILED"
  | None => ∃ msg, Start w = Fatal AssertFailed msg
  end ∧
  match reply_after sim_close_request w with
  | Some (sim_ack _ _) =>
      ∃ w', Destroy w = Ok tt w' ∧
        closed (socket w') = true ∧
        sent (socket w') = sent (socket w) ++ [sim_close_request]
  | _ => ∃ msg, Destroy w = Fatal AssertFailed msg
  end.
Proof.
  intros Hinfo. pose proof (simulation_info_pure _ _ _ Hinfo) as ->. split.
  - unfold Start, bind. rewrite Hinfo.
    unfold reply_after, zmq_send, zmq_recv, modify, gets, NS_ABORT_MSG, fail, ret.
    world_simpl.
    destruct (peer _ _) as [[? | [] ? | | | |]|]; eauto.
  - unfold Destroy, bind, reply_after, zmq_send, zmq_recv, zmq_close, modify,
      gets, NS_ASSERT_MSG, fail, ret.
    world_simpl.
    destruct (peer _ _) as [[]|]; simpl; eauto.
Qed.

Lemma startup_and_teardown_replies_witness :
  (∃ info, simulation_info Faulty.failing = Ok info Faulty.failing ∧
     Start Faulty.failing =
     Fatal Aborted
       "ns3sionna: connection ... FAILED with error: scene not found") ∧
  (∃ w', Start Scenario.start = Ok tt w') ∧
  (∃ msg, Destroy (Scenario.world (fun _ => Some wrapper_not_set)
                     Scenario.fresh_cache 50) = Fatal AssertFailed msg) ∧
  (reply_after sim_close_request Faulty.failing =
     Some (sim_ack false "scene not found") ∧
   ∃ w', Destroy Faulty.failing = Ok tt w' ∧ closed (socket w') = true).
Proof.
  split; [|split; [|split]].
  - eexists. split; [reflexivity|].
    exact (proj1 (startup_and_teardown_replies Faulty.failing _ _ eq_refl)).
  - destruct (proj1 (startup_and_teardown_replies Scenario.start _ _ eq_refl))
      as (w' & H & _).
    by exists w'.
  - exact (proj2 (startup_and_teardown_replies
                    (Scenario.world (fun _ => Some wrapper_not_set)
                       Scenario.fresh_cache 50) _ _ eq_refl)).
  - split; [reflexivity|].
    destruct (proj2 (startup_and_teardown_replies Faulty.failing _ _ eq_refl))
      as (w' & H & Hc & _).
    by exists w'.
Defined.

(** * Further properties of the cache *)

(** ** The order on keys *)

(** X1.  [CacheKey::operator<] is a strict total order: no key is below
    itself, the order is transitive, and of two different keys exactly one
    is below the other.  The [std::map] therefore has one bucket per key and
    finds it. *)
Theorem CacheKey_lt_strict_total_order :
  (∀ k, CacheKey_lt k k = false) ∧
  (∀ k1 k2 k3,
     CacheKey_lt k1 k2 = true → CacheKey_lt k2 k3 = true →
     CacheKey_lt k1 k3 = true) ∧
  (∀ k1 k2, CacheKey_lt k1 k2 = true → CacheKey_lt k2 k1 = false) ∧
  (∀ k1 k2, k1 ≠ k2 → CacheKey_lt k1 k2 = true ∨ CacheKey_lt k2 k1 = true).
Proof.
  unfold CacheKey_lt. repeat split.
  - intros [k1 k2]. simpl. rewrite N.eqb_refl. simpl. apply N.ltb_irrefl.
  - intros [a1 a2] [b1 b2] [c1 c2]. simpl.
    destruct (N.eqb_spec a1 b1), (N.eqb_spec b1 c1), (N.eqb_spec a1 c1);
      simpl; rewrite ?N.ltb_lt; lia.
  - intros [a1 a2] [b1 b2]. simpl.
    destruct (N.eqb_spec a1 b1), (N.eqb_spec b1 a1); simpl;
      rewrite ?N.ltb_lt, ?N.ltb_ge; lia.
  - intros [a1 a2] [b1 b2] Hne. simpl.
    destruct (N.eqb_spec a1 b1), (N.eqb_spec b1 a1); simpl;
      rewrite ?N.ltb_lt; try lia.
    subst. assert (a2 ≠ b2) by congruence. lia.
Qed.

Lemma CacheKey_lt_strict_total_order_witness :
  CacheKey_lt (mkCacheKey 7 3) (mkCacheKey 4 9) = true ∧
  CacheKey_lt (mkCacheKey 4 9) (mkCacheKey 7 3) = false.
Proof.
  destruct CacheKey_lt_strict_total_order as (_ & _ & Hasym & _).
  split; [reflexivity|]. apply Hasym. reflexivity.
Defined.

(** ** The entry built from a record *)





(** ** Repeating a query *)

Lemma lookup_bind_find_live (t : Time) (k : CacheKey)
    (m : gmap CacheKey (list CacheEntry)) :
  m !! k ≫= find_live t = find_live t (bucket k m).
Proof. unfold bucket. by destruct (m !! k). Qed.

(** What a successful query leaves in the bucket of the queried pair: the
    entry it returned is the first fresh one there, or nothing there is
    fresh and it returned the default-constructed entry. *)
Lemma GetPropagationData_leaves_first_live (w : World) (a b : Ptr)
    (id_a id_b : NodeId) (ce : CacheEntry) (w1 : World) :
  endpoints w a b = Some (id_a, id_b) →
  GetPropagationData a b w = Ok ce w1 →
  Now w1 = Now w ∧
  (find_live (Now w) (bucket (mkCacheKey id_a id_b) (cache w1)) = Some ce ∨
   (find_live (Now w) (bucket (mkCacheKey id_a id_b) (cache w1)) = None ∧
    ce = CacheEntry_default (indeterminate w))).
Proof.
  intros Hr H.
  destruct (GetPropagationData_inv _ _ _ _ _ H)
    as (x & y & Hr' & [(Hc & Hf & ->)|(Hf & csi & Hrep & -> & ->)]);
    rewrite Hr in Hr'; injection Hr' as <- <-.
  - destruct (swept_frame (mkCacheKey id_a id_b) w) as (Hn & _).
    split; [exact Hn|]. left.
    change (cache (set_cache_hits (m_cache_hits (pcache w) + 1)%float
                     (swept (mkCacheKey id_a id_b) w)))
      with (cache (swept (mkCacheKey id_a id_b) w)).
    rewrite bucket_swept, decide_True by done.
    by rewrite find_live_erase_outdated.
  - destruct (lookup_world_frame id_a id_b w) as (Hn & _ & _ & Hi & _).
    destruct (refilled_frame id_a id_b csi (lookup_world id_a id_b w))
      as (Hn' & _ & Hi' & _).
    split; [congruence|]. unfold rescan.
    rewrite lookup_bind_find_live, Hn', Hn, Hi', Hi.
    clear Hf. destruct (find_live (Now w) _) as [e|]; [by left | by right].
Qed.

(** X3.  An answer that is not the default-constructed entry stays the
    answer: in any later state that holds the same store at the same
    simulated time with caching on, the query for the same pair, in either
    orientation, is a hit that returns the very same entry, sends nothing
    and counts no miss.  (The later state may differ in everything else:
    positions moved by a write-back, caching switched on again.) *)
Theorem repeated_query_hits_same_entry (w : World) (a b : Ptr)
    (id_a id_b : NodeId) (ce : CacheEntry) (w1 w2 : World) (a' b' : Ptr) :
  endpoints w a b = Some (id_a, id_b) →
  GetPropagationData a b w = Ok ce w1 →
  ce ≠ CacheEntry_default (indeterminate w) →
  cache w2 = cache w1 →
  Now w2 = Now w →
  m_caching (pcache w2) = true →
  endpoints w2 a' b' = Some (id_a, id_b) ∨
  endpoints w2 a' b' = Some (id_b, id_a) →
  ∃ w3, GetPropagationData a' b' w2 = Ok ce w3 ∧
    socket w3 = socket w2 ∧
    m_cache_miss (pcache w3) = m_cache_miss (pcache w2) ∧
    m_cache_hits (pcache w3) = (m_cache_hits (pcache w2) + 1)%float.
Proof.
  intros Hr H Hnd Hcache Hnow Hc Hr2.
  destruct (GetPropagationData_leaves_first_live _ _ _ _ _ _ _ Hr H)
    as (_ & [Hf|[_ Hd]]); [|done].
  rewrite <- Hcache, <- Hnow in Hf.
  assert (∃ x y, endpoints w2 a' b' = Some (x, y) ∧
                 mkCacheKey x y = mkCacheKey id_a id_b) as (x & y & Hr' & Hk).
  { destruct Hr2 as [Hr2|Hr2]; eexists _, _; (split; [exact Hr2|]);
      [done | apply mkCacheKey_sym]. }
  rewrite <- Hk in Hf.
  exists (set_cache_hits (m_cache_hits (pcache w2) + 1)%float
            (swept (mkCacheKey x y) w2)).
  split; [by apply GetPropagationData_hit|].
  destruct (swept_frame (mkCacheKey x y) w2) as (_ & _ & Hs & _ & _ & Hm & _).
  split; [exact Hs|]. split; [exact Hm | reflexivity].
Qed.

Lemma repeated_query_hits_same_entry_witness :
  ∃ ce w1 w3,
    GetPropagationData 0%nat 1%nat Scenario.start = Ok ce w1 ∧
    GetPropagationData 1%nat 0%nat w1 = Ok ce w3 ∧
    sent (socket w3) = [channel_state_request 0 1 50] ∧
    m_cache_miss (pcache w3) = 1%float ∧
    m_cache_hits (pcache w3) = 1%float.
Proof.
  assert (GetPropagationData 0%nat 1%nat Scenario.start =
          Ok (make_entry Scenario.window1 Scenario.rx1)
             (refilled 0%N 1%N [Scenario.window1; Scenario.window2]
                (lookup_world 0%N 1%N Scenario.start))) as H1.
  { exact (GetPropagationData_miss_response Scenario.start 0%nat 1%nat 0%N 1%N
             [Scenario.window1; Scenario.window2]
             eq_refl (fun _ => eq_refl) eq_refl). }
  destruct (repeated_query_hits_same_entry Scenario.start 0%nat 1%nat 0%N 1%N
              _ _ (refilled 0%N 1%N [Scenario.window1; Scenario.window2]
                     (lookup_world 0%N 1%N Scenario.start))
              1%nat 0%nat eq_refl H1)
    as (w3 & H3 & Hs & Hm & Hh).
  - discriminate.
  - reflexivity.
  - reflexivity.
  - reflexivity.
  - right. reflexivity.
  - eexists _, _, w3. split; [exact H1|]. split; [exact H3|].
    split; [by rewrite Hs|]. split; [by rewrite Hm | by rewrite Hh].
Defined.

(** X4.  The default-constructed answer is not remembered.  When a query
    returned an entry that is not fresh at the query time, a later query
    for the pair in a state with the same store and the same time finds
    nothing to serve either: it counts a miss and sends a request again,
    and succeeds exactly when the peer answers with a channel-state
    response. *)
Theorem unfresh_answer_is_asked_again (w : World) (a b : Ptr)
    (id_a id_b : NodeId) (ce : CacheEntry) (w1 w2 : World) :
  endpoints w a b = Some (id_a, id_b) →
  GetPropagationData a b w = Ok ce w1 →
  ¬ (m_start_time ce <= Now w <= m_end_time ce) →
  cache w2 = cache w1 →
  Now w2 = Now w →
  endpoints w2 a b = Some (id_a, id_b) →
  ce = CacheEntry_default (indeterminate w) ∧
  match reply_to id_a id_b w2 with
  | Some (channel_state_response csi) =>
      ∃ e w3, GetPropagationData a b w2 = Ok e w3 ∧
        sent (socket w3) =
          sent (socket w2) ++ [channel_state_request id_a id_b (Now w)] ∧
        m_cache_miss (pcache w3) = (m_cache_miss (pcache w2) + 1)%float
  | _ => ∃ msg, GetPropagationData a b w2 = Fatal AssertFailed msg
  end.
Proof.
  intros Hr H Hstale Hcache Hnow Hr2.
  destruct (GetPropagationData_leaves_first_live _ _ _ _ _ _ _ Hr H)
    as (_ & [Hf|[Hf Hd]]).
  { apply find_live_Some in Hf as [_ Hf]. done. }
  split; [done|].
  rewrite <- Hcache, <- Hnow in Hf.
  destruct (reply_to id_a id_b w2) as [r|] eqn:Hrep.
  2:{ apply (GetPropagationData_miss_no_response _ _ _ _ _ Hr2 (fun _ => Hf)).
      intros ?; congruence. }
  destruct r.
  all: try (apply (GetPropagationData_miss_no_response _ _ _ _ _ Hr2 (fun _ => Hf));
            intros ?; congruence).
  eexists _, _.
  split; [exact (GetPropagationData_miss_response _ _ _ _ _ _ Hr2 (fun _ => Hf) Hrep)|].
  destruct (lookup_world_frame id_a id_b w2) as (Hn & _ & Hs & _ & _ & Hm & _).
  destruct (refilled_frame id_a id_b csi (lookup_world id_a id_b w2))
    as (_ & _ & _ & Hs' & _ & Hm' & _).
  rewrite Hs', Hm', Hs, Hm. unfold request. by rewrite Hn, Hnow.
Qed.

Lemma unfresh_answer_is_asked_again_witness :
  ∃ w1 e w3,
    GetPropagationData 0%nat 1%nat Faulty.silent =
      Ok (CacheEntry_default (indeterminate Faulty.silent)) w1 ∧
    GetPropagationData 0%nat 1%nat w1 = Ok e w3 ∧
    sent (socket w3) =
      [channel_state_request 0 1 50; channel_state_request 0 1 50] ∧
    m_cache_miss (pcache w3) = 2%float.
Proof.
  assert (GetPropagationData 0%nat 1%nat Faulty.silent =
          Ok (CacheEntry_default (indeterminate Faulty.silent))
             (refilled 0%N 1%N [] (lookup_world 0%N 1%N Faulty.silent))) as H1.
  { exact (GetPropagationData_miss_response Faulty.silent 0%nat 1%nat 0%N 1%N
             [] eq_refl (fun _ => eq_refl) eq_refl). }
  pose proof (unfresh_answer_is_asked_again Faulty.silent 0%nat 1%nat 0%N 1%N
                _ _ (refilled 0%N 1%N [] (lookup_world 0%N 1%N Faulty.silent))
                eq_refl H1) as H.
  destruct H as (_ & e & w3 & H3 & Hs & Hm); try reflexivity.
  - vm_compute. intros [? ?]. done.
  - eexists _, e, w3. split; [exact H1|]. split; [exact H3|].
    split; [exact Hs | exact Hm].
Defined.

(** ** What a query does to the store and to the counters *)

Lemma is_Some_lookup_swept (key k : CacheKey) (w : World) :
  is_Some (cache w !! k) → is_Some (cache (swept key w) !! k).
Proof.
  unfold swept. destruct (cache w !! key) as [v|] eqn:Hk; [|done].
  unfold cache at 2. simpl. intros Hs.
  destruct (decide (key = k)) as [->|Hne].
  - rewrite lookup_insert_eq. eauto.
  - by rewrite lookup_insert_ne.
Qed.

Lemma is_Some_lookup_ingest (k : CacheKey) (csi : list CSI)
    (m : gmap CacheKey (list CacheEntry)) :
  is_Some (m !! k) → is_Some (ingest csi m !! k).
Proof.
  intros Hs. rewrite ingest_push_all, lookup_push_all_Some by auto. eauto.
Qed.

(** X5.  A successful query sweeps no bucket but the one of the queried
    pair, and that one only when caching is on; everything else it does to
    the store is appending.  So every bucket of another pair keeps all its
    entries, expired or not, in order, and no key ever leaves the map. *)
Theorem query_sweeps_only_its_own_bucket (w : World) (a b : Ptr)
    (id_a id_b : NodeId) (ce : CacheEntry) (w' : World) :
  endpoints w a b = Some (id_a, id_b) →
  GetPropagationData a b w = Ok ce w' →
  let key := mkCacheKey id_a id_b in
  (∀ k, k ≠ key →
     ∃ appended, bucket k (cache w') = bucket k (cache w) ++ appended) ∧
  (∃ appended,
     bucket key (cache w') =
     (if m_caching (pcache w)
      then erase_outdated (Now w) (bucket key (cache w))
      else bucket key (cache w)) ++ appended) ∧
  (∀ k x, k ≠ key → x ∈ bucket k (cache w) → x ∈ bucket k (cache w')) ∧
  (∀ k, is_Some (cache w !! k) → is_Some (cache w' !! k)).
Proof.
  intros Hr H key.
  assert (∃ l : list (CacheKey * CacheEntry),
            (∀ k, bucket k (cache w') =
                  bucket k (cache (lookup_world id_a id_b w)) ++ filed_under k l) ∧
            (∀ k, is_Some (cache w !! k) → is_Some (cache w' !! k)))
    as (l & Hb & Hdom).
  { destruct (GetPropagationData_inv _ _ _ _ _ H)
      as (x & y & Hr' & [(Hc & Hf & ->)|(Hf & csi & Hrep & -> & _)]);
      rewrite Hr in Hr'; injection Hr' as <- <-.
    - exists []. unfold lookup_world. rewrite Hc.
      change (cache (set_cache_hits (m_cache_hits (pcache w) + 1)%float
                       (swept (mkCacheKey id_a id_b) w)))
        with (cache (swept (mkCacheKey id_a id_b) w)).
      split; [intros k; by rewrite app_nil_r|].
      intros k. apply is_Some_lookup_swept.
    - exists (records csi).
      destruct (refilled_frame id_a id_b csi (lookup_world id_a id_b w))
        as (_ & _ & _ & _ & _ & _ & ->).
      split; [intros k; apply bucket_ingest|].
      intros k Hs. apply is_Some_lookup_ingest. unfold lookup_world.
      destruct (m_caching (pcache w)); [by apply is_Some_lookup_swept | done]. }
  assert (∀ k, k ≠ key →
            bucket k (cache (lookup_world id_a id_b w)) = bucket k (cache w))
    as Hother.
  { intros k Hk. unfold lookup_world. destruct (m_caching (pcache w)); [|done].
    rewrite bucket_swept. by rewrite decide_False. }
  split; [|split; [|split]].
  - intros k Hk. exists (filed_under k l). by rewrite Hb, Hother.
  - exists (filed_under key l). rewrite Hb. f_equal. unfold lookup_world.
    destruct (m_caching (pcache w)); [|done].
    rewrite bucket_swept. by rewrite decide_True.
  - intros k x Hk Hx. rewrite Hb, Hother by done. apply elem_of_app. by left.
  - exact Hdom.
Qed.

Lemma query_sweeps_only_its_own_bucket_witness :
  ∃ ce w',
    GetPropagationData 0%nat 1%nat Warm.at_150 = Ok ce w' ∧
    ¬ (make_entry Scenario.window1 Scenario.rx1
         ∈ bucket (mkCacheKey 0 1) (cache w')) ∧
    make_entry Scenario.window1 Scenario.rx2 ∈ bucket (mkCacheKey 0 2) (cache w').
Proof.
  pose proof (GetPropagationData_hit Warm.at_150 0%nat 1%nat 0%N 1%N
                (make_entry Scenario.window2 Scenario.rx1)
                eq_refl eq_refl eq_refl) as H1.
  destruct (query_sweeps_only_its_own_bucket Warm.at_150 0%nat 1%nat 0%N 1%N
              _ _ eq_refl H1) as (_ & _ & Hkeep & _).
  eexists _, _. split; [exact H1|]. split.
  - vm_compute. intros [He|He]%elem_of_cons; [discriminate He|].
    by apply elem_of_nil in He.
  - apply Hkeep; [discriminate|]. vm_compute. left.
Defined.

(** X6.  Every successful query counts exactly once.  Either it is a hit
    (only possible with caching on): the hit counter goes up by one, the
    miss counter and the socket are untouched.  Or it is a miss: the miss
    counter goes up by one, the hit counter is untouched and exactly one
    message, the request for the queried pair at the current time, joins
    the log of the socket. *)
Theorem every_query_counts_once (w : World) (a b : Ptr) (ce : CacheEntry)
    (w' : World) :
  GetPropagationData a b w = Ok ce w' →
  (m_caching (pcache w) = true ∧
   m_cache_hits (pcache w') = (m_cache_hits (pcache w) + 1)%float ∧
   m_cache_miss (pcache w') = m_cache_miss (pcache w) ∧
   socket w' = socket w) ∨
  (∃ id_a id_b,
     endpoints w a b = Some (id_a, id_b) ∧
     m_cache_hits (pcache w') = m_cache_hits (pcache w) ∧
     m_cache_miss (pcache w') = (m_cache_miss (pcache w) + 1)%float ∧
     sent (socket w') =
       sent (socket w) ++ [channel_state_request id_a id_b (Now w)]).
Proof.
  intros H.
  destruct (GetPropagationData_inv _ _ _ _ _ H)
    as (id_a & id_b & Hr & [(Hc & Hf & ->)|(Hf & csi & Hrep & -> & _)]).
  - left. destruct (swept_frame (mkCacheKey id_a id_b) w)
      as (_ & _ & Hs & _ & _ & Hm & _).
    split; [done|]. split; [reflexivity|]. split; [exact Hm | exact Hs].
  - right. exists id_a, id_b. split; [done|].
    destruct (lookup_world_frame id_a id_b w) as (Hn & _ & Hs & _ & Hh & Hm & _).
    destruct (refilled_frame id_a id_b csi (lookup_world id_a id_b w))
      as (_ & _ & _ & Hs' & Hh' & Hm' & _).
    rewrite Hs', Hh', Hm', Hs, Hh, Hm. unfold request. by rewrite Hn.
Qed.

Lemma every_query_counts_once_witness :
  ∃ ce w',
    GetPropagationData 0%nat 1%nat Warm.at_60 = Ok ce w' ∧
    m_cache_hits (pcache w') = 1%float ∧ m_cache_miss (pcache w') = 1%float.
Proof.
  assert (∃ ce w', GetPropagationData 0%nat 1%nat Warm.at_60 = Ok ce w')
    as (ce & w' & H) by (vm_compute; eauto).
  exists ce, w'. split; [exact H|].
  destruct (every_query_counts_once _ _ _ _ _ H)
    as [(_ & Hh & Hm & _)|(x & y & _ & _ & _ & Hs)].
  - split; [exact Hh | exact Hm].
  - exfalso. apply (f_equal length) in Hs. rewrite length_app in Hs.
    revert H Hs. vm_compute. intros [= _ <-]. simpl. discriminate.
Defined.

(** ** When a query fails *)

(** X7.  A query succeeds exactly when its three assertions on the helper
    and the endpoints pass and, in addition, either caching is on and the
    bucket of the pair holds a fresh entry, or the peer answers the request
    with a channel-state response.  In particular a hit never depends on
    the peer.  Every failure of a query is a failed assertion. *)
Theorem query_succeeds_iff (w : World) (a b : Ptr) :
  ((∃ ce w', GetPropagationData a b w = Ok ce w') ↔
   ∃ id_a id_b,
     endpoints w a b = Some (id_a, id_b) ∧
     ((m_caching (pcache w) = true ∧
       ∃ e, e ∈ bucket (mkCacheKey id_a id_b) (cache w) ∧
            m_start_time e <= Now w <= m_end_time e) ∨
      ∃ csi, reply_to id_a id_b w = Some (channel_state_response csi))) ∧
  (∀ k msg, GetPropagationData a b w = Fatal k msg → k = AssertFailed).
Proof.
  split; [split|].
  - intros (ce & w' & H).
    destruct (GetPropagationData_inv _ _ _ _ _ H)
      as (id_a & id_b & Hr & [(Hc & Hf & _)|(_ & csi & Hrep & _)]);
      exists id_a, id_b; (split; [done|]).
    + left. split; [done|]. exists ce. by apply find_live_Some.
    + right. eauto.
  - intros (id_a & id_b & Hr & Hcase).
    destruct (decide (m_caching (pcache w) = true ∧
        is_Some (find_live (Now w) (bucket (mkCacheKey id_a id_b) (cache w)))))
      as [[Hc [e0 Hf]]|Hmiss].
    { eexists _, _. exact (GetPropagationData_hit _ _ _ _ _ e0 Hr Hc Hf). }
    destruct Hcase as [(Hc & e & He & Hl)|(csi & Hrep)].
    { destruct Hmiss. split; [done|]. by eapply find_live_is_Some. }
    assert (m_caching (pcache w) = true →
      find_live (Now w) (bucket (mkCacheKey id_a id_b) (cache w)) = None) as Hf.
    { intros Hc. destruct (find_live _ _) eqn:E; [|done]. destruct Hmiss. eauto. }
    eexists _, _.
    exact (GetPropagationData_miss_response _ _ _ _ _ csi Hr Hf Hrep).
  - intros k msg H.
    destruct (endpoints w a b) as [[id_a id_b]|] eqn:Hr.
    2:{ destruct (GetPropagationData_not_ready _ _ _ Hr) as [mm Hm]. congruence. }
    destruct (decide (m_caching (pcache w) = true ∧
        is_Some (find_live (Now w) (bucket (mkCacheKey id_a id_b) (cache w)))))
      as [[Hc [e0 Hf]]|Hmiss].
    { rewrite (GetPropagationData_hit _ _ _ _ _ e0 Hr Hc Hf) in H. done. }
    assert (m_caching (pcache w) = true →
      find_live (Now w) (bucket (mkCacheKey id_a id_b) (cache w)) = None) as Hf.
    { intros Hc. destruct (find_live _ _) eqn:E; [|done]. destruct Hmiss. eauto. }
    destruct (reply_to id_a id_b w) as [r|] eqn:Hrep.
    2:{ destruct (GetPropagationData_miss_no_response _ _ _ _ _ Hr Hf) as [mm Hm];
        [intros ?; congruence | congruence]. }
    destruct r.
    all: try (destruct (GetPropagationData_miss_no_response _ _ _ _ _ Hr Hf)
                as [mm Hm]; [intros ?; congruence | congruence]).
    rewrite (GetPropagationData_miss_response _ _ _ _ _ _ Hr Hf Hrep) in H. done.
Qed.

Lemma query_succeeds_iff_witness :
  ∃ ce w',
    GetPropagationData 0%nat 1%nat
      (Scenario.world (fun _ => None)
         (pcache Warm.at_60) 60) = Ok ce w'.
Proof.
  apply (query_succeeds_iff
           (Scenario.world (fun _ => None) (pcache Warm.at_60) 60) 0%nat 1%nat).
  exists 0%N, 1%N. split; [reflexivity|]. left. split; [reflexivity|].
  exists (make_entry Scenario.window1 Scenario.rx1). split.
  - vm_compute. left.
  - vm_compute. split; discriminate.
Defined.

(** ** What the accessors never change *)

Lemma mob_SetPosition_preserves_settings (p : Ptr) (v : Vector) :
  preserves settings (mob_SetPosition p v).
Proof. unfold mob_SetPosition. repeat preserves_step. Qed.

Lemma GetPropagationData_preserves_settings (a b : Ptr) :
  preserves settings (GetPropagationData a b).
Proof.
  unfold GetPropagationData, cache_lookup, cache_refill, zmq_send, zmq_recv.
  repeat preserves_step.
Qed.

(** X8.  No accessor changes the configuration: after any successful call
    of any of the five accessors the clock, the node container, the helper's
    parameters and noise floor, the peer and the open/closed state of the
    socket, and the cache's flags, margin and fallback models are what they
    were.  The accessors only touch the store, the two counters, the log of
    sent messages and (the three-argument loss accessor) the positions. *)
Theorem accessors_preserve_settings (w : World) (a b : Ptr) (tx : float) :
  (∀ r w', GetPropagationDelay a b w = Ok r w' → settings w' = settings w) ∧
  (∀ r w', GetPropagationLoss_tx a b tx w = Ok r w' → settings w' = settings w) ∧
  (∀ r w', GetPropagationLoss a b w = Ok r w' → settings w' = settings w) ∧
  (∀ r w', GetPropagationCSI a b w = Ok r w' → settings w' = settings w) ∧
  (∀ r w', GetPropagationFreq a b w = Ok r w' → settings w' = settings w).
Proof.
  assert (preserves settings (GetPropagationDelay a b)) as H1.
  { unfold GetPropagationDelay, delay_fast_path.
    repeat first
      [ apply GetPropagationData_preserves_settings
      | apply friis_CalcRxPower_preserves
      | apply constSpeed_GetDelay_preserves
      | apply helper_GetNoiseFloor_preserves
      | preserves_step ]. }
  assert (preserves settings (GetPropagationLoss_tx a b tx)) as H2.
  { unfold GetPropagationLoss_tx, loss_fast_path.
    repeat first
      [ apply GetPropagationData_preserves_settings
      | apply friis_CalcRxPower_preserves
      | apply mob_GetPosition_preserves
      | apply mob_SetPosition_preserves_settings
      | apply helper_GetNoiseFloor_preserves
      | preserves_step ]. }
  assert (preserves settings (GetPropagationLoss a b)) as H3.
  { unfold GetPropagationLoss.
    repeat first [apply GetPropagationData_preserves_settings | preserves_step]. }
  assert (preserves settings (GetPropagationCSI a b)) as H4.
  { unfold GetPropagationCSI.
    repeat first [apply GetPropagationData_preserves_settings | preserves_step]. }
  assert (preserves settings (GetPropagationFreq a b)) as H5.
  { unfold GetPropagationFreq.
    repeat first [apply GetPropagationData_preserves_settings | preserves_step]. }
  repeat split; intros r w'; [apply H1 | apply H2 | apply H3 | apply H4 | apply H5].
Qed.

Lemma accessors_preserve_settings_witness :
  ∃ r w', GetPropagationLoss_tx 1%nat 0%nat 20 Warm.at_60 = Ok r w' ∧
    m_caching (pcache w') = true ∧ closed (socket w') = false ∧ Now w' = 60.
Proof.
  assert (∃ r w', GetPropagationLoss_tx 1%nat 0%nat 20 Warm.at_60 = Ok r w')
    as (r & w' & H) by (vm_compute; eauto).
  exists r, w'. split; [exact H|].
  destruct (accessors_preserve_settings Warm.at_60 1%nat 0%nat 20)
    as (_ & H2 & _).
  pose proof (H2 _ _ H) as Hs. unfold settings in Hs.
  injection Hs as Hnow _ _ _ _ _ _ _ _ _ _ _ _ _ _ _ Hclosed _ Hcaching _ _ _ _.
  split; [by rewrite Hcaching|]. split; [by rewrite Hclosed | by rewrite Hnow].
Defined.

(** ** The endpoint checks and the fast path *)

Lemma loss_fast_path_pure (a b : Ptr) (tx : float) :
  preserves (fun w => w) (loss_fast_path a b tx).
Proof.
  unfold loss_fast_path.
  repeat first [ apply friis_CalcRxPower_preserves
               | apply helper_GetNoiseFloor_preserves | preserves_step ].
Qed.

Lemma delay_fast_path_pure (a b : Ptr) :
  preserves (fun w => w) (delay_fast_path a b).
Proof.
  unfold delay_fast_path.
  repeat first [ apply friis_CalcRxPower_preserves
               | apply constSpeed_GetDelay_preserves
               | apply helper_GetNoiseFloor_preserves | preserves_step ].
Qed.

Lemma loss_fast_path_Some (w : World) (a b : Ptr) (tx v : float) (w' : World) :
  loss_fast_path a b tx w = Ok (Some v) w' → shortcut_taken tx a b w = true.
Proof.
  unfold shortcut_taken, loss_fast_path, friis_CalcRxPower, mob_GetPosition,
    helper_GetNoiseFloor, bind, gets, ret, fail. cbv beta.
  destruct (m_optimize (pcache w)); [|done]. cbn.
  destruct (mobility w !! a) as [ma|]; [|done]. cbn.
  destruct (mobility w !! b) as [mb|]; [|done]. cbn.
  destruct (m_sionnaHelper (pcache w)); [|done]. cbn.
  by destruct (below_noise_floor _ _ _).
Qed.

Lemma delay_fast_path_Some (w : World) (a b : Ptr) (v : Time) (w' : World) :
  delay_fast_path a b w = Ok (Some v) w' →
  shortcut_taken MAX_TXPOWER_DBM a b w = true.
Proof.
  unfold shortcut_taken, delay_fast_path, friis_CalcRxPower,
    constSpeed_GetDelay, mob_GetPosition, helper_GetNoiseFloor, bind, gets,
    ret, fail. cbv beta.
  destruct (m_optimize (pcache w)); [|done]. cbn.
  destruct (mobility w !! a) as [ma|]; [|done]. cbn.
  destruct (mobility w !! b) as [mb|]; [|done]. cbn.
  destruct (m_sionnaHelper (pcache w)); [|done]. cbn.
  by destruct (below_noise_floor _ _ _).
Qed.

(** X9.  The assertions on the endpoints are made on the slow path only.
    In a state where they would fail (no helper, an endpoint that is not a
    [SionnaMobilityModel], or one without node), the delay accessor and the
    three-argument loss accessor still succeed exactly when their fast path
    is taken, while the other three accessors always stop the run. *)
Theorem endpoint_checks_only_on_slow_path (w : World) (a b : Ptr) (tx : float) :
  endpoints w a b = None →
  ((∃ r w', GetPropagationLoss_tx a b tx w = Ok r w') ↔
   shortcut_taken tx a b w = true) ∧
  ((∃ r w', GetPropagationDelay a b w = Ok r w') ↔
   shortcut_taken MAX_TXPOWER_DBM a b w = true) ∧
  (∃ msg, GetPropagationLoss a b w = Fatal AssertFailed msg ∧
          GetPropagationCSI a b w = Fatal AssertFailed msg ∧
          GetPropagationFreq a b w = Fatal AssertFailed msg).
Proof.
  intros Hr. destruct (GetPropagationData_not_ready _ _ _ Hr) as [msg Hm].
  split; [|split].
  - split.
    + intros (r & w' & H). unfold GetPropagationLoss_tx, bind in H.
      destruct (loss_fast_path a b tx w) as [[v|] w1|] eqn:E; [| |done].
      * by apply loss_fast_path_Some in E.
      * pose proof (loss_fast_path_pure _ _ _ _ _ _ E) as Hw. simpl in Hw.
        subst w1. exfalso. revert H.
        unfold mob_GetPosition, bind, gets, ret, fail. cbv beta.
        destruct (mobility w !! a); [|done]. cbn.
        destruct (mobility w !! b); [|done]. cbn. by rewrite Hm.
    + intros Hs. destruct (loss_fast_path_taken _ _ _ _ Hs) as (ma & mb & _ & _ & H).
      unfold GetPropagationLoss_tx, bind. rewrite H. eauto.
  - split.
    + intros (r & w' & H). unfold GetPropagationDelay, bind in H.
      destruct (delay_fast_path a b w) as [[v|] w1|] eqn:E; [| |done].
      * by apply delay_fast_path_Some in E.
      * pose proof (delay_fast_path_pure _ _ _ _ _ E) as Hw. simpl in Hw.
        subst w1. by rewrite Hm in H.
    + intros Hs. destruct (delay_fast_path_taken _ _ _ Hs) as (ma & mb & _ & _ & H).
      unfold GetPropagationDelay, bind. rewrite H. eauto.
  - exists msg. destruct (projecting_accessors w a b) as (-> & -> & ->).
    by rewrite Hm.
Qed.

Lemma endpoint_checks_only_on_slow_path_witness :
  (∃ w', GetPropagationDelay 0%nat 2%nat Foreign.start = Ok 33 w') ∧
  (∃ msg, GetPropagationCSI 0%nat 2%nat Foreign.start = Fatal AssertFailed msg).
Proof.
  destruct (endpoint_checks_only_on_slow_path Foreign.start 0%nat 2%nat 20
              eq_refl) as (_ & [_ Hd] & (msg & _ & Hc & _)).
  split; [|by exists msg].
  destruct (Hd eq_refl) as (r & w' & H). exists w'.
  assert (r = 33) as <-; [|exact H].
  revert H. vm_compute. by intros [= <- _].
Defined.

(** ** The hit ratio *)

Lemma configure_counters_and_store (l : list Setter) (c : SionnaPropagationCache) :
  m_cache_hits (configure l c) = m_cache_hits c ∧
  m_cache_miss (configure l c) = m_cache_miss c ∧
  m_cache (configure l c) = m_cache c.
Proof.
  revert c. induction l as [|s l IH]; intros c; [done|].
  unfold configure in *. simpl.
  destruct (IH (apply_setter s c)) as (-> & -> & ->). by destruct s.
Qed.

(** X10.  On a cache as constructed, whatever setters have been applied to
    it, the hit ratio is not a number: [GetStats] divides zero by zero.  The
    first successful query on such a cache is always a miss, since the store
    is empty, and after it the ratio is zero. *)
Theorem GetStats_around_first_lookup (friis : FriisPropagationLossModel)
    (cs : ConstantSpeedPropagationDelayModel) (l : list Setter) (w : World)
    (a b : Ptr) (ce : CacheEntry) (w' : World) :
  pcache w = configure l (SionnaPropagationCache_new friis cs) →
  GetPropagationData a b w = Ok ce w' →
  GetStats (pcache w) = nan ∧
  length (sent (socket w')) = S (length (sent (socket w))) ∧
  m_cache_hits (pcache w') = 0%float ∧
  m_cache_miss (pcache w') = 1%float ∧
  GetStats (pcache w') = 0%float.
Proof.
  intros Hp H.
  destruct (configure_counters_and_store l (SionnaPropagationCache_new friis cs))
    as (Hh & Hm & Hc).
  rewrite <- Hp in Hh, Hm, Hc. simpl in Hh, Hm, Hc.
  split; [unfold GetStats; by rewrite Hh, Hm|].
  destruct (GetPropagationData_inv _ _ _ _ _ H)
    as (id_a & id_b & Hr & [(_ & Hf & _)|(_ & csi & Hrep & -> & _)]).
  { unfold bucket, cache in Hf. rewrite Hc, lookup_empty in Hf. done. }
  destruct (lookup_world_frame id_a id_b w) as (_ & _ & Hs & _ & Hh' & Hm' & _).
  destruct (refilled_frame id_a id_b csi (lookup_world id_a id_b w))
    as (_ & _ & _ & Hs'' & Hh'' & Hm'' & _).
  unfold GetStats. rewrite Hs'', Hh'', Hm'', Hs, Hh', Hm', Hh, Hm.
  rewrite length_app. simpl. split; [lia|]. done.
Qed.

Lemma GetStats_around_first_lookup_witness :
  ∃ ce w', GetPropagationData 0%nat 1%nat Scenario.start = Ok ce w' ∧
    GetStats (pcache Scenario.start) = nan ∧
    GetStats (pcache w') = 0%float.
Proof.
  assert (∃ ce w', GetPropagationData 0%nat 1%nat Scenario.start = Ok ce w')
    as (ce & w' & H) by (vm_compute; eauto).
  exists ce, w'. split; [exact H|].
  destruct (GetStats_around_first_lookup Scenario.friis Scenario.const_speed
              [CallSetSionnaHelper; CallSetOptimize false] Scenario.start
              0%nat 1%nat ce w' eq_refl H) as (Hn & _ & _ & _ & Hz).
  split; [exact Hn | exact Hz].
Defined.

(** ** Writing positions back twice *)

(** The slow path of the three-argument loss accessor, in one step. *)
Lemma GetPropagationLoss_tx_slow_path (w : World) (a b : Ptr) (tx : float)
    (id_a id_b : NodeId) (ce : CacheEntry) (w1 : World)
    (ma mb : MobilityModel) :
  a ≠ b →
  endpoints w a b = Some (id_a, id_b) →
  shortcut_taken tx a b w = false →
  GetPropagationData a b w = Ok ce w1 →
  mobility w !! a = Some ma → mobility w !! b = Some mb →
  GetPropagationLoss_tx a b tx w =
  Ok (m_loss ce)
     (set_mobility
        (<[b := SetPosition (written_positions id_a ce).2 mb]>
           (<[a := SetPosition (written_positions id_a ce).1 ma]> (mobility w)))
        w1).
Proof.
  intros Hab Hr Hs H Ha Hb.
  pose proof (GetPropagationData_preserves_mobility a b _ _ _ H) as Hmob.
  destruct (endpoints_bound _ _ _ _ _ Hr) as (_ & Hna & _).
  unfold GetPropagationLoss_tx, bind.
  rewrite (loss_fast_path_not_taken _ _ _ _ _ _ Hr Hs).
  unfold mob_GetPosition, bind, gets, ret. cbv beta. rewrite Ha. cbn.
  rewrite Hb. cbn. rewrite H. rewrite Hmob, Hna.
  unfold written_positions.
  destruct (id_a =? m_a ce)%N; cbn; rewrite Hmob, Ha; unfold modify; cbn;
    rewrite lookup_insert_ne by done; rewrite Hmob, Hb; reflexivity.
Qed.

Lemma SetPosition_SetPosition (v : Vector) (m : MobilityModel) :
  SetPosition v (SetPosition v m) = SetPosition v m.
Proof. by destruct m as [[s|p] n]. Qed.

Lemma endpoints_set_positions (w : World) (a b : Ptr) (va vb : Vector)
    (ma mb : MobilityModel) (x y : Ptr) :
  mobility w !! a = Some ma → mobility w !! b = Some mb →
  endpoints
    (set_mobility
       (<[b := SetPosition vb mb]> (<[a := SetPosition va ma]> (mobility w))) w)
    x y = endpoints w x y.
Proof.
  intros Ha Hb.
  assert (∀ p,
    DynamicCast_SionnaMobilityModel
      (<[b := SetPosition vb mb]> (<[a := SetPosition va ma]> (mobility w)) !! p)
      ≠ None ↔ DynamicCast_SionnaMobilityModel (mobility w !! p) ≠ None) as Hd.
  { intros p. destruct (decide (b = p)) as [<-|Hbp].
    - rewrite lookup_insert_eq, Hb. by destruct mb as [[] ?].
    - rewrite lookup_insert_ne by done. destruct (decide (a = p)) as [<-|Hap].
      + rewrite lookup_insert_eq, Ha. by destruct ma as [[] ?].
      + by rewrite lookup_insert_ne. }
  assert (∀ p,
    GetObject_Node
      (<[b := SetPosition vb mb]> (<[a := SetPosition va ma]> (mobility w)) !! p)
    = GetObject_Node (mobility w !! p)) as Hn.
  { intros p. destruct (decide (b = p)) as [<-|Hbp].
    - rewrite lookup_insert_eq, Hb. done.
    - rewrite lookup_insert_ne by done. destruct (decide (a = p)) as [<-|Hap].
      + rewrite lookup_insert_eq, Ha. done.
      + by rewrite lookup_insert_ne. }
  unfold endpoints. cbn. rewrite !Hn.
  pose proof (Hd x) as Hx. pose proof (Hd y) as Hy.
  destruct (m_sionnaHelper (pcache w)); [|done].
  destruct (DynamicCast_SionnaMobilityModel (_ !! x)),
           (DynamicCast_SionnaMobilityModel (mobility w !! x));
    try done;
    try (exfalso; solve [by apply (proj1 Hx) | by apply (proj2 Hx)]);
  destruct (DynamicCast_SionnaMobilityModel (_ !! y)),
           (DynamicCast_SionnaMobilityModel (mobility w !! y));
    try done;
    exfalso; solve [by apply (proj1 Hy) | by apply (proj2 Hy)].
Qed.

(** X11.  Writing positions back is idempotent.  When the three-argument
    loss accessor has served a stored entry on its slow path (caching on,
    two distinct endpoints), the endpoints still pass the assertions, and a
    second call in the resulting state that does not take the fast path
    returns the same loss as a hit, sends nothing, and leaves every mobility
    object exactly where the first call put it. *)
Theorem write_back_twice_changes_nothing (w : World) (a b : Ptr) (tx : float)
    (id_a id_b : NodeId) (ce : CacheEntry) (w1 : World) :
  a ≠ b →
  endpoints w a b = Some (id_a, id_b) →
  m_caching (pcache w) = true →
  shortcut_taken tx a b w = false →
  GetPropagationData a b w = Ok ce w1 →
  ce ≠ CacheEntry_default (indeterminate w) →
  ∃ w', GetPropagationLoss_tx a b tx w = Ok (m_loss ce) w' ∧
    endpoints w' a b = Some (id_a, id_b) ∧
    (shortcut_taken tx a b w' = false →
     ∃ w'', GetPropagationLoss_tx a b tx w' = Ok (m_loss ce) w'' ∧
       mobility w'' = mobility w' ∧
       socket w'' = socket w' ∧
       m_cache_miss (pcache w'') = m_cache_miss (pcache w')).
Proof.
  intros Hab Hr Hc Hs H Hnd.
  destruct (endpoints_bound _ _ _ _ _ Hr) as (_ & _ & _ & ma & mb & Ha & Hb).
  pose proof (GetPropagationData_preserves_mobility a b _ _ _ H) as Hmob.
  pose proof (GetPropagationData_preserves_settings a b _ _ _ H) as Hset.
  assert (m_sionnaHelper (pcache w1) = m_sionnaHelper (pcache w) ∧
          m_caching (pcache w1) = m_caching (pcache w)) as [Hh1 Hc1].
  { unfold settings in Hset. by injection Hset. }
  destruct (GetPropagationData_leaves_first_live _ _ _ _ _ _ _ Hr H)
    as (Hn1 & [Hf|[_ Hd]]); [|done].
  set (va := (written_positions id_a ce).1).
  set (vb := (written_positions id_a ce).2).
  set (w' := set_mobility
               (<[b := SetPosition vb mb]>
                  (<[a := SetPosition va ma]> (mobility w))) w1).
  assert (endpoints w' a b = Some (id_a, id_b)) as Hr'.
  { unfold w'. rewrite <- Hmob. rewrite <- Hmob in Ha, Hb.
    rewrite (endpoints_set_positions w1 a b va vb ma mb a b Ha Hb).
    unfold endpoints. by rewrite Hh1, Hmob. }
  exists w'.
  split; [exact (GetPropagationLoss_tx_slow_path w a b tx id_a id_b ce w1 ma mb
                   Hab Hr Hs H Ha Hb)|].
  split; [exact Hr'|]. intros Hs'.
  assert (mobility w' !! a = Some (SetPosition va ma)) as Ha'.
  { unfold w'. cbn. rewrite lookup_insert_ne by done. apply lookup_insert_eq. }
  assert (mobility w' !! b = Some (SetPosition vb mb)) as Hb'.
  { unfold w'. cbn. apply lookup_insert_eq. }
  assert (GetPropagationData a b w' =
          Ok ce (set_cache_hits (m_cache_hits (pcache w') + 1)%float
                   (swept (mkCacheKey id_a id_b) w'))) as H'.
  { apply GetPropagationData_hit; [done | by rewrite <- Hc | ].
    change (Now w') with (Now w1). change (cache w') with (cache w1).
    by rewrite Hn1. }
  rewrite (GetPropagationLoss_tx_slow_path w' a b tx id_a id_b ce _
             (SetPosition va ma) (SetPosition vb mb) Hab Hr' Hs' H' Ha' Hb').
  eexists. split; [reflexivity|].
  fold va vb. rewrite !SetPosition_SetPosition.
  destruct (swept_frame (mkCacheKey id_a id_b) w') as (_ & _ & Hsk & _ & _ & Hm & _).
  split; [|split; [exact Hsk | exact Hm]].
  cbn. rewrite (insert_id (mobility w') a) by done.
  by rewrite insert_id.
Qed.

Lemma write_back_twice_changes_nothing_witness :
  ∃ w' w'',
    GetPropagationLoss_tx 1%nat 0%nat 20 Warm.at_60 = Ok 60%float w' ∧
    GetPropagationLoss_tx 1%nat 0%nat 20 w' = Ok 60%float w'' ∧
    position_of 1%nat Warm.at_60 = Some (mkVector 10 0 0) ∧
    position_of 1%nat w' = Some (mkVector 10.5 0 0) ∧
    mobility w'' = mobility w'.
Proof.
  pose proof (GetPropagationData_hit Warm.at_60 1%nat 0%nat 1%N 0%N
                (make_entry Scenario.window1 Scenario.rx1)
                eq_refl eq_refl eq_refl) as H1.
  destruct (write_back_twice_changes_nothing Warm.at_60 1%nat 0%nat 20 1%N 0%N
              _ _ ltac:(discriminate) eq_refl eq_refl eq_refl H1
              ltac:(discriminate))
    as (w' & Hfirst & _ & Hsecond).
  assert (position_of 1%nat w' = Some (mkVector 10.5 0 0)) as Hpos.
  { revert Hfirst. vm_compute. by intros [= <-]. }
  destruct Hsecond as (w'' & H2 & Hmob & _).
  { revert Hfirst. vm_compute. by intros [= <-]. }
  exists w', w''. split; [exact Hfirst|]. split; [exact H2|].
  split; [reflexivity|]. split; [exact Hpos | exact Hmob].
Defined.

(** ** Looking up after an ingestion *)

Lemma elem_of_records_inv (csi : list CSI) (k : CacheKey) (e : CacheEntry) :
  (k, e) ∈ records csi →
  ∃ c rx, c ∈ csi ∧ rx ∈ rx_nodes c ∧
    k = mkCacheKey (tx_id (tx_node c)) (rx_id rx) ∧ e = make_entry c rx.
Proof.
  unfold records. intros (c & Hc & He)%list_elem_of_In%in_flat_map.
  unfold records_of in He.
  apply list_elem_of_In, list_elem_of_fmap in He as (rx & [= -> ->] & Hrx).
  exists c, rx. by rewrite list_elem_of_In.
Qed.

(** X12.  Looking a key up after an ingestion.  The key has a bucket
    afterwards exactly when it had one before or some record of the
    response is for its pair; the bucket then holds the old entries followed
    by the entries of exactly those records, in the order of the response.
    So ingestion never creates an empty bucket and never reorders or drops
    an entry, and a response ingested in two parts gives the same store as
    the response ingested at once. *)
Theorem lookup_after_ingest (csi : list CSI)
    (m : gmap CacheKey (list CacheEntry)) (k : CacheKey) :
  (m !! k = None → filed_under k (records csi) = [] →
   ingest csi m !! k = None) ∧
  (is_Some (m !! k) ∨ filed_under k (records csi) ≠ [] →
   ingest csi m !! k = Some (bucket k m ++ filed_under k (records csi))) ∧
  (∀ e, e ∈ filed_under k (records csi) ↔
        ∃ c rx, c ∈ csi ∧ rx ∈ rx_nodes c ∧
          k = mkCacheKey (tx_id (tx_node c)) (rx_id rx) ∧
          e = make_entry c rx) ∧
  (∀ csi1 csi2, csi = csi1 ++ csi2 → ingest csi m = ingest csi2 (ingest csi1 m)).
Proof.
  split; [|split; [|split]].
  - intros Hk Hf. rewrite ingest_push_all. by apply lookup_push_all_None.
  - intros H. rewrite ingest_push_all. by apply lookup_push_all_Some.
  - intros e. rewrite elem_of_filed_under. split.
    + apply elem_of_records_inv.
    + intros (c & rx & Hc & Hrx & -> & ->). by apply elem_of_records.
  - intros csi1 csi2 ->. unfold ingest. apply fold_left_app.
Qed.

Lemma lookup_after_ingest_witness :
  ingest [Scenario.window1; Scenario.window2] ∅ !! mkCacheKey 2 0 =
    Some [make_entry Scenario.window1 Scenario.rx2;
          make_entry Scenario.window2 Scenario.rx2] ∧
  ingest [Scenario.window1; Scenario.window2] ∅ !! mkCacheKey 1 2 = None.
Proof.
  destruct (lookup_after_ingest [Scenario.window1; Scenario.window2] ∅
              (mkCacheKey 2 0)) as (_ & Hsome & _).
  destruct (lookup_after_ingest [Scenario.window1; Scenario.window2] ∅
              (mkCacheKey 1 2)) as (Hnone & _).
  split.
  - rewrite Hsome; [reflexivity|]. right. vm_compute. discriminate.
  - apply Hnone; reflexivity.
Defined.

(** * The startup message *)

Lemma RandomVariableStreamMessage_spec (r : RandomVariableStream) (w : World) :
  if rvs_supported r
  then ∃ m, RandomVariableStreamMessage r w = Ok m w ∧ rvs_describes r m
  else ∃ msg, RandomVariableStreamMessage r w = Fatal FatalError msg.
Proof.
  destruct r; simpl; try (eexists; split; [reflexivity | done]).
  unfold NS_FATAL_ERROR, fail. eauto.
Qed.

Lemma random_walk_condition_spec (s : SionnaMobilityModel) (w : World) :
  match m_mode s with
  | MODE_TIME =>
      if m_modeTime s >? 0
      then random_walk_condition s w = Ok (time_value (m_modeTime s)) w
      else ∃ msg, random_walk_condition s w = Fatal AssertFailed msg
  | MODE_DISTANCE =>
      if (0 <? m_modeDistance s)%float
      then random_walk_condition s w = Ok (distance_value (m_modeDistance s)) w
      else ∃ msg, random_walk_condition s w = Fatal AssertFailed msg
  | MODE_WALL => random_walk_condition s w = Ok (wall_value (m_modeWall s)) w
  end.
Proof.
  unfold random_walk_condition, GetMode, GetModeTime, GetModeDistance,
    GetModeWall, bind, NS_ASSERT_MSG, ret, fail.
  destruct (m_mode s); simpl.
  - destruct (0 <? m_modeDistance s)%float; eauto.
  - destruct (m_modeTime s >? 0); eauto.
  - reflexivity.
Qed.

(** What the loop body does for one node. *)
Lemma node_info_spec (n : Node) (w : World) :
  match node_model w n with
  | None => node_info n w = Ok None w
  | Some mm =>
      match kind mm with
      | OtherMobility _ => ∃ msg, node_info n w = Fatal AssertFailed msg
      | Sionna s =>
          if describable s
          then ∃ m, node_info n w = Ok (Some (mkNodeInfo (GetId n) m)) w ∧
                    describes s m
          else ∃ k msg, node_info n w = Fatal k msg
      end
  end.
Proof.
  unfold node_info, node_model, bind, gets. cbv beta.
  destruct (node_mobility n ≫= _) as [[[s|p] nd]|]; simpl; [|eauto|done].
  unfold describable, GetModel, GetSpeed, GetDirection, GetPosition, ret.
  destruct (m_model s) eqn:Hmodel; simpl.
  { eexists. split; [reflexivity|]. simpl. done. }
  pose proof (random_walk_condition_spec s w) as Hcond.
  pose proof (RandomVariableStreamMessage_spec (m_speed s) w) as Hsp.
  pose proof (RandomVariableStreamMessage_spec (m_direction s) w) as Hdir.
  destruct (m_mode s) eqn:Hmode.
  - destruct (0 <? m_modeDistance s)%float eqn:Hd; simpl.
    2:{ destruct Hcond as [msg ->]. eauto. }
    rewrite Hcond.
    destruct (rvs_supported (m_speed s)); simpl.
    2:{ destruct Hsp as [msg ->]. eauto. }
    destruct Hsp as (sp & -> & Hsp).
    destruct (rvs_supported (m_direction s)); simpl.
    2:{ destruct Hdir as [msg ->]. eauto. }
    destruct Hdir as (dir & -> & Hdir).
    eexists. split; [reflexivity|]. simpl. rewrite Hmode. done.
  - destruct (m_modeTime s >? 0) eqn:Ht; simpl.
    2:{ destruct Hcond as [msg ->]. eauto. }
    rewrite Hcond.
    destruct (rvs_supported (m_speed s)); simpl.
    2:{ destruct Hsp as [msg ->]. eauto. }
    destruct Hsp as (sp & -> & Hsp).
    destruct (rvs_supported (m_direction s)); simpl.
    2:{ destruct Hdir as [msg ->]. eauto. }
    destruct Hdir as (dir & -> & Hdir).
    eexists. split; [reflexivity|]. simpl. rewrite Hmode.
    apply Z.gtb_lt in Ht. done.
  - simpl. rewrite Hcond.
    destruct (rvs_supported (m_speed s)); simpl.
    2:{ destruct Hsp as [msg ->]. eauto. }
    destruct Hsp as (sp & -> & Hsp).
    destruct (rvs_supported (m_direction s)); simpl.
    2:{ destruct Hdir as [msg ->]. eauto. }
    destruct Hdir as (dir & -> & Hdir).
    eexists. split; [reflexivity|]. simpl. rewrite Hmode. done.
Qed.

(** What the loop does for the whole container. *)
Lemma node_infos_spec (c : list Node) (w : World) :
  if forallb (node_ok w) c
  then ∃ l, node_infos c w = Ok l w ∧
            Forall2 (roster_entry w)
                    (filter (fun n => is_Some (node_model w n)) c) l
  else ∃ k msg, node_infos c w = Fatal k msg.
Proof.
  induction c as [|n c IH]; simpl.
  { exists []. split; [done|]. constructor. }
  pose proof (node_info_spec n w) as Hn. unfold node_ok at 1, bind.
  destruct (node_model w n) as [mm|] eqn:Hm.
  - rewrite filter_cons_True by eauto.
    destruct (kind mm) as [s|p] eqn:Hk; simpl.
    2:{ destruct Hn as [msg ->]. eauto. }
    destruct (describable s); simpl.
    2:{ destruct Hn as (k & msg & ->). eauto. }
    destruct Hn as (m & -> & Hdesc).
    destruct (forallb (node_ok w) c).
    + destruct IH as (l & -> & Hl). eexists. split; [reflexivity|].
      constructor; [|exact Hl]. unfold roster_entry. simpl.
      split; [reflexivity|]. by exists mm, s.
    + destruct IH as (k & msg & ->). eauto.
  - rewrite filter_cons_False by (intros [? ?]; congruence). rewrite Hn. simpl.
    destruct (forallb (node_ok w) c).
    + destruct IH as (l & -> & Hl). eauto.
    + destruct IH as (k & msg & ->). eauto.
Qed.

Section ReadsOnly.
Context {X : Type} (obs : World -> X).

Lemma reads_only_ret {A} (v : A) : reads_only obs (ret v).
Proof. intros w1 w2 _. simpl. done. Qed.

Lemma reads_only_fail {A} (k : FatalKind) (msg : string) :
  reads_only obs (fail (A := A) k msg).
Proof. intros w1 w2 _. simpl. done. Qed.

Lemma reads_only_gets {A} (f : World -> A) :
  (∀ w1 w2, obs w1 = obs w2 → f w1 = f w2) → reads_only obs (gets f).
Proof. intros Hf w1 w2 H. simpl. split; [by apply Hf | done]. Qed.

Lemma reads_only_bind {A B} (c : M A) (k : A -> M B) :
  reads_only obs c → (∀ v, reads_only obs (k v)) → reads_only obs (bind c k).
Proof.
  intros Hc Hk w1 w2 H. unfold bind. specialize (Hc w1 w2 H).
  destruct (c w1) as [v1 w1'|], (c w2) as [v2 w2'|]; try done.
  destruct Hc as (-> & -> & ->). by apply Hk.
Qed.

Lemma reads_only_assert (cond : bool) (msg : string) :
  reads_only obs (NS_ASSERT_MSG cond msg).
Proof.
  unfold NS_ASSERT_MSG. destruct cond;
    [apply reads_only_ret | apply reads_only_fail].
Qed.
End ReadsOnly.

Ltac reads_only_step :=
  first
    [ apply reads_only_ret | apply reads_only_fail | apply reads_only_assert
    | apply reads_only_bind; [|intros ?]
    | match goal with
      | |- reads_only _ (match ?x with _ => _ end) => destruct x
      end ].

Lemma node_infos_reads_only_mobility (c : list Node) :
  reads_only mobility (node_infos c).
Proof.
  induction c as [|n c IH]; simpl; [apply reads_only_ret|].
  apply reads_only_bind; [|intros ?; repeat first [apply IH | reads_only_step]].
  unfold node_info, random_walk_condition, RandomVariableStreamMessage,
    NS_FATAL_ERROR.
  apply reads_only_bind.
  { apply reads_only_gets. by intros w1 w2 ->. }
  intros ?. repeat reads_only_step.
Qed.

(** X13.  The roster of the information message.  When the message is
    built, building it has changed nothing; its scalar fields are the
    helper's parameters and the seed; and its node list has one entry for
    each node of the global container that has a mobility model, in the
    order of the container and under the node's identifier, while nodes
    without mobility model are left out.  Each entry carries the node's
    position and says what its model is: a constant position, or a random
    walk with its two random variables and the condition of its mode: the
    wall flag of a walk in wall mode, or the time of a walk in time mode,
    or the distance of a walk in distance mode, the last two positive. *)
Theorem startup_message_roster (w : World) (info : SimInitMessage) (w' : World) :
  simulation_info w = Ok info w' →
  w' = w ∧
  (scene_fname info, seed info, frequency info, channel_bw info,
   fft_size info, min_coherence_time_ms info, time_evo_model info,
   subcarrier_spacing info, mode info, sub_mode info) =
  (m_environment (helper w), rng_seed w, m_frequency (helper w),
   m_channel_bw (helper w), m_fft_size (helper w),
   m_min_coherence_time_ms (helper w), m_time_evo_model (helper w),
   m_subcarrier_spacing (helper w), m_helper_mode (helper w),
   m_sub_mode (helper w)) ∧
  Forall2 (roster_entry w)
    (filter (fun n => is_Some (node_model w n)) (global_nodes w))
    (nodes info) ∧
  ni_id <$> nodes info =
    GetId <$> filter (fun n => is_Some (node_model w n)) (global_nodes w).
Proof.
  intros H. pose proof (simulation_info_pure _ _ _ H) as ->.
  split; [done|].
  unfold simulation_info, bind, gets, ret in H. cbv beta in H.
  pose proof (node_infos_spec (global_nodes w) w) as Hspec.
  destruct (node_infos (global_nodes w) w) as [l w1|] eqn:E; [|done].
  injection H as <-. simpl.
  destruct (forallb (node_ok w) (global_nodes w)).
  2:{ destruct Hspec as (k & msg & Hk). done. }
  destruct Hspec as (l' & [= <- _] & Hl).
  split; [done|]. split; [exact Hl|].
  clear E. induction Hl as [|n ni ns nis [Hid _] _ IH]; [done|].
  by rewrite !fmap_cons, Hid, IH.
Qed.

Lemma startup_message_roster_witness :
  ∃ info,
    simulation_info Walkers.two_walkers = Ok info Walkers.two_walkers ∧
    ni_id <$> nodes info = [1%N; 2%N] ∧
    ∃ p1 p2 sp dir,
      ni_model <$> nodes info =
      [random_walk_model p1 (wall_value true) sp dir;
       random_walk_model p2 (time_value 1000000000) sp dir].
Proof.
  assert (∃ info w', simulation_info Walkers.two_walkers = Ok info w')
    as (info & w' & H) by (vm_compute; eauto).
  destruct (startup_message_roster _ _ _ H) as (-> & _ & _ & Hids).
  exists info. split; [exact H|]. split; [rewrite Hids; reflexivity|].
  revert H. vm_compute. intros [= <-]. eauto.
Defined.

(** X14.  The information message is built, and so [Start] gets as far as
    sending it, exactly when every node that has a mobility model has a
    [SionnaMobilityModel] that is a constant position or a random walk
    whose two random variables are uniform, constant or normal and whose
    mode is the wall mode, the time mode with a positive time, or the
    distance mode with a positive distance.  Otherwise [Start] stops the
    run before anything is sent, whatever the peer would have answered. *)
Theorem startup_message_built_iff (w : World) :
  ((∃ info, simulation_info w = Ok info w) ↔
   forallb (node_ok w) (global_nodes w) = true) ∧
  (forallb (node_ok w) (global_nodes w) = false →
   ∃ k msg, simulation_info w = Fatal k msg ∧ Start w = Fatal k msg).
Proof.
  pose proof (node_infos_spec (global_nodes w) w) as Hspec.
  unfold Start, simulation_info, bind, gets, ret. cbv beta.
  destruct (forallb (node_ok w) (global_nodes w)).
  - destruct Hspec as (l & -> & _). split; [|done]. split; [done|]. eauto.
  - destruct Hspec as (k & msg & ->). split; [|eauto].
    split; [|done]. by intros [info H].
Qed.

Lemma startup_message_built_iff_witness :
  (∃ info, simulation_info Walkers.start = Ok info Walkers.start) ∧
  (∃ k msg, Start Foreign.start = Fatal k msg) ∧
  (∃ k msg, Start Walkers.stuck = Fatal k msg).
Proof.
  split; [|split].
  - by apply (proj1 (startup_message_built_iff Walkers.start)).
  - destruct (proj2 (startup_message_built_iff Foreign.start) eq_refl)
      as (k & msg & _ & H).
    by exists k, msg.
  - destruct (proj2 (startup_message_built_iff Walkers.stuck) eq_refl)
      as (k & msg & _ & H).
    by exists k, msg.
Defined.

(** * Configuring the helper *)

Lemma int_mul_small (x y : Z) :
  - 2 ^ 31 <= x * y < 2 ^ 31 → int_mul x y = x * y.
Proof.
  intros H. unfold int_mul. rewrite Z.mod_small; lia.
Qed.

(** [Configure], by cases on its four assertions. *)
Lemma Configure_eq (log10 : float -> float) (f bw fft sp : Z) (w : World) :
  Configure log10 f bw fft sp w =
  if (f >=? 0) && ((bw >=? 0) && (bw <=? 10000)) && (fft >=? 0) && (sp >=? 0)
  then Ok tt
         (set_helper
            (SetSubcarrierSpacing sp
               (SetFFTSize (int_mul fft GUARD_MULTIPLIER)
                  (SetChannelBandwidth log10 (int_mul bw GUARD_MULTIPLIER)
                     (SetFrequency f (helper w))))) w)
  else
    Fatal AssertFailed
      (if negb (f >=? 0) then "Center frequency must be positive"
       else if negb ((bw >=? 0) && (bw <=? 10000))
            then "Channel bandwidth must be between 0 and 10000 MHz"
       else if negb (fft >=? 0) then "FFT size must be positive"
       else "OFDM subcarrier spacing must be positive").
Proof.
  unfold Configure, bind, NS_ASSERT_MSG, modify, ret, fail.
  destruct (f >=? 0); [|done].
  destruct ((bw >=? 0) && (bw <=? 10000)); [|done].
  destruct (fft >=? 0); [|done].
  destruct (sp >=? 0); done.
Qed.

(** X15.  [Configure] accepts its arguments exactly when the frequency, the
    FFT size and the subcarrier spacing are not negative and the bandwidth
    is between 0 and 10000: zero passes every check.  A rejection is a
    failed assertion.  When it accepts, the helper holds the frequency and
    the spacing as given, three times the bandwidth, three times the FFT
    size (in 32-bit arithmetic), and the noise floor of the tripled
    bandwidth; the mode, the submode, the coherence time, the scene, the
    socket, the cache, the mobility objects and the clock are untouched.
    The five-argument form stores the coherence time without any check. *)
Theorem Configure_accepts_iff (log10 : float -> float) (f bw fft sp tc : Z)
    (w : World) :
  ((∃ w1, Configure log10 f bw fft sp w = Ok tt w1) ↔
   0 <= f ∧ 0 <= bw <= 10000 ∧ 0 <= fft ∧ 0 <= sp) ∧
  (∀ k msg, Configure log10 f bw fft sp w = Fatal k msg → k = AssertFailed) ∧
  (∀ w1, Configure log10 f bw fft sp w = Ok tt w1 →
     m_frequency (helper w1) = f ∧
     m_channel_bw (helper w1) = 3 * bw ∧
     m_fft_size (helper w1) = int_mul fft 3 ∧
     m_subcarrier_spacing (helper w1) = sp ∧
     m_noiseDbm (helper w1) =
       (10 * log10 (5 * (BOLTZMANN * 293 * int_to_double (3 * bw)) / milliwatt))%float ∧
     untouched_by_Configure (helper w1) = untouched_by_Configure (helper w) ∧
     (pcache w1, mobility w1, Now w1, global_nodes w1, rng_seed w1) =
     (pcache w, mobility w, Now w, global_nodes w, rng_seed w)) ∧
  (∀ w1, Configure_coherence log10 f bw fft sp tc w = Ok tt w1 →
     m_min_coherence_time_ms (helper w1) = tc ∧
     Configure log10 f bw fft sp
       (set_helper (set_min_coherence_time_ms tc (helper w)) w) = Ok tt w1).
Proof.
  rewrite Configure_eq.
  assert ((f >=? 0) && ((bw >=? 0) && (bw <=? 10000)) && (fft >=? 0) && (sp >=? 0)
          = true ↔ 0 <= f ∧ 0 <= bw <= 10000 ∧ 0 <= fft ∧ 0 <= sp) as Hiff.
  { rewrite !andb_true_iff, !Z.geb_le, Z.leb_le. lia. }
  split; [|split; [|split]].
  - rewrite <- Hiff. destruct (_ && _); split; eauto; try done.
    by intros [w1 H].
  - intros k msg. destruct (_ && _); [done|]. by intros [= <- _].
  - intros w1. destruct (_ && _) eqn:E; [|done]. intros [= <-].
    clear E. pose proof (proj1 Hiff eq_refl) as E. cbn.
    rewrite (int_mul_small bw GUARD_MULTIPLIER) by (unfold GUARD_MULTIPLIER; lia).
    unfold GUARD_MULTIPLIER. replace (bw * 3) with (3 * bw) by lia. done.
  - intros w1 H. unfold Configure_coherence, bind, modify in H. cbv beta in H.
    split; [|exact H]. rewrite Configure_eq in H.
    destruct (_ && _); [|done]. by injection H as <-.
Qed.

Lemma Configure_accepts_iff_witness :
  (∃ w1, Configure log10_stand_in 0 0 0 0 Scenario.start = Ok tt w1) ∧
  (∃ msg, Configure log10_stand_in 2412 10001 64 312500 Scenario.start =
          Fatal AssertFailed msg).
Proof.
  split.
  - apply (Configure_accepts_iff log10_stand_in 0 0 0 0 0 Scenario.start). lia.
  - destruct (Configure log10_stand_in 2412 10001 64 312500 Scenario.start)
      as [[] w1|k msg] eqn:E.
    + exfalso.
      assert (0 <= 2412 ∧ 0 <= 10001 <= 10000 ∧ 0 <= 64 ∧ 0 <= 312500) as H.
      { apply (Configure_accepts_iff log10_stand_in 2412 10001 64 312500 0
                 Scenario.start). eauto. }
      lia.
    + exists msg. f_equal.
      exact (proj1 (proj2 (Configure_accepts_iff log10_stand_in 2412 10001 64
                             312500 0 Scenario.start)) k msg E).
Defined.

(** X16.  What [Configure] sets is what [Start] announces.  After the
    five-argument [Configure] has accepted a frequency, a bandwidth, an FFT
    size that does not overflow when tripled, a subcarrier spacing and a
    coherence time, the information message is built exactly when it was
    built before, with the same scene, seed, mode, submode and node list,
    and it carries the frequency, the spacing and the coherence time as
    given, three times the bandwidth and three times the FFT size. *)
Theorem Configure_then_startup_message (log10 : float -> float)
    (f bw fft sp tc : Z) (w w1 : World) (info : SimInitMessage) :
  Configure_coherence log10 f bw fft sp tc w = Ok tt w1 →
  3 * fft < 2 ^ 31 →
  simulation_info w = Ok info w →
  simulation_info w1 =
  Ok (mkSimInitMessage (scene_fname info) (seed info) f (3 * bw) (3 * fft) tc
        (time_evo_model info) sp (mode info) (sub_mode info) (nodes info))
     w1.
Proof.
  intros Hconf Hfft Hinfo.
  destruct (Configure_accepts_iff log10 f bw fft sp tc w)
    as (_ & _ & _ & Hco).
  destruct (Hco _ Hconf) as (Htc & Hc). clear Hco.
  destruct (Configure_accepts_iff log10 f bw fft sp tc
              (set_helper (set_min_coherence_time_ms tc (helper w)) w))
    as (Hacc & _ & Hset & _).
  assert (0 <= f ∧ 0 <= bw <= 10000 ∧ 0 <= fft ∧ 0 <= sp) as Hrange
    by (apply Hacc; eauto).
  destruct (Hset _ Hc) as (Hf & Hbw & Hfs & Hsp & _ & Hun & Hrest).
  rewrite int_mul_small in Hfs by lia.
  unfold untouched_by_Configure in Hun. cbn in Hun, Hrest.
  injection Hun as _ Henv Hmode Hsub _ Hevo _.
  injection Hrest as _ Hmob _ Hnodes Hseed.
  pose proof (node_infos_reads_only_mobility (global_nodes w) w1 w Hmob) as Hro.
  unfold simulation_info, bind, gets, ret in *. cbv beta in *.
  rewrite Hnodes.
  destruct (node_infos (global_nodes w) w) as [l w2|] eqn:E; [|done].
  destruct (node_infos (global_nodes w) w1) as [l1 w3|]; [|done].
  destruct Hro as (-> & -> & _). injection Hinfo as <-. simpl.
  rewrite Henv, Hseed, Hf, Hbw, Hfs, Htc, Hevo, Hsp, Hmode, Hsub.
  f_equal. f_equal. lia.
Qed.

Lemma Configure_then_startup_message_witness :
  ∃ w1 info,
    Configure_coherence log10_stand_in 2412 20 64 312500 100 Scenario.start =
      Ok tt w1 ∧
    simulation_info w1 = Ok info w1 ∧
    (frequency info, channel_bw info, fft_size info, subcarrier_spacing info,
     min_coherence_time_ms info, mode info) = (2412, 60, 192, 312500, 100, 3).
Proof.
  assert (∃ w1, Configure_coherence log10_stand_in 2412 20 64 312500 100
                  Scenario.start = Ok tt w1) as (w1 & H1) by (vm_compute; eauto).
  assert (∃ info, simulation_info Scenario.start = Ok info Scenario.start)
    as (info & H0) by (vm_compute; eauto).
  pose proof (Configure_then_startup_message log10_stand_in 2412 20 64 312500
                100 Scenario.start w1 info H1 ltac:(lia) H0) as H.
  eexists w1, _. split; [exact H1|]. split; [exact H|].
  simpl. revert H0. vm_compute. by intros [= <-].
Defined.

(** * The CFR tag *)

Lemma length_le_bytes (n : nat) (z : Z) : length (le_bytes n z) = n.
Proof. revert z. induction n; intros; simpl; auto. Qed.

Lemma le_value_le_bytes (n : nat) (z : Z) :
  0 <= z < 256 ^ Z.of_nat n → le_value (le_bytes n z) = z.
Proof.
  revert z. induction n as [|n IH]; intros z Hz.
  - simpl in *. lia.
  - cbn [le_bytes le_value]. rewrite IH.
    + pose proof (Z.div_mod z 256). lia.
    + rewrite Nat2Z.inj_succ, Z.pow_succ_r in Hz by lia.
      split; [apply Z.div_pos; lia|apply Z.div_lt_upper_bound; lia].
Qed.

(** A [double] survives the copy through its eight bytes. *)
Lemma double_bytes_value (v : Z) :
  is_double v → le_value (le_bytes 8 v) = v.
Proof.
  intros Hv. apply le_value_le_bytes.
  unfold is_double in Hv. change (256 ^ Z.of_nat 8) with (2 ^ 64). lia.
Qed.

(** ** Reading and writing runs of bytes *)

Lemma write_bytes_spec (bs : list Z) (i : TagBuffer) :
  write_bytes bs i =
  if decide (length bs ≤ length (tb_after i))%nat
  then Some (mkTagBuffer (tb_before i ++ bs) (drop (length bs) (tb_after i)))
  else None.
Proof.
  revert i. induction bs as [|b bs IH]; intros [before after]; simpl.
  - by rewrite app_nil_r, drop_0.
  - unfold WriteU8. simpl. destruct after as [|a after]; simpl.
    + done.
    + rewrite IH. simpl. rewrite <- app_assoc. simpl.
      repeat case_decide; try done; lia.
Qed.

Lemma read_bytes_spec (n : nat) (i : TagBuffer) :
  read_bytes n i =
  if decide (n ≤ length (tb_after i))%nat
  then Some (take n (tb_after i),
             mkTagBuffer (tb_before i ++ take n (tb_after i))
                         (drop n (tb_after i)))
  else None.
Proof.
  revert i. induction n as [|n IH]; intros [before after]; simpl.
  - by rewrite app_nil_r, drop_0.
  - unfold ReadU8. simpl. destruct after as [|a after]; simpl.
    + done.
    + rewrite IH. simpl. rewrite <- app_assoc. simpl.
      repeat case_decide; try done; lia.
Qed.

Lemma WriteDouble_spec (v : Z) (i : TagBuffer) :
  WriteDouble v i = write_bytes (le_bytes 8 v) i.
Proof. reflexivity. Qed.

Lemma ReadDouble_spec (i : TagBuffer) :
  ReadDouble i =
  if decide (8 ≤ length (tb_after i))%nat
  then Some (le_value (take 8 (tb_after i)),
             mkTagBuffer (tb_before i ++ take 8 (tb_after i))
                         (drop 8 (tb_after i)))
  else None.
Proof.
  unfold ReadDouble. rewrite read_bytes_spec. by case_decide.
Qed.

Lemma ReadU32_spec (i : TagBuffer) :
  ReadU32 i =
  if decide (4 ≤ length (tb_after i))%nat
  then Some (le_value (take 4 (tb_after i)),
             mkTagBuffer (tb_before i ++ take 4 (tb_after i))
                         (drop 4 (tb_after i)))
  else None.
Proof.
  unfold ReadU32. rewrite read_bytes_spec. by case_decide.
Qed.

Lemma write_bytes_app (bs1 bs2 : list Z) (i : TagBuffer) :
  write_bytes (bs1 ++ bs2) i = write_bytes bs1 i ≫= write_bytes bs2.
Proof.
  revert i. induction bs1 as [|b bs1 IH]; intros i; simpl; [done|].
  destruct (WriteU8 b i); simpl; [apply IH|done].
Qed.

Lemma write_complexes_bytes (cs : list (Z * Z)) (i : TagBuffer) :
  write_complexes cs i = write_bytes (cs ≫= complex_bytes) i.
Proof.
  revert i. induction cs as [|c cs IH]; intros i; [done|].
  cbn [write_complexes]. rewrite bind_cons. unfold complex_bytes at 1.
  rewrite <- app_assoc, write_bytes_app. unfold WriteDouble.
  destruct (write_bytes _ i) as [i1|]; cbn [mbind option_bind]; [|done].
  rewrite write_bytes_app.
  destruct (write_bytes _ i1) as [i2|]; cbn [mbind option_bind]; [|done].
  apply IH.
Qed.

(** [Serialize] writes the bytes of the tag, one after the other. *)
Lemma Serialize_bytes (t : CFRTag) (i : TagBuffer) :
  Serialize t i = write_bytes (CFRTag_bytes t) i.
Proof.
  unfold Serialize, CFRTag_bytes, WriteU32.
  rewrite write_bytes_app.
  destruct (write_bytes _ i) as [i1|]; cbn [mbind option_bind]; [|done].
  rewrite write_complexes_bytes, write_bytes_app.
  by destruct (write_bytes _ i1) as [i2|].
Qed.

Lemma length_complexes_bytes (cs : list (Z * Z)) :
  length (cs ≫= complex_bytes) = (16 * length cs)%nat.
Proof.
  induction cs as [|c cs IH]; [done|].
  rewrite bind_cons, length_app, IH. unfold complex_bytes.
  rewrite length_app, !length_le_bytes. simpl. lia.
Qed.

Lemma length_CFRTag_bytes (t : CFRTag) :
  length (CFRTag_bytes t) = (12 + 16 * length (m_complexes t))%nat.
Proof.
  unfold CFRTag_bytes.
  rewrite !length_app, !length_le_bytes, length_complexes_bytes. lia.
Qed.

(** The reading loop, on any buffer. *)
Lemma read_complexes_spec (n : nat) :
  ∀ (j : nat) (l : list (Z * Z)) (i : TagBuffer),
    length l = (j + n)%nat →
    read_complexes n j l i =
    if decide (16 * n ≤ length (tb_after i))%nat
    then Some (take j l ++ decode_complexes n (tb_after i),
               mkTagBuffer (tb_before i ++ take (16 * n) (tb_after i))
                           (drop (16 * n) (tb_after i)))
    else None.
Proof.
  induction n as [|n IH]; intros j l [before after] Hl.
  - simpl. rewrite !app_nil_r, take_ge by lia. done.
  - cbn [read_complexes decode_complexes tb_after tb_before].
    rewrite ReadDouble_spec. cbn [tb_after tb_before].
    case_decide as H8; [|case_decide; [lia|done]]. cbn [mbind option_bind].
    rewrite ReadDouble_spec. cbn [tb_after tb_before]. rewrite length_drop.
    case_decide as H16; [|case_decide; [lia|done]]. cbn [mbind option_bind].
    rewrite IH by (rewrite length_insert; lia).
    cbn [tb_after tb_before]. rewrite drop_drop, length_drop.
    change (8 + 8)%nat with 16%nat.
    repeat case_decide; try lia; [|done].
    f_equal. f_equal.
    + rewrite (take_S_r _ j (le_value (take 8 after),
                             le_value (take 8 (drop 8 after))))
        by (apply list_lookup_insert_eq; lia).
      rewrite take_insert_ge by lia. by rewrite <- app_assoc.
    + f_equal.
      * rewrite <- !app_assoc. f_equal.
        rewrite app_assoc, take_take_drop. change (8 + 8)%nat with 16%nat.
        rewrite take_take_drop. f_equal. lia.
      * rewrite drop_drop. f_equal. lia.
Qed.

(** [Deserialize], on any buffer. *)
Lemma Deserialize_spec (old : CFRTag) (i : TagBuffer) :
  let after := tb_after i in
  let size := Z.to_nat (le_value (take 4 after)) in
  Deserialize old i =
  if decide (4 ≤ length after ∧ 12 + 16 * size ≤ length after)%nat
  then Some (mkCFRTag (decode_complexes size (drop 4 after))
               (le_value (take 8 (drop (4 + 16 * size) after))),
             mkTagBuffer (tb_before i ++ take (12 + 16 * size) after)
                         (drop (12 + 16 * size) after))
  else None.
Proof.
  destruct i as [before after]. cbn [tb_after tb_before]. cbv zeta.
  unfold Deserialize. rewrite ReadU32_spec. cbn [tb_after tb_before].
  case_decide as H4; [|case_decide; [lia|done]]. cbn [mbind option_bind].
  rewrite read_complexes_spec by (rewrite length_resize; lia).
  cbn [tb_after tb_before]. rewrite length_drop.
  set (size := Z.to_nat (le_value (take 4 after))).
  case_decide as Hc; [|case_decide; [lia|done]]. cbn [mbind option_bind].
  rewrite ReadDouble_spec. cbn [tb_after tb_before].
  rewrite !drop_drop, !length_drop.
  repeat case_decide; try lia; try done.
  cbn [mbind option_bind]. rewrite take_0. simpl app at 1.
  f_equal. f_equal. f_equal.
  - rewrite <- !app_assoc. f_equal.
    rewrite app_assoc, !take_take_drop. f_equal. lia.
  - f_equal. lia.
Qed.

Lemma decode_complexes_bytes (cs : list (Z * Z)) (rest : list Z) :
  Forall (fun c => is_double (fst c) ∧ is_double (snd c)) cs →
  decode_complexes (length cs) ((cs ≫= complex_bytes) ++ rest) = cs.
Proof.
  intros Hwf. induction Hwf as [|[re im] cs [Hre Him] _ IH]; [done|].
  cbn [length decode_complexes]. rewrite bind_cons, <- app_assoc.
  rewrite (drop_app_length' (complex_bytes (re, im)) _ 16)
    by (unfold complex_bytes; by rewrite length_app, !length_le_bytes).
  rewrite IH. unfold complex_bytes. cbn [fst snd] in *. rewrite <- !app_assoc.
  rewrite (take_app_length' (le_bytes 8 re)) by by rewrite length_le_bytes.
  rewrite (drop_app_length' (le_bytes 8 re)) by by rewrite length_le_bytes.
  rewrite (take_app_length' (le_bytes 8 im)) by by rewrite length_le_bytes.
  by rewrite !double_bytes_value.
Qed.

(** Reading back what [Serialize] wrote. *)
Lemma Deserialize_CFRTag_bytes (t old : CFRTag) (before rest : list Z) :
  CFRTag_wf t →
  Z.of_nat (length (m_complexes t)) < 2 ^ 32 →
  Deserialize old (mkTagBuffer before (CFRTag_bytes t ++ rest)) =
  Some (t, mkTagBuffer (before ++ CFRTag_bytes t) rest).
Proof.
  intros [Hcs Hpl] Hn. rewrite Deserialize_spec. cbn [tb_after tb_before].
  cbv zeta.
  set (n := length (m_complexes t)) in *.
  assert (take 4 (CFRTag_bytes t ++ rest) = le_bytes 4 (Z.of_nat n)) as H4.
  { unfold CFRTag_bytes, to_uint32. fold n. rewrite Z.mod_small by lia.
    rewrite <- app_assoc. apply take_app_length'. by rewrite length_le_bytes. }
  rewrite H4, le_value_le_bytes, Nat2Z.id
    by (change (256 ^ Z.of_nat 4) with (2 ^ 32); lia).
  pose proof (length_CFRTag_bytes t) as Hlen. fold n in Hlen.
  rewrite length_app, Hlen. case_decide as Hd; [|lia].
  rewrite (take_app_length' (CFRTag_bytes t) rest (12 + 16 * n)),
    (drop_app_length' (CFRTag_bytes t) rest (12 + 16 * n)) by done.
  destruct t as [cs pl]. f_equal. f_equal. simpl in n. f_equal.
  - unfold CFRTag_bytes. cbn [m_complexes m_pathloss]. rewrite <- !app_assoc.
    rewrite drop_app_length' by by rewrite length_le_bytes.
    by apply decode_complexes_bytes.
  - unfold CFRTag_bytes. cbn [m_complexes m_pathloss].
    rewrite !app_assoc, <- (app_assoc _ _ rest).
    rewrite drop_app_length'
      by (rewrite length_app, length_le_bytes, length_complexes_bytes; done).
    rewrite take_app_length' by by rewrite length_le_bytes.
    by apply double_bytes_value.
Qed.

Lemma length_decode_complexes (n : nat) (bs : list Z) :
  length (decode_complexes n bs) = n.
Proof. revert bs. induction n; intros; simpl; auto. Qed.

Lemma GetSerializedSize_mod (t : CFRTag) :
  GetSerializedSize t = (12 + 16 * Z.of_nat (length (m_complexes t))) mod 2 ^ 32.
Proof.
  unfold GetSerializedSize, to_uint32.
  change (2 ^ 32) with 4294967296. generalize (Z.of_nat (length (m_complexes t))).
  intros n. Z.div_mod_to_equations. lia.
Qed.

(** X17.  A tag survives [Serialize] followed by [Deserialize], bit for
    bit.  When the tag has fewer than 2^32 coefficients and the buffer has
    room for 12 + 16 n bytes after its cursor, [Serialize] succeeds, moves
    the cursor by exactly that many bytes and leaves the bytes before and
    beyond them alone; [Deserialize], started where [Serialize] started
    and into a tag with any previous content, gives back the coefficients
    and the path loss with the very 64 bits each of them had, whatever
    they denote (a NaN keeps its sign and payload), and stops where
    [Serialize] stopped. *)
Theorem CFRTag_round_trip (t old : CFRTag) (i : TagBuffer) :
  let n := length (m_complexes t) in
  CFRTag_wf t →
  Z.of_nat n < 2 ^ 32 →
  (12 + 16 * n ≤ length (tb_after i))%nat →
  ∃ i', Serialize t i = Some i' ∧
    length (tb_before i') = (length (tb_before i) + (12 + 16 * n))%nat ∧
    tb_before (rewind (12 + 16 * n) i') = tb_before i ∧
    tb_after i' = drop (12 + 16 * n) (tb_after i) ∧
    Deserialize old (rewind (12 + 16 * n) i') = Some (t, i').
Proof.
  intros n Hwf Hn Hroom. rewrite Serialize_bytes, write_bytes_spec.
  pose proof (length_CFRTag_bytes t) as Hlen. fold n in Hlen.
  rewrite Hlen. case_decide; [|lia]. eexists. split; [done|].
  unfold rewind. cbn [tb_before tb_after]. rewrite length_app, Hlen.
  replace (length (tb_before i) + (12 + 16 * n) - (12 + 16 * n))%nat
    with (length (tb_before i)) by lia.
  rewrite take_app_length, drop_app_length.
  split; [done|]. split; [done|]. split; [done|].
  by apply Deserialize_CFRTag_bytes.
Qed.

Lemma CFRTag_round_trip_witness :
  ∃ i', Serialize example_tag (example_buffer 50) = Some i' ∧
    length (tb_after i') = 6%nat ∧
    take 8 (drop 30 (tb_before i')) = [1; 0; 0; 0; 0; 0; 248; 255] ∧
    Deserialize stale_tag (rewind 44 i') = Some (example_tag, i').
Proof.
  destruct (CFRTag_round_trip example_tag stale_tag (example_buffer 50))
    as (i' & HS & _ & _ & Hafter & HD).
  - unfold CFRTag_wf, is_double, example_tag. cbn [m_complexes m_pathloss].
    rewrite !Forall_cons, Forall_nil. cbn [fst snd]. lia.
  - simpl. lia.
  - simpl. lia.
  - exists i'. split; [exact HS|]. split; [by rewrite Hafter|].
    split; [|exact HD]. revert HS. vm_compute. by intros [= <-].
Defined.

(** X18.  [GetSerializedSize] against what [Serialize] writes.
    [Serialize] succeeds exactly when 12 + 16 n bytes are left in the
    buffer; the declared size is that number modulo 2^32.  So in a buffer
    of the declared size, [Serialize] fills the buffer to its last byte
    when 12 + 16 n is below 2^32, and overruns it (the assertion of
    [TagBuffer] fails) otherwise. *)
Theorem Serialize_fits_declared_size (t : CFRTag) (i : TagBuffer) :
  let n := Z.of_nat (length (m_complexes t)) in
  (is_Some (Serialize t i) ↔ 12 + 16 * n <= Z.of_nat (length (tb_after i))) ∧
  GetSerializedSize t = (12 + 16 * n) mod 2 ^ 32 ∧
  (Z.of_nat (length (tb_after i)) = GetSerializedSize t →
   if decide (12 + 16 * n < 2 ^ 32)
   then ∃ i', Serialize t i = Some i' ∧ tb_after i' = []
   else Serialize t i = None).
Proof.
  intros n. rewrite Serialize_bytes, write_bytes_spec, length_CFRTag_bytes.
  pose proof (GetSerializedSize_mod t) as Hsz. fold n in Hsz.
  split; [|split; [exact Hsz|]].
  - case_decide; split; intros H'; try lia; try done.
  - intros Hroom. rewrite Hsz in Hroom.
    pose proof (Z.mod_pos_bound (12 + 16 * n) (2 ^ 32) ltac:(lia)).
    destruct (decide (12 + 16 * n < 2 ^ 32)) as [Hlt|Hge].
    + rewrite Z.mod_small in Hroom by lia.
      case_decide; [|lia]. eexists. split; [done|]. simpl.
      apply drop_ge. lia.
    + case_decide; [lia|done].
Qed.

Lemma Serialize_fits_declared_size_witness :
  GetSerializedSize example_tag = 44 ∧
  (∃ i', Serialize example_tag (example_buffer 44) = Some i' ∧ tb_after i' = []) ∧
  Serialize example_tag (example_buffer 43) = None.
Proof.
  destruct (Serialize_fits_declared_size example_tag (example_buffer 44))
    as (_ & Hsz & Hfill).
  destruct (Serialize_fits_declared_size example_tag (example_buffer 43))
    as (Hiff & _ & _).
  split; [exact Hsz|]. split.
  - specialize (Hfill eq_refl). by destruct (decide _) in Hfill.
  - destruct (Serialize example_tag (example_buffer 43)) eqn:E; [|done].
    exfalso. assert (12 + 16 * 2 <= 43) by (apply Hiff; eauto). lia.
Defined.

(** X19.  [Deserialize] reads what the header announces and nothing else.
    With [size] the little-endian value of the first four bytes, it
    succeeds exactly when the buffer holds 12 + 16 size bytes (otherwise
    the assertion of [TagBuffer] fails: it never reads outside the buffer);
    it then consumes exactly those bytes, the tag has exactly [size]
    coefficients, and nothing of the tag's previous content survives: the
    result is the same whatever the tag held before. *)
Theorem Deserialize_reads_announced_count (old : CFRTag) (i : TagBuffer) :
  let size := Z.to_nat (le_value (take 4 (tb_after i))) in
  (is_Some (Deserialize old i) ↔ (12 + 16 * size ≤ length (tb_after i))%nat) ∧
  (∀ t i', Deserialize old i = Some (t, i') →
     length (m_complexes t) = size ∧
     tb_before i' = tb_before i ++ take (12 + 16 * size) (tb_after i) ∧
     tb_after i' = drop (12 + 16 * size) (tb_after i) ∧
     ∀ old', Deserialize old' i = Some (t, i')).
Proof.
  intros size. split.
  - rewrite Deserialize_spec. cbv zeta. fold size.
    case_decide; split; intros H'; try lia; try done.
  - intros t i' H. pose proof H as H'.
    rewrite Deserialize_spec in H. cbv zeta in H. fold size in H.
    case_decide; [|done]. injection H as <- <-. simpl.
    rewrite length_decode_complexes. repeat split; try done.
    intros old'. rewrite <- H'. by rewrite !Deserialize_spec.
Qed.

Lemma Deserialize_reads_announced_count_witness :
  Deserialize stale_tag (mkTagBuffer [] ([2; 0; 0; 0] ++ replicate 39 0)) = None ∧
  ∃ t i', Deserialize stale_tag (mkTagBuffer [] ([2; 0; 0; 0] ++ replicate 45 0))
          = Some (t, i') ∧
    length (m_complexes t) = 2%nat ∧ length (tb_after i') = 5%nat.
Proof.
  split.
  - destruct (Deserialize stale_tag _) eqn:E; [|done]. exfalso.
    assert (12 + 16 * 2 ≤ 43)%nat; [|lia].
    apply (Deserialize_reads_announced_count stale_tag
             (mkTagBuffer [] ([2; 0; 0; 0] ++ replicate 39 0))).
    rewrite E. eauto.
  - destruct (Deserialize_reads_announced_count stale_tag
                (mkTagBuffer [] ([2; 0; 0; 0] ++ replicate 45 0))) as [Hiff Hres].
    destruct (proj2 Hiff) as [[t i'] E]; [simpl; lia|].
    destruct (Hres t i' E) as (Hn & _ & Ha & _).
    exists t, i'. split; [exact E|]. split; [exact Hn|]. by rewrite Ha.
Defined.

(** * The session exchanges as state changes *)

(** X20.  [Start] and [Destroy] touch nothing but the socket.  A [Start]
    that returns has built the information message without changing
    anything, and the state it leaves differs from the one it found in one
    respect: that message has joined the log of the socket, which is as
    open or closed as it was.  A [Destroy] that returns leaves the state it
    found with the close request added to the log and the socket closed.
    Neither clears or fills the cache, resets a counter, moves a node or
    changes a parameter of the helper. *)
Theorem session_exchanges_touch_only_the_socket (w w' : World) :
  (Start w = Ok tt w' →
   ∃ info, simulation_info w = Ok info w ∧
     w' = after_send (sim_init_msg info) w) ∧
  (Destroy w = Ok tt w' →
   w' = after_close (after_send sim_close_request w)) ∧
  (Start w = Ok tt w' ∨ Destroy w = Ok tt w' →
   beside_the_socket w' = beside_the_socket w).
Proof.
  assert (Start w = Ok tt w' →
          ∃ info, simulation_info w = Ok info w ∧
            w' = after_send (sim_init_msg info) w) as HS.
  { unfold Start, bind. destruct (simulation_info w) as [info w1|] eqn:Hinfo;
      [|done].
    pose proof (simulation_info_pure _ _ _ Hinfo) as ->.
    unfold zmq_send, zmq_recv, modify, gets, NS_ABORT_MSG, fail, ret.
    cbv beta.
    destruct (peer _ _) as [[? | [] ? | | | |]|]; try done.
    intros [= <-]. by exists info. }
  assert (Destroy w = Ok tt w' →
          w' = after_close (after_send sim_close_request w)) as HD.
  { unfold Destroy, bind, zmq_send, zmq_recv, zmq_close, modify, gets,
      NS_ASSERT_MSG, fail, ret.
    cbv beta.
    destruct (peer _ _) as [[]|]; simpl; try done.
    by intros [= <-]. }
  split; [exact HS|]. split; [exact HD|].
  intros [H|H].
  - destruct (HS H) as (info & _ & ->). reflexivity.
  - rewrite (HD H). reflexivity.
Qed.

Lemma session_exchanges_touch_only_the_socket_witness :
  ∃ w1 w2, Start Warm.at_60 = Ok tt w1 ∧ Destroy w1 = Ok tt w2 ∧
    pcache w2 = pcache Warm.at_60 ∧
    closed (socket w2) = true ∧
    length (sent (socket w2)) = S (S (length (sent (socket Warm.at_60)))).
Proof.
  destruct (Start Warm.at_60) as [[] w1|] eqn:E1; [|by vm_compute in E1].
  destruct (Destroy w1) as [[] w2|] eqn:E2.
  - pose proof (session_exchanges_touch_only_the_socket Warm.at_60 w1)
      as (HS & _ & HF1).
    pose proof (session_exchanges_touch_only_the_socket w1 w2)
      as (_ & HD & HF2).
    destruct (HS E1) as (info & _ & Hw1).
    exists w1, w2. split; [done|]. split; [exact E2|].
    rewrite (HD E2), Hw1. split; [reflexivity|]. split; [reflexivity|].
    unfold after_close, after_send, socket, set_socket. simpl.
    rewrite ?length_app. simpl. lia.
  - exfalso. revert E1 E2. vm_compute. intros [= <-]. done.
Defined.

(** * Trace contexts *)

Lemma find_from_digits (str' digits tail : list ascii) (i : Z) :
  Forall (fun c => isdigit c = true) digits →
  find_from ("/"%char :: str') (digits ++ tail) i =
  find_from ("/"%char :: str') tail (i + Z.of_nat (length digits)).
Proof.
  intros Hd. revert i. induction Hd as [|c digits Hc _ IH]; intros i.
  - simpl. f_equal. lia.
  - cbn [app find_from length]. rewrite bool_decide_eq_false_2.
    + rewrite IH. f_equal. lia.
    + intros [k Hk]. injection Hk as -> _. by vm_compute in Hc.
Qed.

Lemma find_from_bounds (str s : list ascii) (i : Z) :
  find_from str s i = npos ∨
  i <= find_from str s i <= i + Z.of_nat (length s).
Proof.
  revert i. induction s as [|c s IH]; intros i; cbn [find_from length].
  - case_bool_decide; [right; lia|by left].
  - case_bool_decide; [right; lia|].
    destruct (IH (i + 1)) as [->|Hb]; [by left|right; lia].
Qed.

Lemma read_digits_decimal (digits tail : list ascii) (acc : Z) :
  Forall (fun c => isdigit c = true) digits →
  no_digit_ahead tail →
  read_digits acc (digits ++ tail) =
  foldl (fun acc c => 10 * acc + (char_code c - 48)) acc digits.
Proof.
  intros Hd Ht. revert acc. induction Hd as [|c digits Hc _ IH]; intros acc.
  - destruct tail as [|c tail]; [done|]. simpl in *. by rewrite Ht.
  - cbn [app read_digits foldl]. by rewrite Hc, IH.
Qed.

Lemma decimal_nonneg (digits : list ascii) :
  Forall (fun c => isdigit c = true) digits → 0 <= decimal digits.
Proof.
  unfold decimal. intros Hd.
  assert (∀ acc, 0 <= acc →
            0 <= foldl (fun acc c => 10 * acc + (char_code c - 48)) acc digits)
    as H; [|by apply H].
  induction Hd as [|c digits Hc _ IH]; intros acc Hacc; [done|].
  cbn [foldl]. apply IH. unfold isdigit in Hc. lia.
Qed.

Lemma no_digit_ahead_take (n : nat) (tail : list ascii) :
  no_digit_ahead tail → no_digit_ahead (take n tail).
Proof. by destruct tail, n. Qed.

(** [std::stoi] on a string of digits followed by something else. *)
Lemma stoi_digits (digits tail : list ascii) :
  digits ≠ [] →
  Forall (fun c => isdigit c = true) digits →
  no_digit_ahead tail →
  stoi (digits ++ tail) =
  if decide (decimal digits < 2 ^ 31) then inr (decimal digits)
  else inl std_out_of_range.
Proof.
  intros Hne Hd Ht.
  pose proof (decimal_nonneg digits Hd) as Hpos.
  pose proof (read_digits_decimal digits tail 0 Hd Ht) as Hread.
  destruct digits as [|c ds]; [done|]. clear Hne. cbn [app] in Hread.
  assert (isdigit c = true) as Hc by (by inversion Hd).
  assert (isspace c = false ∧ (char_code c =? 45) = false ∧
          (char_code c =? 43) = false) as (Hsp & Hminus & Hplus).
  { unfold isspace, isdigit in *. lia. }
  unfold stoi. cbn [app skip_spaces]. rewrite Hsp, Hminus, Hplus.
  cbn [fst snd]. rewrite Hc. cbv zeta. rewrite Hread. fold (decimal (c :: ds)).
  unfold INT_MIN, INT_MAX.
  case_decide; destruct (_ && _) eqn:E; try done; lia.
Qed.

Lemma substr_after_lead (lead rest : list ascii) :
  length lead = 10%nat →
  Z.of_nat (length (lead ++ rest)) < 2 ^ 32 →
  substr 10 npos (lead ++ rest) = inr rest.
Proof.
  intros Hlead Hlen. rewrite length_app in Hlen.
  unfold substr. rewrite length_app, Hlead.
  destruct (Z.ltb_spec (Z.of_nat (10 + length rest)) 10) as [Hlt|_]; [lia|].
  f_equal. rewrite drop_app_length' by done. apply take_ge.
  unfold npos. lia.
Qed.

Lemma find_Device_digits (digits tail : list ascii) :
  Forall (fun c => isdigit c = true) digits →
  Z.of_nat (length (digits ++ tail)) < 2 ^ 32 →
  Z.of_nat (length digits) <= to_uint32 (find Device (digits ++ tail)).
Proof.
  intros Hd Hlen. rewrite length_app in Hlen.
  unfold find. change Device with ("/"%char :: String.list_ascii_of_string "Device").
  rewrite find_from_digits by done. unfold to_uint32.
  destruct (find_from_bounds ("/"%char :: String.list_ascii_of_string "Device")
              tail (0 + Z.of_nat (length digits))) as [Hn|Hb].
  - rewrite Hn. change (npos mod 2 ^ 32) with 4294967295. lia.
  - rewrite Z.mod_small by lia. lia.
Qed.

Lemma substr_prefix (pos : Z) (digits tail : list ascii) :
  Z.of_nat (length digits) <= pos →
  ∃ k, substr 0 pos (digits ++ tail) = inr (digits ++ take k tail).
Proof.
  intros Hpos. unfold substr. rewrite length_app.
  destruct (Z.ltb_spec (Z.of_nat (length digits + length tail)) 0) as [Hlt|_];
    [lia|].
  change (Z.to_nat 0) with 0%nat. rewrite drop_0.
  eexists. f_equal. apply take_app_ge. lia.
Qed.

(** X21.  [ContextToNodeId] reads the number that follows the first ten
    characters.  On a context shorter than 2^32 characters that consists of
    ten characters, a non-empty string of decimal digits and anything that
    does not begin with a digit, the result is the number the digits
    denote when it is below 2^31, leading zeros allowed; otherwise
    [std::stoi] throws [std::out_of_range], although node identifiers are
    32-bit unsigned.  Whether and where the rest contains [/Device] makes
    no difference. *)
Theorem ContextToNodeId_reads_the_number (lead digits tail : list ascii) :
  length lead = 10%nat →
  digits ≠ [] →
  Forall (fun c => isdigit c = true) digits →
  no_digit_ahead tail →
  Z.of_nat (length (lead ++ digits ++ tail)) < 2 ^ 32 →
  ContextToNodeId (lead ++ digits ++ tail) =
  if decide (decimal digits < 2 ^ 31) then inr (decimal digits)
  else inl std_out_of_range.
Proof.
  intros Hlead Hne Hd Ht Hlen. unfold ContextToNodeId.
  rewrite substr_after_lead by done.
  rewrite length_app in Hlen.
  destruct (substr_prefix (to_uint32 (find Device (digits ++ tail))) digits tail)
    as [k Hk]; [apply find_Device_digits; [done|lia]|].
  cbv zeta. rewrite Hk.
  rewrite stoi_digits by auto using no_digit_ahead_take.
  pose proof (decimal_nonneg digits Hd).
  case_decide; [|done]. f_equal. unfold to_uint32. apply Z.mod_small. lia.
Qed.

Lemma ContextToNodeId_reads_the_number_witness :
  ContextToNodeId
    (String.list_ascii_of_string
       "/NodeList/17/DeviceList/0/$ns3::WifiNetDevice/Phy/State/RxOk") = inr 17 ∧
  ContextToNodeId (String.list_ascii_of_string "/NodeList/007") = inr 7 ∧
  ContextToNodeId
    (String.list_ascii_of_string "/NodeList/2147483648/DeviceList/0") =
  inl std_out_of_range.
Proof.
  split; [|split].
  - apply (ContextToNodeId_reads_the_number
             (String.list_ascii_of_string "/NodeList/")
             (String.list_ascii_of_string "17")
             (String.list_ascii_of_string
                "/DeviceList/0/$ns3::WifiNetDevice/Phy/State/RxOk"));
      [reflexivity|discriminate|repeat constructor|reflexivity|simpl; lia].
  - apply (ContextToNodeId_reads_the_number
             (String.list_ascii_of_string "/NodeList/")
             (String.list_ascii_of_string "007") []);
      [reflexivity|discriminate|repeat constructor|exact I|simpl; lia].
  - apply (ContextToNodeId_reads_the_number
             (String.list_ascii_of_string "/NodeList/")
             (String.list_ascii_of_string "2147483648")
             (String.list_ascii_of_string "/DeviceList/0"));
      [reflexivity|discriminate|repeat constructor|reflexivity|simpl; lia].
Defined.
